(** * loggatherer: the log collector of cmd/main.go, embedded and verified

    The program copies the [.tmp] log files of every server of a cluster
    that were written inside a time window to a snapshot folder, optionally
    gzip-compressed, and can prune old snapshot folders.

    The embedding follows cmd/main.go function by function:
    - [copyFile]   the buffered copy loop,
    - [CopyFiles]  the scan of one server's share,
    - [launches]   the loop of [main] that starts one scan per server,
    - [cleanup]    the pruning of old snapshot folders.

    Calls into the operating system are answered by explicit inputs (what
    [os.Stat], [os.ReadDir], [os.Open], ... returned), and everything the
    program does to the outside world is recorded as a list of [Event]s. *)

From Stdlib Require Import ZArith List String Ascii Bool Lia Permutation.
From Stdlib Require Strings.Byte.
Import ListNotations.

Open Scope string_scope.
Open Scope list_scope.
Open Scope Z_scope.

(* ================================================================== *)
(** * Go primitives used by the program *)
(* ================================================================== *)

(** The functions of this part belong to Go's standard library, not to
    the repository; they are written after the library's documented
    behaviour, for the arguments the program calls them with. *)

(** ** 64-bit integers ([int64], [time.Duration]) *)

Definition min_int64 : Z := - 2 ^ 63.
Definition max_int64 : Z := 2 ^ 63 - 1.

(** Two's complement wrap-around of an [int64] result. *)
Definition wrap64 (x : Z) : Z := (x + 2 ^ 63) mod 2 ^ 64 - 2 ^ 63.

Definition mul64 (a b : Z) : Z := wrap64 (a * b).
Definition sub64 (a b : Z) : Z := wrap64 (a - b).
Definition add64 (a b : Z) : Z := wrap64 (a + b).

(** ** package strings *)

(** [strings.HasPrefix]. *)
Fixpoint HasPrefix (s prefix : string) : bool :=
  match prefix, s with
  | EmptyString, _ => true
  | String _ _, EmptyString => false
  | String p prefix', String c s' => Ascii.eqb c p && HasPrefix s' prefix'
  end.

(** [strings.HasSuffix]: [len(s) >= len(suffix) && s[len(s)-len(suffix):] == suffix]. *)
Definition HasSuffix (s suffix : string) : bool :=
  (length suffix <=? length s)%nat &&
  String.eqb (substring (length s - length suffix) (length suffix) s) suffix.

(** [strings.Split(s, sep)] for a one-byte separator: the pieces of [s]
    between the occurrences of [sep]; always at least one piece. *)
Fixpoint Split (s : string) (sep : ascii) : list string :=
  match s with
  | EmptyString => [EmptyString]
  | String c s' =>
      if Ascii.eqb c sep then EmptyString :: Split s' sep
      else match Split s' sep with
           | [] => [String c EmptyString]
           | p :: ps => String c p :: ps
           end
  end.

(** [strings.ReplaceAll(s, old, new)] for one-byte [old] and [new]. *)
Fixpoint ReplaceAll (s : string) (old new : ascii) : string :=
  match s with
  | EmptyString => EmptyString
  | String c s' => String (if Ascii.eqb c old then new else c) (ReplaceAll s' old new)
  end.

(** ** package time *)

(** A [time.Duration] is an [int64] count of nanoseconds. *)
Definition Duration := Z.

(** A [time.Time] without monotonic clock reading, in UTC: the seconds
    elapsed since the Unix epoch and the nanoseconds within the second
    ([0 <= t_nsec < 1e9]).  The second counter is not bounded here. *)
Record Time : Set := mkTime { t_sec : Z; t_nsec : Z }.

(** [t.After(u)] and [t.Before(u)]: comparison of seconds, then nanoseconds. *)
Definition After (t u : Time) : bool :=
  (t_sec u <? t_sec t) || ((t_sec t =? t_sec u) && (t_nsec u <? t_nsec t)).

Definition Before (t u : Time) : bool :=
  (t_sec t <? t_sec u) || ((t_sec t =? t_sec u) && (t_nsec t <? t_nsec u)).

(** The instant as one count of nanoseconds since the epoch. *)
Definition UnixNano (t : Time) : Z := t_sec t * 1000000000 + t_nsec t.

(** [t.Add(d)]: Go splits [d] with truncated division and renormalises
    the nanoseconds. *)
Definition Add (t : Time) (d : Duration) : Time :=
  let dsec := Z.quot d 1000000000 in
  let nsec := t_nsec t + Z.rem d 1000000000 in
  if 1000000000 <=? nsec then mkTime (t_sec t + dsec + 1) (nsec - 1000000000)
  else if nsec <? 0 then mkTime (t_sec t + dsec - 1) (nsec + 1000000000)
  else mkTime (t_sec t + dsec) nsec.

(** [time.Unix(sec, nsec)]: nanoseconds outside [0, 1e9) are carried into
    the seconds. *)
Definition Unix (sec nsec : Z) : Time :=
  if (nsec <? 0) || (1000000000 <=? nsec) then
    let n := Z.quot nsec 1000000000 in
    let sec := sec + n in
    let nsec := nsec - n * 1000000000 in
    if nsec <? 0 then mkTime (sec - 1) (nsec + 1000000000) else mkTime sec nsec
  else mkTime sec nsec.

(** *** Calendar arithmetic (proleptic Gregorian calendar, UTC) *)

Definition isLeap (year : Z) : bool :=
  (year mod 4 =? 0) && (negb (year mod 100 =? 0) || (year mod 400 =? 0)).

(** [daysIn(month, year)]. *)
Definition daysIn (month year : Z) : Z :=
  if month =? 2 then (if isLeap year then 29 else 28)
  else if (month =? 4) || (month =? 6) || (month =? 9) || (month =? 11) then 30
  else 31.

(** The calendar repeats every 400 years, that is every 146097 days; an
    era starts on a first of March.  [day_of_era yoe m d] is the place of
    the date in its era, for [yoe] the year of the era that began on the
    last first of March. *)
Definition day_of_era (yoe m d : Z) : Z :=
  let mp := if 2 <? m then m - 3 else m + 9 in
  let doy := (153 * mp + 2) / 5 + d - 1 in
  yoe * 365 + yoe / 4 - yoe / 100 + doy.

(** Days from 1970-01-01 to the given civil date. *)
Definition days_from_civil (y m d : Z) : Z :=
  let y := if m <=? 2 then y - 1 else y in
  let era := y / 400 in
  let yoe := y - era * 400 in
  era * 146097 + day_of_era yoe m d - 719468.

(** The date of a day of an era: the year counted from the start of the
    era (January and February belong to the next year), month and day. *)
Definition civil_of_era_day (doe : Z) : Z * Z * Z :=
  let yoe := (doe - doe / 1460 + doe / 36524 - doe / 146096) / 365 in
  let doy := doe - (365 * yoe + yoe / 4 - yoe / 100) in
  let mp := (5 * doy + 2) / 153 in
  let d := doy - (153 * mp + 2) / 5 + 1 in
  let m := if mp <? 10 then mp + 3 else mp - 9 in
  ((if m <=? 2 then yoe + 1 else yoe), m, d).

(** The civil date (year, month, day) of a day number counted from
    1970-01-01. *)
Definition civil_from_days (z : Z) : Z * Z * Z :=
  let z := z + 719468 in
  let era := z / 146097 in
  let doe := z - era * 146097 in
  let '(y, m, d) := civil_of_era_day doe in
  (y + era * 400, m, d).

(** [time.Date(year, month, day, hour, min, sec, nsec, time.UTC)] for
    fields that are already in range. *)
Definition Date (year month day hour min sec nsec : Z) : Time :=
  mkTime (days_from_civil year month day * 86400 + hour * 3600 + min * 60 + sec) nsec.

(** *** Formatting with the layout ["20060102T150405Z"] *)

Definition digit_char (d : Z) : ascii := ascii_of_nat (48 + Z.to_nat d).

(** The decimal digits of [u >= 0], most significant first, pushed in
    front of [acc]; an [int] has at most 20 digits. *)
Fixpoint decimal_digits (fuel : nat) (u : Z) (acc : string) : string :=
  match fuel with
  | O => acc
  | S fuel' =>
      let acc' := String (digit_char (u mod 10)) acc in
      if u / 10 =? 0 then acc' else decimal_digits fuel' (u / 10) acc'
  end.

Fixpoint zeros (n : nat) : string :=
  match n with O => EmptyString | S n' => String "0"%char (zeros n') end.

(** [appendInt(b, x, width)]: the decimal form of [x], zero-padded to at
    least [width] digits, after a minus sign when [x < 0]. *)
Definition appendInt (x : Z) (width : nat) : string :=
  let ds := decimal_digits 20 (Z.abs x) EmptyString in
  (if x <? 0 then "-" else "") ++ zeros (width - length ds) ++ ds.

(** [t.Format("20060102T150405Z")] for a UTC time: year (four digits),
    month, day, the letter T, hour, minute, second, the letter Z. *)
Definition Format (t : Time) : string :=
  let days := t_sec t / 86400 in
  let rem := t_sec t mod 86400 in
  let '(y, m, d) := civil_from_days days in
  appendInt y 4 ++ appendInt m 2 ++ appendInt d 2 ++ "T" ++
  appendInt (rem / 3600) 2 ++ appendInt (rem mod 3600 / 60) 2 ++
  appendInt (rem mod 60) 2 ++ "Z".

(** *** Parsing with the layout ["20060102T150405Z"] *)

Definition isDigit (c : ascii) : bool :=
  let n := nat_of_ascii c in ((48 <=? n) && (n <=? 57))%nat.

Definition digit_val (c : ascii) : Z := Z.of_nat (nat_of_ascii c) - 48.

(** [getnum(s, fixed)]: a one- or two-digit number at the head of [s];
    two digits are required when [fixed]. *)
Definition getnum (s : string) (fixed : bool) : option (Z * string) :=
  match s with
  | EmptyString => None
  | String c0 s1 =>
      if negb (isDigit c0) then None
      else match s1 with
           | String c1 s2 =>
               if isDigit c1 then Some (digit_val c0 * 10 + digit_val c1, s2)
               else if fixed then None else Some (digit_val c0, s1)
           | EmptyString => if fixed then None else Some (digit_val c0, s1)
           end
  end.

(** The value of a string of decimal digits ([atoi] on unsigned input);
    [None] when the string is empty or holds another character. *)
Fixpoint digits_val (s : string) (acc : Z) : option Z :=
  match s with
  | EmptyString => Some acc
  | String c s' => if isDigit c then digits_val s' (acc * 10 + digit_val c) else None
  end.

Definition atoi_digits (s : string) : option Z :=
  match s with
  | EmptyString => None
  | _ => digits_val s 0
  end.

(** The leading run of digits of [s] and the rest. *)
Fixpoint span_digits (s : string) : string * string :=
  match s with
  | String c s' =>
      if isDigit c then let '(ds, r) := span_digits s' in (String c ds, r)
      else (EmptyString, s)
  | EmptyString => (EmptyString, EmptyString)
  end.

Definition commaOrPeriod (c : ascii) : bool :=
  Ascii.eqb c "."%char || Ascii.eqb c ","%char.

(** A fractional second in the input that the layout does not mention is
    accepted after the seconds field: a period or comma followed by
    digits, of which the first nine count ([parseNanoseconds]). *)
Definition parse_fraction (value : string) : option (Z * string) :=
  match value with
  | String c0 (String c1 _ as rest) =>
      if commaOrPeriod c0 && isDigit c1 then
        let '(ds, value') := span_digits rest in
        let kept := substring 0 9 ds in
        match digits_val kept 0 with
        | Some ns => Some (ns * 10 ^ (9 - Z.of_nat (length kept)), value')
        | None => None
        end
      else Some (0, value)
  | _ => Some (0, value)
  end.

(** [skip(value, prefix)] for a one-byte literal of the layout. *)
Definition skip_char (value : string) (c : ascii) : option string :=
  match value with
  | String c' value' => if Ascii.eqb c' c then Some value' else None
  | EmptyString => None
  end.

(** The field ["2006"]: four bytes of which the first is a digit, read
    as a number ([atoi]); the rest of the value follows them. *)
Definition getyear (value : string) : option (Z * string) :=
  match value with
  | String y0 _ =>
      if (length value <? 4)%nat || negb (isDigit y0) then None
      else
        match atoi_digits (substring 0 4 value) with
        | None => None
        | Some year => Some (year, substring 4 (length value - 4) value)
        end
  | EmptyString => None
  end.

(** [time.Parse("20060102T150405Z", value)]; [None] stands for any parse
    error.  The result is in UTC. *)
Definition Parse (value : string) : option Time :=
  (* "2006" *)
  match getyear value with
  | None => None
  | Some (year, value) =>
      (* "01" *)
      match getnum value true with
      | None => None
      | Some (month, value) =>
          if (month <=? 0) || (12 <? month) then None
          else
            (* "02": validated once the whole value is read *)
            match getnum value true with
            | None => None
            | Some (day, value) =>
                (* "T" *)
                match skip_char value "T"%char with
                | None => None
                | Some value =>
                    (* "15" *)
                    match getnum value false with
                    | None => None
                    | Some (hour, value) =>
                        if (hour <? 0) || (24 <=? hour) then None
                        else
                          (* "04" *)
                          match getnum value true with
                          | None => None
                          | Some (min, value) =>
                              if (min <? 0) || (60 <=? min) then None
                              else
                                (* "05", and a fraction the layout does not ask for *)
                                match getnum value true with
                                | None => None
                                | Some (sec, value) =>
                                    if (sec <? 0) || (60 <=? sec) then None
                                    else
                                      match parse_fraction value with
                                      | None => None
                                      | Some (nsec, value) =>
                                          (* "Z", and nothing after it *)
                                          match skip_char value "Z"%char with
                                          | Some EmptyString =>
                                              if (day <? 1) || (daysIn month year <? day)
                                              then None
                                              else Some (Date year month day hour min sec nsec)
                                          | _ => None
                                          end
                                      end
                                end
                          end
                    end
                end
            end
      end
  end.

(** [time.ParseInLocation("2006-01-02 15:04:05", ...)] is only used by
    [main] to read the [-start] flag and is not modelled. *)

(** ** package syscall (Windows) *)

(** [syscall.Filetime]: 100-nanosecond intervals since 1601-01-01, as two
    [uint32] halves. *)
Record Filetime : Set := mkFiletime { LowDateTime : Z; HighDateTime : Z }.

(** [ft.Nanoseconds()]: nanoseconds since the Unix epoch, computed in
    [int64]. *)
Definition Nanoseconds (ft : Filetime) : Z :=
  let nsec := add64 (wrap64 (Z.shiftl (HighDateTime ft) 32)) (LowDateTime ft) in
  let nsec := sub64 nsec 116444736000000000 in
  mul64 nsec 100.

(** [syscall.Win32FileAttributeData]; the scan reads the creation time
    only. *)
Record Win32FileAttributeData : Set := mkWin32 { CreationTime : Filetime }.

(* ================================================================== *)
(** * Errors and byte streams *)
(* ================================================================== *)

Definition byte := Byte.byte.

(** Go [error] values, as far as the program tells them apart: it
    compares with [io.EOF] and asks [errors.Is(err, os.ErrNotExist)]. *)
Inductive error : Set :=
| EOF                        (* io.EOF *)
| ErrNotExist                (* an error that is os.ErrNotExist *)
| ErrOp (op msg : string)    (* the *os.PathError of a failed call on an open
                                file: the operation and the text of the cause *)
| ErrOther (msg : string).   (* any other error, with its text *)

Definition error_eqb (a b : error) : bool :=
  match a, b with
  | EOF, EOF => true
  | ErrNotExist, ErrNotExist => true
  | ErrOp o m, ErrOp p n => String.eqb o p && String.eqb m n
  | ErrOther m, ErrOther n => String.eqb m n
  | _, _ => false
  end.

(** [*os.PathError], the only kind of error [os.Stat] returns. *)
Record PathError : Set := mkPathError { Op : string; Path : string; Err : error }.

(** [errors.Is(err, os.ErrNotExist)] on a [*os.PathError] looks through
    the wrapper. *)
Definition is_ErrNotExist (e : error) : bool := error_eqb e ErrNotExist.

(** The pair (value, error) a Go call returns. *)
Inductive result (A : Type) : Type :=
| Ok (a : A)
| Failed (e : error).
Arguments Ok {A} a.
Arguments Failed {A} e.

(** [io.Reader]: [Read] is handed a buffer of [len] bytes and returns the
    bytes it stored at the front of the buffer (their number is Go's [n])
    together with an error or nil.  The interface promises [n <= len]. *)
Class Reader (R : Type) : Type := {
  Read : R -> nat -> list byte * option error * R;
  Read_le : forall r len, (List.length (fst (fst (Read r len))) <= len)%nat
}.

(** [io.Writer]: the program looks at the error of [Write] only. *)
Class Writer (W : Type) : Type := {
  Write : W -> list byte -> option error * W
}.

(** [io.Closer]. *)
Class Closer (C : Type) : Type := {
  Close : C -> option error * C
}.

(** ** [*os.File] *)

(** An open file: its content, the read offset, and what the next calls
    on it will suffer: [Some msg] makes the next [Read] or [Write] fail
    for the cause of that text, [None] (or an exhausted list) lets it
    through.  As package os does, a failed call reports a [*PathError]
    that names the operation. *)
Record osFile : Type := mkFile {
  f_data : list byte;
  f_pos : nat;
  f_faults : list (option string)
}.

(** The bytes a reader of the file has not seen yet. *)
Definition unread (f : osFile) : list byte := skipn (f_pos f) (f_data f).

Definition file_Read (f : osFile) (len : nat) : list byte * option error * osFile :=
  match f_faults f with
  | Some msg :: faults => ([], Some (ErrOp "read" msg), mkFile (f_data f) (f_pos f) faults)
  | _ =>
      let faults := tl (f_faults f) in
      match len with
      | O => ([], None, mkFile (f_data f) (f_pos f) faults)
      | _ =>
          match firstn len (unread f) with
          | [] => ([], Some EOF, mkFile (f_data f) (f_pos f) faults)
          | chunk => (chunk, None, mkFile (f_data f) (f_pos f + List.length chunk) faults)
          end
      end
  end.

Definition file_Write (f : osFile) (p : list byte) : option error * osFile :=
  match f_faults f with
  | Some msg :: faults => (Some (ErrOp "write" msg), mkFile (f_data f) (f_pos f) faults)
  | _ => (None, mkFile (f_data f ++ p) (f_pos f) (tl (f_faults f)))
  end.

Definition file_Close (f : osFile) : option error * osFile := (None, f).

Lemma file_Read_le (f : osFile) (len : nat) :
  (List.length (fst (fst (file_Read f len))) <= len)%nat.
Proof.
  unfold file_Read.
  assert (Hn : (List.length (firstn len (unread f)) <= len)%nat)
    by apply firstn_le_length.
  destruct (f_faults f) as [|[e|] faults]; destruct len as [|len];
    cbn [fst List.length]; try lia;
    destruct (firstn (S len) (unread f)); cbn [fst List.length] in *; lia.
Qed.

#[export] Instance osFile_Reader : Reader osFile :=
  {| Read := file_Read; Read_le := file_Read_le |}.
#[export] Instance osFile_Writer : Writer osFile := {| Write := file_Write |}.
#[export] Instance osFile_Closer : Closer osFile := {| Close := file_Close |}.

(** ** The ends of a closed [io.Pipe] *)

(** [io.ErrClosedPipe] *)
Definition ErrClosedPipe : error := ErrOther "io: read/write on closed pipe".

(** A [*io.PipeReader] or [*io.PipeWriter] whose pipe has been closed:
    [Read] and [Write] both fail with [io.ErrClosedPipe]. *)
Inductive closedPipe : Set := ClosedPipe.

#[export] Instance closedPipe_Reader : Reader closedPipe :=
  {| Read := fun p _ => ([], Some ErrClosedPipe, p);
     Read_le := fun _ len => Nat.le_0_l len |}.
#[export] Instance closedPipe_Writer : Writer closedPipe :=
  {| Write := fun p _ => (Some ErrClosedPipe, p) |}.

(** ** [*gzip.Writer] *)

(** What package compress/gzip puts on the wire for an input [x]: a
    header, the deflate stream of [x], a trailer (checksum and size of
    [x]); [gunzip] is the matching reader. *)
Record GzipFormat : Type := mkGzip {
  gz_header : list byte;
  gz_deflate : list byte -> list byte;
  gz_trailer : list byte -> list byte;
  gunzip : list byte -> option (list byte)
}.

(** The library's contract: reading back what the writer emitted gives
    the input. *)
Definition gzip_sound (G : GzipFormat) : Prop :=
  forall x, gunzip G (gz_header G ++ gz_deflate G x ++ gz_trailer G x) = Some x.

(** A [gzip.Writer] over a file: the header goes out with the first
    [Write], the input is held by the compressor, and [Close] flushes
    the deflate stream and then the trailer.  An error is remembered. *)
Record gzipWriter : Type := mkGzipWriter {
  gz_w : osFile;
  gz_wroteHeader : bool;
  gz_input : list byte;
  gz_closed : bool;
  gz_err : option error
}.

Definition NewWriter (w : osFile) : gzipWriter := mkGzipWriter w false [] false None.

Definition gzip_Write (G : GzipFormat) (z : gzipWriter) (p : list byte)
  : option error * gzipWriter :=
  match gz_err z with
  | Some e => (Some e, z)
  | None =>
      if gz_wroteHeader z then
        (None, mkGzipWriter (gz_w z) true (gz_input z ++ p) (gz_closed z) None)
      else
        match Write (gz_w z) (gz_header G) with
        | (Some e, w) => (Some e, mkGzipWriter w true (gz_input z) (gz_closed z) (Some e))
        | (None, w) => (None, mkGzipWriter w true (gz_input z ++ p) (gz_closed z) None)
        end
  end.

Definition gzip_Close (G : GzipFormat) (z : gzipWriter) : option error * gzipWriter :=
  match gz_err z with
  | Some e => (Some e, z)
  | None =>
      if gz_closed z then (None, z)
      else
        let '(_, z) :=
          if gz_wroteHeader z then (None, z) else gzip_Write G z [] in
        let z := mkGzipWriter (gz_w z) (gz_wroteHeader z) (gz_input z) true (gz_err z) in
        match gz_err z with
        | Some e => (Some e, z)
        | None =>
            match Write (gz_w z) (gz_deflate G (gz_input z)) with
            | (Some e, w) => (Some e, mkGzipWriter w true (gz_input z) true (Some e))
            | (None, w) =>
                match Write w (gz_trailer G (gz_input z)) with
                | (e, w) => (e, mkGzipWriter w true (gz_input z) true e)
                end
            end
        end
  end.

(** ** [io.WriteCloser] *)

(** The two kinds of value the scan keeps in its variable [d]: the created
    file itself, or a [gzip.Writer] over it. *)
Inductive WriteCloser : Type :=
| FileW (f : osFile)
| GzipW (z : gzipWriter).

Definition wc_Write (G : GzipFormat) (d : WriteCloser) (p : list byte)
  : option error * WriteCloser :=
  match d with
  | FileW f => let '(e, f) := Write f p in (e, FileW f)
  | GzipW z => let '(e, z) := gzip_Write G z p in (e, GzipW z)
  end.

Definition wc_Close (G : GzipFormat) (d : WriteCloser) : option error * WriteCloser :=
  match d with
  | FileW f => let '(e, f) := Close f in (e, FileW f)
  | GzipW z => let '(e, z) := gzip_Close G z in (e, GzipW z)
  end.

Definition WriteCloser_Writer (G : GzipFormat) : Writer WriteCloser :=
  {| Write := wc_Write G |}.
Definition WriteCloser_Closer (G : GzipFormat) : Closer WriteCloser :=
  {| Close := wc_Close G |}.

(** The [*os.File] a [WriteCloser] writes to.  The scan keeps a second
    reference to it ([zd]) when it compresses. *)
Definition file_of (d : WriteCloser) : osFile :=
  match d with
  | FileW f => f
  | GzipW z => gz_w z
  end.

(* ================================================================== *)
(** * The copy loop: [copyFile] *)
(* ================================================================== *)

(** [err != nil && err != io.EOF] *)
Definition read_failed (err : option error) : bool :=
  match err with
  | Some e => negb (error_eqb e EOF)
  | None => false
  end.

(** [copyFile(source, dest)]: one unfolding of the [for] loop per unit of
    [fuel]; [None] when the loop is still running after [fuel] rounds.
    The result is the returned error (or nil) and the two streams as the
    function leaves them. *)
Fixpoint copyFile {R W : Type} `{Reader R} `{Writer W}
    (fuel : nat) (source : R) (dest : W) : option (option error * R * W) :=
  match fuel with
  | O => None
  | S fuel' =>
      let '(chunk, err, source') := Read source 1024 in
      if read_failed err then Some (err, source', dest)
      else if (List.length chunk =? 0)%nat then Some (None, source', dest)
      else
        match Write dest chunk with
        | (Some e, dest') => Some (Some e, source', dest')
        | (None, dest') => copyFile fuel' source' dest'
        end
  end.

(** ** The Stream Copier as the specification words it *)

(** The failure the specification lets the copier surface: it names the
    operation that failed. *)
Inductive CopyFailed : Set :=
| ReadFailed (e : error)
| WriteFailed (e : error).

(** The Go error behind an outcome of the specified copier. *)
Definition surfaced (o : option CopyFailed) : option error :=
  match o with
  | None => None
  | Some (ReadFailed e) => Some e
  | Some (WriteFailed e) => Some e
  end.

(** [Copies s d o s' d']: started on the streams [s] and [d], the
    specified copier ends with outcome [o] and leaves [s'] and [d'].  It
    reads with a buffer of 1024 bytes; a read that fails with something
    else than end-of-stream ends the copy as [ReadFailed]; a read of zero
    bytes ends it successfully; any other chunk is written as it is, and
    a failed write ends the copy as [WriteFailed]. *)
Inductive Copies {R W : Type} `{Reader R} `{Writer W}
  : R -> W -> option CopyFailed -> R -> W -> Prop :=
| Copies_read_failed s d chunk e s' :
    Read s 1024 = (chunk, Some e, s') -> e <> EOF ->
    Copies s d (Some (ReadFailed e)) s' d
| Copies_end s d err s' :
    Read s 1024 = ([], err, s') -> err = None \/ err = Some EOF ->
    Copies s d None s' d
| Copies_write_failed s d chunk err s' e d' :
    Read s 1024 = (chunk, err, s') -> err = None \/ err = Some EOF ->
    chunk <> [] -> Write d chunk = (Some e, d') ->
    Copies s d (Some (WriteFailed e)) s' d'
| Copies_step s d chunk err s' d' o s'' d'' :
    Read s 1024 = (chunk, err, s') -> err = None \/ err = Some EOF ->
    chunk <> [] -> Write d chunk = (None, d') ->
    Copies s' d' o s'' d'' ->
    Copies s d o s'' d''.

(* ================================================================== *)
(** * What the program does to the outside world *)
(* ================================================================== *)

(** An argument of a [log.Printf] call. *)
Inductive Arg : Set :=
| AStr (s : string)
| AErr (e : error)
| APathErr (e : PathError)
| ABool (b : bool).

(** A stream the scan closes. *)
Inductive Handle : Type :=
| SourceFile (path : string)                     (* s *)
| Compressor (path : string)                     (* the gzip.Writer over the file at path *)
| DestFile (path : string) (content : list byte) (* the created file, with what it holds when closed *).

Inductive Event : Type :=
| EvLog (format : string) (args : list Arg)   (* log.Printf, log.Fatalf *)
| EvStat (path : string)                      (* os.Stat *)
| EvMkdirAll (path : string)                  (* os.MkdirAll *)
| EvReadDir (path : string)                   (* os.ReadDir *)
| EvOpen (path : string)                      (* os.Open *)
| EvCreate (path : string)                    (* os.Create *)
| EvClose (h : Handle)                        (* Close() *)
| EvChtimes (path : string) (atime mtime : Time)  (* os.Chtimes *)
| EvRemoveAll (path : string)                 (* os.RemoveAll *)
| EvDone.                                     (* w.Done() *)

(** Why a function does not return to its caller. *)
Inductive Stop : Set :=
| Exit (code : Z)   (* os.Exit, reached through log.Fatalf *)
| Hang.             (* a copy loop that did not end within the fuel *)

(** A computation: the events it produced, and either the reason it
    stopped the run or its value. *)
Definition M (A : Type) : Type := list Event * (Stop + A).

Definition ret {A : Type} (a : A) : M A := ([], inr a).

Definition bind {A B : Type} (m : M A) (k : A -> M B) : M B :=
  match m with
  | (evs, inl s) => (evs, inl s)
  | (evs, inr a) => let '(evs', r) := k a in (evs ++ evs', r)
  end.

Declare Scope go_scope.
Delimit Scope go_scope with go.
Notation "x <- c ;; k" := (bind c (fun x => k))
  (at level 61, c at next level, right associativity) : go_scope.
Notation "c ;;; k" := (bind c (fun _ => k))
  (at level 61, right associativity) : go_scope.
Open Scope go_scope.

Definition emit (ev : Event) : M unit := ([ev], inr tt).

Definition log_Printf (format : string) (args : list Arg) : M unit :=
  emit (EvLog format args).

(** [log.Fatalf]: print, then [os.Exit(1)]. *)
Definition log_Fatalf {A : Type} (format : string) (args : list Arg) : M A :=
  ([EvLog format args], inl (Exit 1)).

(** A deferred call runs when the function returns; not when the process
    exits or the function never ends. *)
Definition defer {A : Type} (body : M A) (deferred : M unit) : M A :=
  match body with
  | (evs, inr a) => (evs ++ fst deferred, inr a)
  | stopped => stopped
  end.

Definition events {A : Type} (m : M A) : list Event := fst m.
Definition returned {A : Type} (m : M A) : Prop := exists a, snd m = inr a.

(* ================================================================== *)
(** * The scan of one server: [CopyFiles] *)
(* ================================================================== *)

(** [fs.FileInfo] of an entry of a Windows share; [Sys()] is always a
    [*syscall.Win32FileAttributeData] there. *)
Record FileInfo : Set := mkFileInfo {
  fi_Name : string;
  ModTime : Time;
  Sys : Win32FileAttributeData
}.

(** [os.DirEntry]. *)
Record DirEntry : Set := mkDirEntry {
  Name : string;
  IsDir : bool;
  Info : result FileInfo
}.

(** What the file system answers while one entry is transferred. *)
Record FileIO : Type := mkFileIO {
  io_open : result (list byte * list (option string));
      (* os.Open: the content of the source file and the faults of its reads *)
  io_create : result (list (option string));
      (* os.Create: the faults of the writes to the new, empty file *)
  io_now : Time;                     (* time.Now() *)
  io_chtimes : option error          (* os.Chtimes *)
}.

(** The package-level variables the scan reads ([compress], [startTime],
    [endTime]), and the gzip format of the library it is linked with. *)
Record Globals : Type := mkGlobals {
  compress : bool;
  startTime : Time;
  endTime : Time;
  gzip : GzipFormat
}.

(** [fmt.Sprintf("%s/%s", a, b)] *)
Definition join (a b : string) : string := a ++ "/" ++ b.

(** The creation time the scan computes for an entry (line 137). *)
Definition fCreate (finfo : FileInfo) : Time :=
  Unix 0 (Nanoseconds (CreationTime (Sys finfo))).

(** The condition of line 138. *)
Definition in_window (g : Globals) (finfo : FileInfo) : bool :=
  After (ModTime finfo) (startTime g) && Before (fCreate finfo) (endTime g)
  && HasSuffix (fi_Name finfo) ".tmp".

(** [targetName] (lines 130-133). *)
Definition targetName (g : Globals) (finfo : FileInfo) : string :=
  if compress g then fi_Name finfo ++ ".gz" else fi_Name finfo.

Definition lift_copy {R W : Type} (r : option (option error * R * W))
  : M (option error * R * W) :=
  match r with
  | Some x => ret x
  | None => ([], inl Hang)
  end.

(** [s.Close()] *)
Definition close_source (spath : string) : M unit :=
  emit (EvClose (SourceFile spath)).

(** [d.Close()]: the event names the stream; the value is [d] afterwards. *)
Definition close_d (G : GzipFormat) (dpath : string) (d : WriteCloser) : M WriteCloser :=
  emit (EvClose (match d with
                 | FileW f => DestFile dpath (f_data f)
                 | GzipW _ => Compressor dpath
                 end)) ;;;
  ret (snd (wc_Close G d)).

(** [zd.Close()], on the file behind the compressor. *)
Definition close_zd (dpath : string) (d : WriteCloser) : M unit :=
  emit (EvClose (DestFile dpath (f_data (file_of d)))).

(** Lines 149-164: what [d] is once the file [zd] has been created. *)
Definition new_dest (compress : bool) (zd : osFile) : WriteCloser :=
  if compress then GzipW (NewWriter zd) else FileW zd.

(** Lines 145-182: the destination is created (and wrapped in a
    [gzip.Writer] when [compress] is set), filled by [copyFile], the
    streams are closed and the modification time is set. *)
Definition transfer (fuel : nat) (g : Globals) (server : string)
    (finfo : FileInfo) (spath dpath : string) (s : osFile) (io : FileIO) : M unit :=
  emit (EvCreate dpath) ;;;
  match io_create io with
  | Failed err =>
      log_Printf "[error][%s] cannot open destination file %q: %v"
        [AStr server; AStr (targetName g finfo); AErr err] ;;;
      close_source spath
  | Ok faults =>
      let d := new_dest (compress g) (mkFile [] 0 faults) in
      r <- lift_copy (copyFile (H0 := WriteCloser_Writer (gzip g)) fuel s d) ;;
      let '(err, _, d) := r in
      match err with
      | Some err =>
          log_Printf "[error][%s] cannot copy source to destination %q: %v"
            [AStr server; AStr (targetName g finfo); AErr err] ;;;
          close_source spath ;;;
          d <- close_d (gzip g) dpath d ;;
          (if compress g then close_zd dpath d else ret tt)
      | None =>
          close_source spath ;;;
          d <- close_d (gzip g) dpath d ;;
          (if compress g then close_zd dpath d else ret tt) ;;;
          emit (EvChtimes dpath (io_now io) (ModTime finfo)) ;;;
          match io_chtimes io with
          | Some err =>
              log_Printf "[error][%s] error setting last modified date on %s: %v"
                [AStr server; AStr (targetName g finfo); AErr err]
          | None => ret tt
          end
      end
  end.

(** The body of the loop over the directory entries (lines 125-185). *)
Definition CopyFiles_entry (fuel : nat) (g : Globals) (server src dst : string)
    (f : DirEntry) (io : FileIO) : M unit :=
  if IsDir f then ret tt
  else
    match Info f with
    | Failed err =>
        log_Printf "[error][%s] cannot read file info for %q: %v"
          [AStr server; AStr (Name f); AErr err]
    | Ok finfo =>
        if in_window g finfo then
          let spath := join src (Name f) in
          let dpath := join (join dst server) (targetName g finfo) in
          emit (EvOpen spath) ;;;
          match io_open io with
          | Failed err =>
              log_Printf "[error][%s] cannot open source file %q: %v"
                [AStr server; AStr (Name f); AErr err]
          | Ok (data, faults) =>
              transfer fuel g server finfo spath dpath (mkFile data 0 faults) io
          end
        else ret tt
    end.

(** The loop of lines 124-186. *)
Fixpoint CopyFiles_loop (fuel : nat) (g : Globals) (server src dst : string)
    (sdir : list (DirEntry * FileIO)) : M unit :=
  match sdir with
  | [] => ret tt
  | (f, io) :: sdir' =>
      CopyFiles_entry fuel g server src dst f io ;;;
      CopyFiles_loop fuel g server src dst sdir'
  end.

(** What the file system answers to the scan of one server. *)
Record ScanIO : Type := mkScanIO {
  io_stat : option PathError;                    (* os.Stat(dst/server) *)
  io_mkdir : option error;                       (* os.MkdirAll(dst/server) *)
  io_readdir : result (list (DirEntry * FileIO)) (* os.ReadDir(src), with the
                                                    answers for each entry *)
}.

(** [CopyFiles(server, src, dst, w)]. *)
Definition CopyFiles (fuel : nat) (g : Globals) (server src dst : string)
    (io : ScanIO) : M unit :=
  defer
    (log_Printf "[info] scanning %s" [AStr src] ;;;
     emit (EvStat (join dst server)) ;;;
     match io_stat io with
     | Some err =>
         if is_ErrNotExist (Err err) then
           emit (EvMkdirAll (join dst server)) ;;;
           match io_mkdir io with
           | Some err =>
               log_Fatalf "[fatal] error creating destination folder: %v" [AErr err]
           | None => ret tt
           end
         else
           log_Fatalf "[fatal] error opening destination folder: %v (%v)"
             [APathErr err; ABool (is_ErrNotExist (Err err))]
     | None => ret tt
     end ;;;
     emit (EvReadDir src) ;;;
     match io_readdir io with
     | Failed err =>
         log_Printf "[error][%s] unable to open %q: %v" [AStr server; AStr src; AErr err]
     | Ok sdir =>
         CopyFiles_loop fuel g server src dst sdir ;;;
         log_Printf "[info] done scanning %s" [AStr server]
     end)
    (emit EvDone).

(* ================================================================== *)
(** * [main]: the snapshot folder and the start of the scans *)
(* ================================================================== *)

(** Lines 79-84 (and 212-216 of [cleanup]): the configured destination,
    taken relative to the folder of the executable unless it is absolute.
    [IsAbs] is [filepath.IsAbs]. *)
Definition destination_root (IsAbs : string -> bool) (wd configured : string) : string :=
  if IsAbs configured then configured
  else join (ReplaceAll wd "\"%char "/"%char) configured.

(** Line 77. *)
Definition window_end (startTime : Time) (dur : Duration) : Time := Add startTime dur.

(** Line 85: the snapshot folder of a run. *)
Definition destination (root cluster : string) (startTime endTime : Time) : string :=
  root ++ "/" ++ cluster ++ "/" ++ Format startTime ++ "-" ++ Format endTime.

(** A key of a section of the ini file. *)
Record Key : Set := mkKey { k_Name : string; k_Value : string }.

(** [k.MustString(defaultVal)]: the value, or the default when it is empty. *)
Definition MustString (k : Key) (defaultVal : string) : string :=
  if (length (k_Value k) =? 0)%nat then defaultVal else k_Value k.

(** The arguments of one [go CopyFiles(server, src, dst, &wg)]. *)
Record Launch : Set := mkLaunch { l_server : string; l_src : string; l_dst : string }.

(** Lines 92-99: the loop over the keys of the cluster's section, with
    the local variable [share]; the result lists the scans it starts, in
    order. *)
Fixpoint launches (keys : list Key) (share : string) (dst : string) : list Launch :=
  match keys with
  | [] => []
  | k :: keys' =>
      if String.eqb (k_Name k) "logshare" then
        launches keys' (MustString k "SPSS_DIMENSIONS_LOGS") dst
      else
        mkLaunch (k_Name k) ("//" ++ k_Value k ++ "/" ++ share) dst
          :: launches keys' share dst
  end.

(** Lines 87-99: [share] starts as the empty string. *)
Definition main_launches (keys : list Key) (dst : string) : list Launch :=
  launches keys "" dst.

(* ================================================================== *)
(** * Pruning old snapshot folders: [cleanup] *)
(* ================================================================== *)

(** What the system answers while one folder is looked at. *)
Record PruneIO : Set := mkPruneIO {
  p_now : Time;                (* time.Now().UTC() *)
  p_remove : option error      (* os.RemoveAll *)
}.

(** The test of lines 225-233 on one entry: [Some endT] when the entry is
    a directory whose name has 33 bytes and two dash-separated parts of
    which the second parses. *)
Definition snapshot_end (entry : DirEntry) : option Time :=
  if IsDir entry then
    match Split (Name entry) "-"%char with
    | [_; endStamp] =>
        if (length (Name entry) =? 33)%nat then Parse endStamp else None
    | _ => None
    end
  else None.

(** [time.Now().UTC().Add(-1 * dur)] *)
Definition horizon (now : Time) (dur : Duration) : Time := Add now (mul64 (-1) dur).

(** The body of the loop of [cleanup] (lines 225-240). *)
Definition cleanup_entry (dur : Duration) (dst : string) (entry : DirEntry) (io : PruneIO)
  : M unit :=
  match snapshot_end entry with
  | Some endT =>
      if Before endT (horizon (p_now io) dur) then
        log_Printf "cleaning up %s..." [AStr (join dst (Name entry))] ;;;
        emit (EvRemoveAll (join dst (Name entry))) ;;;
        match p_remove io with
        | Some err =>
            log_Printf "cannot delete folder %q: %v" [AStr (join dst (Name entry)); AErr err]
        | None => ret tt
        end
      else ret tt
  | None => ret tt
  end.

Fixpoint cleanup_loop (dur : Duration) (dst : string) (entries : list (DirEntry * PruneIO))
  : M unit :=
  match entries with
  | [] => ret tt
  | (entry, io) :: entries' =>
      cleanup_entry dur dst entry io ;;; cleanup_loop dur dst entries'
  end.

(** [cleanup()]: [root] is the destination root, [readdir] the answer of
    [os.ReadDir] on the cluster's folder. *)
Definition cleanup (dur : Duration) (root cluster : string)
    (readdir : result (list (DirEntry * PruneIO))) : M unit :=
  let dst := join root cluster in
  emit (EvReadDir dst) ;;;
  match readdir with
  | Failed err => log_Fatalf "cannot read from folder %q: %v" [AStr dst; AErr err]
  | Ok entries => cleanup_loop dur dst entries
  end.


(* ================================================================== *)
(** * Observations the statements are written with *)
(* ================================================================== *)

(** The bytes a [WriteCloser] has accepted through [Write]: for a file
    its content, for a compressor the input it holds. *)
Definition received (d : WriteCloser) : list byte :=
  match d with
  | FileW f => f_data f
  | GzipW z => gz_input z
  end.

(** The complete gzip stream of an input. *)
Definition compressed (G : GzipFormat) (x : list byte) : list byte :=
  gz_header G ++ gz_deflate G x ++ gz_trailer G x.

Inductive StreamKind : Set := TheSource | TheCompressor | TheDestination.

(** The streams closed by a run, in the order of their [Close] calls. *)
Fixpoint closes (evs : list Event) : list StreamKind :=
  match evs with
  | [] => []
  | EvClose (SourceFile _) :: evs' => TheSource :: closes evs'
  | EvClose (Compressor _) :: evs' => TheCompressor :: closes evs'
  | EvClose (DestFile _ _) :: evs' => TheDestination :: closes evs'
  | _ :: evs' => closes evs'
  end.

(** The paths handed to [os.Create] by a run. *)
Fixpoint created (evs : list Event) : list string :=
  match evs with
  | [] => []
  | EvCreate p :: evs' => p :: created evs'
  | _ :: evs' => created evs'
  end.

(** The log lines of a run that carry the given error. *)
Definition logs_error (e : error) (ev : Event) : Prop :=
  exists format args, ev = EvLog format args /\ In (AErr e) args.

(** The output path as the specification's section on external
    interfaces spells it. *)
Definition spec_path (root cluster : string) (startTime endTime : Time)
    (server filename : string) (compress : bool) : string :=
  root ++ "/" ++ cluster ++ "/" ++ Format startTime ++ "T" ++ Format endTime ++ "Z"
       ++ "/" ++ server ++ "/" ++ filename ++ (if compress then ".gz" else "").

(** A container format small enough to compute with: two magic bytes,
    the input as it is, no trailer.  It stands in for gzip where a
    statement is run on an example. *)
Definition stored_format : GzipFormat :=
  mkGzip [Byte.x1f; Byte.x8b] (fun x => x) (fun _ => [])
         (fun l => match l with
                   | Byte.x1f :: Byte.x8b :: x => Some x
                   | _ => None
                   end).

(** The pieces of a [Split], glued with the separator again. *)
Fixpoint Join (parts : list string) (sep : ascii) : string :=
  match parts with
  | [] => EmptyString
  | [p] => p
  | p :: ps => p ++ String sep (Join ps sep)
  end.

(** Whether [d] is a compressor. *)
Definition is_gzip (d : WriteCloser) : bool :=
  match d with GzipW _ => true | FileW _ => false end.

(** The event of [d.Close()], followed by that of [zd.Close()] when [d]
    is a compressor. *)
Definition closing_events (G : GzipFormat) (dpath : string) (d : WriteCloser)
  : list Event :=
  match d with
  | FileW f => [EvClose (DestFile dpath (f_data f))]
  | GzipW z =>
      [EvClose (Compressor dpath);
       EvClose (DestFile dpath (f_data (gz_w (snd (gzip_Close G z)))))]
  end.

(** The steps of the transfer of one entry at which the file system can
    refuse. *)
Inductive Step : Set := AtInfo | AtOpen | AtCreate | AtCopy | AtChtimes.

(** [FailsAt fuel g f io step e]: with the answers [io], the transfer of
    the entry [f] meets the error [e] at [step], every earlier step
    having gone through. *)
Inductive FailsAt (fuel : nat) (g : Globals) (f : DirEntry) (io : FileIO)
  : Step -> error -> Prop :=
| Fails_info e :
    IsDir f = false -> Info f = Failed e ->
    FailsAt fuel g f io AtInfo e
| Fails_open finfo e :
    IsDir f = false -> Info f = Ok finfo -> in_window g finfo = true ->
    io_open io = Failed e ->
    FailsAt fuel g f io AtOpen e
| Fails_create finfo data faults e :
    IsDir f = false -> Info f = Ok finfo -> in_window g finfo = true ->
    io_open io = Ok (data, faults) -> io_create io = Failed e ->
    FailsAt fuel g f io AtCreate e
| Fails_copy finfo data faults faults' e s' d' :
    IsDir f = false -> Info f = Ok finfo -> in_window g finfo = true ->
    io_open io = Ok (data, faults) -> io_create io = Ok faults' ->
    copyFile (H0 := WriteCloser_Writer (gzip g)) fuel (mkFile data 0 faults)
      (new_dest (compress g) (mkFile [] 0 faults')) = Some (Some e, s', d') ->
    FailsAt fuel g f io AtCopy e
| Fails_chtimes finfo data faults faults' e s' d' :
    IsDir f = false -> Info f = Ok finfo -> in_window g finfo = true ->
    io_open io = Ok (data, faults) -> io_create io = Ok faults' ->
    copyFile (H0 := WriteCloser_Writer (gzip g)) fuel (mkFile data 0 faults)
      (new_dest (compress g) (mkFile [] 0 faults')) = Some (None, s', d') ->
    io_chtimes io = Some e ->
    FailsAt fuel g f io AtChtimes e.

(** The destination folder of the server exists or could be created
    (lines 107-116). *)
Definition folder_ready (io : ScanIO) : bool :=
  match io_stat io with
  | None => true
  | Some err =>
      is_ErrNotExist (Err err) &&
      match io_mkdir io with None => true | Some _ => false end
  end.

(** The fuel lets every copy of the listing run to its end: it exceeds
    the length of every source file. *)
Definition enough_fuel (fuel : nat) (sdir : list (DirEntry * FileIO)) : Prop :=
  forall f io data faults,
    In (f, io) sdir -> io_open io = Ok (data, faults) ->
    (List.length data < fuel)%nat.

(** The log line is one of [log.Fatalf]. *)
Definition is_fatal_log (ev : Event) : bool :=
  match ev with
  | EvLog format _ => HasPrefix format "[fatal]"
  | _ => false
  end.


(** A compressor that has seen no error and is not closed yet, over a
    file that holds the header once it has been written and nothing
    else. *)
Definition gzip_open (G : GzipFormat) (d : WriteCloser) : Prop :=
  match d with
  | FileW _ => False
  | GzipW z =>
      gz_err z = None /\ gz_closed z = false /\
      f_data (gz_w z) = if gz_wroteHeader z then gz_header G else []
  end.

(** The log line reports a recoverable error. *)
Definition is_error_log (ev : Event) : bool :=
  match ev with
  | EvLog format _ => HasPrefix format "[error]"
  | _ => false
  end.

(** ** A run to compute with

    The window of the specification's example: it starts on 2024-01-01 at
    00:00:00 and lasts one hour.  The share of server [srv1] holds
    [app.tmp], modified at 00:30:00 and created on 2023-12-31 at
    23:00:00, and [app.log] with the same times. *)
Definition ex_start : Time := Date 2024 1 1 0 0 0 0.
Definition ex_hour : Duration := 3600000000000.
Definition ex_end : Time := window_end ex_start ex_hour.

Definition ex_globals (compress : bool) : Globals :=
  mkGlobals compress ex_start ex_end stored_format.

(** 2023-12-31 23:00:00 UTC as a [Filetime]: 133485372000000000 intervals
    of 100 ns since 1601. *)
Definition ex_created : Win32FileAttributeData :=
  mkWin32 (mkFiletime (133485372000000000 mod 2 ^ 32) (133485372000000000 / 2 ^ 32)).

Definition ex_info (name : string) : FileInfo :=
  mkFileInfo name (Date 2024 1 1 0 30 0 0) ex_created.

Definition ex_entry (name : string) : DirEntry :=
  mkDirEntry name false (Ok (ex_info name)).

(** A folder of the collection. *)
Definition ex_folder (name : string) : DirEntry :=
  mkDirEntry name true (Ok (mkFileInfo name ex_end ex_created)).

Definition ex_bytes : list byte := list_byte_of_string "0123456789".

(** Every call succeeds. *)
Definition ex_io : FileIO :=
  mkFileIO (Ok (ex_bytes, [])) (Ok []) (Date 2024 1 1 1 5 0 0) None.

Definition ex_snapshot : string := destination "D:/collect" "prod" ex_start ex_end.

(** The value of [share] once the loop of [main] has gone through the
    given keys, starting from [share]. *)
Definition share_after (keys : list Key) (share : string) : string :=
  fold_left (fun sh k => if String.eqb (k_Name k) "logshare"
                         then MustString k "SPSS_DIMENSIONS_LOGS" else sh)
            keys share.

Definition is_server_key (k : Key) : bool := negb (String.eqb (k_Name k) "logshare").

(** [p] holds of the [n] integers from [z] on. *)
Fixpoint all_from (n : nat) (z : Z) (p : Z -> bool) : bool :=
  match n with
  | O => true
  | S n' => p z && all_from n' (z + 1) p
  end.

(** What is to be checked of every day of an era: the date found for it
    is a date of the calendar, it is the date of that day, and its year is
    the last of the era exactly from the first of January on. *)
Definition era_day_ok (doe : Z) : bool :=
  let '(y, m, d) := civil_of_era_day doe in
  let yoe := if m <=? 2 then y - 1 else y in
  (0 <=? yoe) && (yoe <? 400)
  && (1 <=? m) && (m <=? 12) && (1 <=? d) && (d <=? daysIn m y)
  && (day_of_era yoe m d =? doe)
  && (if doe <=? 146036 then y <=? 399 else y =? 400).

(** The two-digit and four-digit fields of a stamp. *)
Definition two_digits (n : Z) : string :=
  String (digit_char (n / 10)) (String (digit_char (n mod 10)) EmptyString).

Definition four_digits (n : Z) : string :=
  String (digit_char (n / 1000)) (String (digit_char (n / 100 mod 10))
    (String (digit_char (n / 10 mod 10)) (String (digit_char (n mod 10)) EmptyString))).

(** The seconds of the first and of the last instant of the years 0000
    to 9999. *)
Definition min_stamp_sec : Z := -62167219200.
Definition max_stamp_sec : Z := 253402300799.

(** A time that the layout writes in sixteen bytes. *)
Definition stampable (t : Time) : Prop := min_stamp_sec <= t_sec t <= max_stamp_sec.

(** The byte occurs in the string. *)
Fixpoint has_char (c : ascii) (s : string) : bool :=
  match s with
  | EmptyString => false
  | String c' s' => Ascii.eqb c' c || has_char c s'
  end.

(** A time whose nanoseconds are within the second. *)
Definition normal (t : Time) : Prop := 0 <= t_nsec t < 1000000000.

(* ================================================================== *)
(** * The rest of [main] *)
(* ================================================================== *)

(** ** [time.ParseInLocation("2006-01-02 15:04:05", value, time.UTC)] *)

(** [cutspace]: the value without its leading spaces. *)
Fixpoint cutspace (s : string) : string :=
  match s with
  | String c s' => if Ascii.eqb c " "%char then cutspace s' else s
  | EmptyString => s
  end.

(** [skip(value, " ")]: a space of the layout stands for any number of
    spaces of the value, none included when the value is at its end. *)
Definition skip_space (value : string) : option string :=
  match value with
  | String c _ => if Ascii.eqb c " "%char then Some (cutspace value) else None
  | EmptyString => Some value
  end.

(** The layout of the [-start] flag: year, dash, month, dash, day, space,
    hour (one or two digits), colon, minute, colon, second; as with
    [Parse] a fraction of a second is accepted after the seconds, and
    nothing may follow.  [None] stands for any parse error. *)
Definition ParseStart (value : string) : option Time :=
  match getyear value with
  | None => None
  | Some (year, value) =>
  match skip_char value "-"%char with
  | None => None
  | Some value =>
  match getnum value true with
  | None => None
  | Some (month, value) =>
  if (month <=? 0) || (12 <? month) then None else
  match skip_char value "-"%char with
  | None => None
  | Some value =>
  match getnum value true with
  | None => None
  | Some (day, value) =>
  match skip_space value with
  | None => None
  | Some value =>
  match getnum value false with
  | None => None
  | Some (hour, value) =>
  if (hour <? 0) || (24 <=? hour) then None else
  match skip_char value ":"%char with
  | None => None
  | Some value =>
  match getnum value true with
  | None => None
  | Some (min, value) =>
  if (min <? 0) || (60 <=? min) then None else
  match skip_char value ":"%char with
  | None => None
  | Some value =>
  match getnum value true with
  | None => None
  | Some (sec, value) =>
  if (sec <? 0) || (60 <=? sec) then None else
  match parse_fraction value with
  | Some (nsec, EmptyString) =>
      if (day <? 1) || (daysIn month year <? day) then None
      else Some (Date year month day hour min sec nsec)
  | _ => None
  end end end end end end end end end end end end.

(** ** [main] up to the start of the scans *)

(** The flags of the command line, as [flag.Parse] leaves them in the
    package-level variables.  The [-version] flag is left out: what it
    calls ([ShowVersion]) is generated code that is not in the sources. *)
Record Flags : Set := mkFlags {
  fl_start : string;        (* start *)
  fl_dur : Duration;        (* dur *)
  fl_cluster : string;      (* cluster *)
  fl_compress : bool;       (* compress *)
  fl_clean : bool           (* clean *)
}.

(** What [main] has set up when it starts the scans: the window, and the
    scans it starts (lines 69-99). *)
Record Plan : Set := mkPlan {
  plan_start : Time;               (* startTime *)
  plan_end : Time;                 (* endTime *)
  plan_launches : list Launch
}.

(** The error of a start flag that does not parse. *)
Definition start_error (value : string) : error :=
  ErrOther ("parsing time " ++ value).

(** [main], lines 63-99: with [-clean] the pruning and [os.Exit(0)];
    otherwise the window, the snapshot folder and the scans to start.
    [wd] is the folder of the executable, [configured] the destination
    of the ini file, [keys] the keys of the section of the cluster,
    [now] the clock of line 70 and [readdir] the listing [cleanup] gets.
    The scans themselves run as goroutines, each a [CopyFiles]; [main]
    waits for all of them, which is not part of this function. *)
Definition main (IsAbs : string -> bool) (wd configured : string) (keys : list Key)
    (fl : Flags) (now : Time) (readdir : result (list (DirEntry * PruneIO)))
  : M Plan :=
  if fl_clean fl then
    log_Printf "starting clean-up of logs" [] ;;;
    cleanup (fl_dur fl) (destination_root IsAbs wd configured) (fl_cluster fl) readdir ;;;
    log_Printf "finished" [] ;;;
    ([], inl (Exit 0))
  else
    startTime <-
      (if (length (fl_start fl) =? 0)%nat
       then ret (Add now (mul64 (-1) (fl_dur fl)))
       else match ParseStart (fl_start fl) with
            | Some t => ret t
            | None =>
                log_Fatalf "[fatal] cannot parse start date: %v"
                  [AErr (start_error (fl_start fl))]
            end) ;;
    let endTime := Add startTime (fl_dur fl) in
    let dst := destination (destination_root IsAbs wd configured) (fl_cluster fl)
                 startTime endTime in
    ret (mkPlan startTime endTime (main_launches keys dst)).

(** ** More observations *)

(** A destination that keeps every chunk it is handed, to look at the
    calls of [Write] one by one. *)
Definition chunkLog : Type := list (list byte).

#[export] Instance chunkLog_Writer : Writer chunkLog :=
  {| Write := fun (l : chunkLog) p => (None, l ++ [p]) |}.

(** The number of 100 ns intervals a [Filetime] stands for. *)
Definition ticks (ft : Filetime) : Z := HighDateTime ft * 2 ^ 32 + LowDateTime ft.

(** The two halves of a [Filetime] are [uint32]. *)
Definition filetime_ok (ft : Filetime) : Prop :=
  0 <= LowDateTime ft < 2 ^ 32 /\ 0 <= HighDateTime ft < 2 ^ 32.

(** The instant a file was created, as the file system keeps it, in
    nanoseconds since the Unix epoch: the [Filetime] counts intervals of
    100 ns from 1601-01-01, which lies 116444736000000000 intervals
    before the epoch. *)
Definition created_at (finfo : FileInfo) : Z :=
  (ticks (CreationTime (Sys finfo)) - 116444736000000000) * 100.

(** The streams a transfer opens: the source when the entry is selected
    and [os.Open] works, and then the destination (with its compressor)
    when [os.Create] works. *)
Definition opened_streams (g : Globals) (f : DirEntry) (io : FileIO) : list StreamKind :=
  if IsDir f then []
  else match Info f with
       | Failed _ => []
       | Ok finfo =>
           if in_window g finfo then
             match io_open io with
             | Failed _ => []
             | Ok _ =>
                 TheSource ::
                 match io_create io with
                 | Failed _ => []
                 | Ok _ => if compress g then [TheCompressor; TheDestination]
                           else [TheDestination]
                 end
             end
           else []
       end.

(** A destination none of whose coming calls will fail. *)
Definition healthy (d : WriteCloser) : Prop :=
  f_faults (file_of d) = []
  /\ match d with GzipW z => gz_err z = None | FileW _ => True end.

Definition is_remove (ev : Event) : bool :=
  match ev with EvRemoveAll _ => true | _ => false end.

(** The date and time of the [-start] flag in its usual form,
    [yyyy-MM-dd HH:mm:ss]. *)
Definition start_text (y m d H M S : Z) : string :=
  four_digits y ++ "-" ++ two_digits m ++ "-" ++ two_digits d ++ " "
  ++ two_digits H ++ ":" ++ two_digits M ++ ":" ++ two_digits S.

(* ================================================================== *)
(** * Properties of the Go primitives *)
(* ================================================================== *)

Lemma After_UnixNano (t u : Time) :
  normal t -> normal u -> (After t u = true <-> UnixNano u < UnixNano t).
Proof.
  unfold normal, After, UnixNano. intros Ht Hu.
  rewrite orb_true_iff, andb_true_iff, !Z.ltb_lt, Z.eqb_eq. lia.
Qed.

Lemma Before_UnixNano (t u : Time) :
  normal t -> normal u -> (Before t u = true <-> UnixNano t < UnixNano u).
Proof.
  unfold normal, Before, UnixNano. intros Ht Hu.
  rewrite orb_true_iff, andb_true_iff, !Z.ltb_lt, Z.eqb_eq. lia.
Qed.

Lemma Before_After (t u : Time) : Before t u = After u t.
Proof.
  unfold Before, After. now rewrite (Z.eqb_sym (t_sec u)).
Qed.

Lemma wrap64_small (x : Z) : min_int64 <= x <= max_int64 -> wrap64 x = x.
Proof.
  unfold wrap64, min_int64, max_int64. intros Hx.
  rewrite Z.mod_small; lia.
Qed.

Lemma wrap64_range (x : Z) : min_int64 <= wrap64 x <= max_int64.
Proof.
  unfold wrap64, min_int64, max_int64.
  pose proof (Z.mod_pos_bound (x + 2 ^ 63) (2 ^ 64) ltac:(lia)). lia.
Qed.

Lemma Add_normal (t : Time) (d : Duration) : normal t -> normal (Add t d).
Proof.
  unfold normal, Add. intros Ht.
  pose proof (Z.rem_bound_abs d 1000000000 ltac:(lia)) as Hr.
  assert (-1000000000 < Z.rem d 1000000000 < 1000000000) by lia.
  destruct (1000000000 <=? _) eqn:E1; [apply Z.leb_le in E1; cbn; lia|].
  apply Z.leb_gt in E1.
  destruct (_ <? 0) eqn:E2; [apply Z.ltb_lt in E2|apply Z.ltb_ge in E2]; cbn; lia.
Qed.

Lemma Add_UnixNano (t : Time) (d : Duration) : UnixNano (Add t d) = UnixNano t + d.
Proof.
  unfold UnixNano, Add.
  pose proof (Z.quot_rem' d 1000000000) as Hd.
  destruct (1000000000 <=? _); [cbn; lia|].
  destruct (_ <? 0); cbn; lia.
Qed.

Lemma Unix_normal (sec nsec : Z) : normal (Unix sec nsec).
Proof.
  unfold normal, Unix.
  destruct ((nsec <? 0) || (1000000000 <=? nsec)) eqn:E.
  - pose proof (Z.quot_rem' nsec 1000000000) as Hq.
    pose proof (Z.rem_bound_abs nsec 1000000000 ltac:(lia)) as Hr.
    assert (Hn : nsec - Z.quot nsec 1000000000 * 1000000000 = Z.rem nsec 1000000000) by lia.
    rewrite Hn.
    destruct (Z.rem nsec 1000000000 <? 0) eqn:E2;
      [apply Z.ltb_lt in E2|apply Z.ltb_ge in E2]; cbn; lia.
  - apply orb_false_iff in E. destruct E as [E1 E2].
    apply Z.ltb_ge in E1. apply Z.leb_gt in E2. cbn. lia.
Qed.

Lemma Unix_UnixNano (sec nsec : Z) : UnixNano (Unix sec nsec) = sec * 1000000000 + nsec.
Proof.
  unfold UnixNano, Unix.
  destruct ((nsec <? 0) || (1000000000 <=? nsec)); [|reflexivity].
  cbv zeta. destruct (_ <? 0); cbn; lia.
Qed.

(** The creation time the scan compares is the creation instant of the
    file whenever that instant fits an [int64] of nanoseconds. *)
Lemma fCreate_UnixNano (finfo : FileInfo) :
  filetime_ok (CreationTime (Sys finfo)) ->
  min_int64 <= created_at finfo <= max_int64 ->
  UnixNano (fCreate finfo) = created_at finfo.
Proof.
  unfold filetime_ok, created_at, ticks, fCreate, min_int64, max_int64.
  intros [Hlow Hhigh] Hrange.
  rewrite Unix_UnixNano. unfold Nanoseconds, mul64, sub64, add64.
  rewrite Z.shiftl_mul_pow2 by lia.
  rewrite (wrap64_small (HighDateTime _ * 2 ^ 32))
    by (unfold min_int64, max_int64; lia).
  rewrite (wrap64_small (_ + LowDateTime _)) by (unfold min_int64, max_int64; lia).
  rewrite (wrap64_small (_ - 116444736000000000))
    by (unfold min_int64, max_int64; lia).
  rewrite wrap64_small by (unfold min_int64, max_int64; lia).
  lia.
Qed.

Lemma string_length_app (s t : string) :
  String.length (s ++ t) = (String.length s + String.length t)%nat.
Proof. induction s as [|c s IH]; cbn; [reflexivity | now rewrite IH]. Qed.

Lemma substring_whole (s : string) : substring 0 (String.length s) s = s.
Proof. induction s as [|c s IH]; cbn; [reflexivity | now rewrite IH]. Qed.

Lemma substring_skip_app (p s : string) (n : nat) :
  substring (String.length p) n (p ++ s) = substring 0 n s.
Proof. induction p as [|c p IH]; cbn; [reflexivity | exact IH]. Qed.

Lemma substring_split (s : string) (n : nat) :
  (n <= String.length s)%nat ->
  s = (substring 0 n s ++ substring n (String.length s - n) s)%string.
Proof.
  revert n. induction s as [|c s IH]; intros [|n] Hn; cbn in *; try lia.
  - reflexivity.
  - now rewrite substring_whole.
  - f_equal. apply IH. lia.
Qed.

(** [HasSuffix s suffix] holds exactly when [s] ends with [suffix]. *)
Lemma HasSuffix_spec (s suffix : string) :
  HasSuffix s suffix = true <-> exists p, s = (p ++ suffix)%string.
Proof.
  unfold HasSuffix. rewrite andb_true_iff, Nat.leb_le, String.eqb_eq. split.
  - intros [Hlen Hsub].
    exists (substring 0 (String.length s - String.length suffix) s).
    rewrite (substring_split s (String.length s - String.length suffix)) at 1 by lia.
    f_equal. rewrite <- Hsub at 3. f_equal. lia.
  - intros [p ->]. rewrite string_length_app. split; [lia|].
    replace (String.length p + String.length suffix - String.length suffix)%nat
      with (String.length p) by lia.
    rewrite substring_skip_app. apply substring_whole.
Qed.

(** [Split] cuts at every separator and nowhere else: gluing the pieces
    with the separator gives the string back. *)

Lemma Split_nonempty (s : string) (sep : ascii) : Split s sep <> [].
Proof.
  destruct s as [|c s]; cbn; [discriminate|].
  destruct (Ascii.eqb c sep); [discriminate|].
  destruct (Split s sep); discriminate.
Qed.

Lemma Join_Split (s : string) (sep : ascii) : Join (Split s sep) sep = s.
Proof.
  induction s as [|c s IH]; [reflexivity|].
  cbn [Split]. destruct (Ascii.eqb c sep) eqn:E.
  - apply Ascii.eqb_eq in E. subst c.
    pose proof (Split_nonempty s sep) as Hne.
    destruct (Split s sep) as [|p ps]; [contradiction|].
    cbn [Join]. cbn. now rewrite <- IH.
  - pose proof (Split_nonempty s sep) as Hne.
    destruct (Split s sep) as [|p ps]; [contradiction|].
    destruct ps as [|q ps]; cbn in *; now rewrite <- IH.
Qed.

(** A name with exactly two dash-separated parts is the first part, one
    dash, and the second part. *)
Lemma Split_two (s a b : string) :
  Split s "-"%char = [a; b] -> s = (a ++ "-" ++ b)%string.
Proof.
  intros H. rewrite <- (Join_Split s "-"%char), H. reflexivity.
Qed.

(* ================================================================== *)
(** * Stamps: what [Format] writes, [Parse] reads back *)
(* ================================================================== *)

Lemma all_from_spec (n : nat) (z : Z) (p : Z -> bool) :
  all_from n z p = true -> forall k, z <= k < z + Z.of_nat n -> p k = true.
Proof.
  revert z. induction n as [|n IH]; intros z Hall k Hk; [lia|].
  cbn [all_from] in Hall. apply andb_true_iff in Hall. destruct Hall as [Hz Hrest].
  destruct (Z.eq_dec k z) as [->|Hne]; [assumption|].
  apply (IH (z + 1) Hrest). lia.
Qed.

Lemma era_day_ok_all : all_from (Z.to_nat 146097) 0 era_day_ok = true.
Proof. vm_compute. reflexivity. Qed.

Lemma era_day_ok_holds (doe : Z) : 0 <= doe < 146097 -> era_day_ok doe = true.
Proof.
  intros Hdoe. apply (all_from_spec _ _ _ era_day_ok_all). rewrite Z2Nat.id; lia.
Qed.

Lemma isLeap_era (y era : Z) : isLeap (y + era * 400) = isLeap y.
Proof.
  unfold isLeap.
  replace (y + era * 400) with (y + (era * 100) * 4) at 1 by lia.
  replace (y + era * 400) with (y + (era * 4) * 100) at 1 by lia.
  now rewrite !Z_mod_plus_full.
Qed.

Lemma daysIn_era (m y era : Z) : daysIn m (y + era * 400) = daysIn m y.
Proof. unfold daysIn. now rewrite isLeap_era. Qed.

(** The date found for a day number is a date of the calendar and the
    date of that day; days of the years 0000 to 9999 get such a year. *)
Lemma civil_from_days_spec (z : Z) :
  let '(y, m, d) := civil_from_days z in
  1 <= m <= 12 /\ 1 <= d <= daysIn m y /\ days_from_civil y m d = z
  /\ (-719528 <= z <= 2932896 -> 0 <= y <= 9999).
Proof.
  unfold civil_from_days. cbv zeta.
  set (z' := z + 719468). set (era := z' / 146097). set (doe := z' - era * 146097).
  assert (Hdoe : 0 <= doe < 146097).
  { subst doe era. pose proof (Z.mod_pos_bound z' 146097 ltac:(lia)).
    pose proof (Z.div_mod z' 146097 ltac:(lia)). lia. }
  pose proof (era_day_ok_holds doe Hdoe) as Hok. unfold era_day_ok in Hok.
  destruct (civil_of_era_day doe) as [[y m] d].
  repeat (apply andb_true_iff in Hok; destruct Hok as [Hok ?]).
  repeat match goal with
         | H : (_ <=? _) = true |- _ => apply Z.leb_le in H
         | H : (_ <? _) = true |- _ => apply Z.ltb_lt in H
         | H : (_ =? _) = true |- _ => apply Z.eqb_eq in H
         end.
  rewrite daysIn_era. split; [lia|]. split; [lia|]. split.
  - unfold days_from_civil. cbv zeta.
    set (yoe := if m <=? 2 then y - 1 else y) in *.
    assert (Hy : (if m <=? 2 then y + era * 400 - 1 else y + era * 400) = yoe + era * 400).
    { subst yoe. destruct (m <=? 2); lia. }
    rewrite Hy. rewrite Z.div_add, Z.div_small by lia.
    replace (yoe + era * 400 - (0 + era) * 400) with yoe by lia.
    subst doe z'. lia.
  - intros Hz.
    assert (Hera : -1 <= era <= 24).
    { subst era z'. split.
      - apply Z.div_le_lower_bound; lia.
      - apply Z.lt_succ_r. apply Z.div_lt_upper_bound; lia. }
    destruct (doe <=? 146036) eqn:Hlate.
    + apply Z.leb_le in Hlate. apply Z.leb_le in H.
      assert (era <> -1) by (subst doe z'; lia).
      destruct (m <=? 2); lia.
    + apply Z.leb_gt in Hlate. apply Z.eqb_eq in H.
      assert (era <> 24) by (subst doe z'; lia). lia.
Qed.

Lemma digit_char_ok (a : Z) :
  0 <= a <= 9 ->
  isDigit (digit_char a) = true /\ digit_val (digit_char a) = a
  /\ Ascii.eqb (digit_char a) "-" = false.
Proof.
  intros Ha.
  assert (Hcases : a = 0 \/ a = 1 \/ a = 2 \/ a = 3 \/ a = 4 \/ a = 5 \/ a = 6
                   \/ a = 7 \/ a = 8 \/ a = 9) by lia.
  repeat (destruct Hcases as [->|Hcases]; [repeat split; reflexivity|]).
  subst a. repeat split; reflexivity.
Qed.

Lemma appendInt_two_all :
  all_from 100 0 (fun n => String.eqb (appendInt n 2) (two_digits n)) = true.
Proof. vm_compute. reflexivity. Qed.

Lemma appendInt_four_all :
  all_from (Z.to_nat 10000) 0 (fun n => String.eqb (appendInt n 4) (four_digits n)) = true.
Proof. vm_compute. reflexivity. Qed.

Lemma appendInt_two (n : Z) : 0 <= n < 100 -> appendInt n 2 = two_digits n.
Proof.
  intros Hn. apply String.eqb_eq.
  apply (all_from_spec _ _ _ appendInt_two_all n). cbn. lia.
Qed.

Lemma appendInt_four (n : Z) : 0 <= n <= 9999 -> appendInt n 4 = four_digits n.
Proof.
  intros Hn. apply String.eqb_eq.
  apply (all_from_spec _ _ _ appendInt_four_all n). rewrite Z2Nat.id; lia.
Qed.

Lemma getnum_two (n : Z) (rest : string) (fixed : bool) :
  0 <= n < 100 -> getnum (two_digits n ++ rest) fixed = Some (n, rest).
Proof.
  intros Hn. unfold two_digits. cbn [append getnum].
  destruct (digit_char_ok (n / 10)) as (Hd1 & Hv1 & _).
  { split; [apply Z.div_pos; lia | apply Z.lt_succ_r, Z.div_lt_upper_bound; lia]. }
  destruct (digit_char_ok (n mod 10)) as (Hd0 & Hv0 & _).
  { pose proof (Z.mod_pos_bound n 10 ltac:(lia)). lia. }
  rewrite Hd1, Hd0, Hv1, Hv0. cbn [negb]. do 2 f_equal.
  pose proof (Z.div_mod n 10 ltac:(lia)). lia.
Qed.

Lemma getyear_four (y : Z) (rest : string) :
  0 <= y <= 9999 -> getyear (four_digits y ++ rest) = Some (y, rest).
Proof.
  intros Hy. unfold four_digits. cbn [append getyear String.length].
  destruct (digit_char_ok (y / 1000)) as (Hd3 & Hv3 & _).
  { split; [apply Z.div_pos; lia | apply Z.lt_succ_r, Z.div_lt_upper_bound; lia]. }
  destruct (digit_char_ok (y / 100 mod 10)) as (Hd2 & Hv2 & _).
  { pose proof (Z.mod_pos_bound (y / 100) 10 ltac:(lia)). lia. }
  destruct (digit_char_ok (y / 10 mod 10)) as (Hd1 & Hv1 & _).
  { pose proof (Z.mod_pos_bound (y / 10) 10 ltac:(lia)). lia. }
  destruct (digit_char_ok (y mod 10)) as (Hd0 & Hv0 & _).
  { pose proof (Z.mod_pos_bound y 10 ltac:(lia)). lia. }
  rewrite Hd3. cbn [Nat.ltb Nat.leb negb orb substring atoi_digits digits_val Nat.sub].
  assert (Hnone : substring 0 0 rest = EmptyString) by (destruct rest; reflexivity).
  rewrite Hd3, Hd2, Hd1, Hd0, Hv3, Hv2, Hv1, Hv0, Hnone, Nat.sub_0_r, substring_whole.
  cbn [digits_val]. do 2 f_equal.
  pose proof (Z.div_mod y 10 ltac:(lia)).
  pose proof (Z.div_mod (y / 10) 10 ltac:(lia)).
  pose proof (Z.div_mod (y / 100) 10 ltac:(lia)).
  assert (y / 10 / 10 = y / 100) by (rewrite Z.div_div by lia; reflexivity).
  assert (y / 100 / 10 = y / 1000) by (rewrite Z.div_div by lia; reflexivity).
  assert (y / 1000 < 10) by (apply Z.div_lt_upper_bound; lia).
  lia.
Qed.

(** A well-formed stamp is read as the date and time it spells. *)
Lemma Parse_fields (y m d H M S : Z) :
  0 <= y <= 9999 -> 1 <= m <= 12 -> 1 <= d <= daysIn m y ->
  0 <= H < 24 -> 0 <= M < 60 -> 0 <= S < 60 ->
  Parse (four_digits y ++ two_digits m ++ two_digits d ++ "T"
         ++ two_digits H ++ two_digits M ++ two_digits S ++ "Z")
  = Some (Date y m d H M S 0).
Proof.
  intros Hy Hm Hd HH HM HS. unfold Parse.
  assert (Hd31 : d < 100) by (unfold daysIn in Hd; repeat destruct (_ : bool); lia).
  rewrite getyear_four by assumption.
  rewrite getnum_two by lia.
  replace ((m <=? 0) || (12 <? m)) with false by lia.
  rewrite getnum_two by lia. cbn [append skip_char Ascii.eqb Bool.eqb].
  rewrite getnum_two by lia.
  replace ((H <? 0) || (24 <=? H)) with false by lia.
  rewrite getnum_two by lia.
  replace ((M <? 0) || (60 <=? M)) with false by lia.
  rewrite getnum_two by lia.
  replace ((S <? 0) || (60 <=? S)) with false by lia.
  cbn [parse_fraction skip_char Ascii.eqb Bool.eqb].
  replace ((d <? 1) || (daysIn m y <? d)) with false by lia.
  reflexivity.
Qed.

(** The date and the time of day [Format] prints for a time of the years
    0000 to 9999, with their ranges. *)
Lemma Format_fields (t : Time) :
  stampable t ->
  exists y m d H M S,
    Format t = (four_digits y ++ two_digits m ++ two_digits d ++ "T"
                ++ two_digits H ++ two_digits M ++ two_digits S ++ "Z")%string
    /\ 0 <= y <= 9999 /\ 1 <= m <= 12 /\ 1 <= d <= daysIn m y
    /\ 0 <= H < 24 /\ 0 <= M < 60 /\ 0 <= S < 60
    /\ Date y m d H M S 0 = mkTime (t_sec t) 0.
Proof.
  unfold stampable, min_stamp_sec, max_stamp_sec. intros Ht. unfold Format. cbv zeta.
  pose proof (civil_from_days_spec (t_sec t / 86400)) as Hcivil.
  destruct (civil_from_days (t_sec t / 86400)) as [[y m] d].
  destruct Hcivil as (Hm & Hd & Hdays & Hy).
  assert (Hrange : -719528 <= t_sec t / 86400 <= 2932896).
  { split; [apply Z.div_le_lower_bound; lia
           | apply Z.lt_succ_r, Z.div_lt_upper_bound; lia]. }
  specialize (Hy Hrange).
  pose proof (Z.mod_pos_bound (t_sec t) 86400 ltac:(lia)) as Hrem.
  set (rem := t_sec t mod 86400) in *.
  assert (HH : 0 <= rem / 3600 < 24).
  { split; [apply Z.div_pos; lia | apply Z.div_lt_upper_bound; lia]. }
  pose proof (Z.mod_pos_bound rem 3600 ltac:(lia)) as Hrem'.
  assert (HM : 0 <= rem mod 3600 / 60 < 60).
  { split; [apply Z.div_pos; lia | apply Z.div_lt_upper_bound; lia]. }
  pose proof (Z.mod_pos_bound rem 60 ltac:(lia)) as HS.
  assert (Hd31 : d < 100) by (unfold daysIn in Hd; repeat destruct (_ : bool); lia).
  exists y, m, d, (rem / 3600), (rem mod 3600 / 60), (rem mod 60).
  rewrite appendInt_four, !appendInt_two by lia.
  repeat split; try lia.
  unfold Date. rewrite Hdays. f_equal.
  pose proof (Z.div_mod (t_sec t) 86400 ltac:(lia)).
  pose proof (Z.div_mod rem 3600 ltac:(lia)).
  pose proof (Z.div_mod (rem mod 3600) 60 ltac:(lia)).
  assert (rem mod 3600 mod 60 = rem mod 60).
  { replace 3600 with (60 * 60) by reflexivity.
    rewrite Z.rem_mul_r by lia.
    rewrite (Z.mul_comm 60 ((rem / 60) mod 60)), Z_mod_plus_full.
    apply Z.mod_mod. lia. }
  fold rem in H. lia.
Qed.

(** Round trip: what [Format] writes for a time of the years 0000 to
    9999, [Parse] reads back as that time, to the second. *)
Lemma Parse_Format (t : Time) :
  stampable t -> Parse (Format t) = Some (mkTime (t_sec t) 0).
Proof.
  intros Ht. destruct (Format_fields t Ht)
    as (y & m & d & H & M & S & -> & Hy & Hm & Hd & HH & HM & HS & <-).
  now apply Parse_fields.
Qed.

Lemma has_char_app (c : ascii) (a b : string) :
  has_char c (a ++ b) = has_char c a || has_char c b.
Proof.
  induction a as [|x a IH]; cbn; [reflexivity|]. now rewrite IH, orb_assoc.
Qed.

Lemma two_digits_no_dash (n : Z) : 0 <= n < 100 -> has_char "-" (two_digits n) = false.
Proof.
  intros Hn. unfold two_digits. cbn [has_char].
  destruct (digit_char_ok (n / 10)) as (_ & _ & ->).
  { split; [apply Z.div_pos; lia | apply Z.lt_succ_r, Z.div_lt_upper_bound; lia]. }
  destruct (digit_char_ok (n mod 10)) as (_ & _ & ->); [|reflexivity].
  pose proof (Z.mod_pos_bound n 10 ltac:(lia)). lia.
Qed.

Lemma four_digits_no_dash (y : Z) : 0 <= y <= 9999 -> has_char "-" (four_digits y) = false.
Proof.
  intros Hy. unfold four_digits. cbn [has_char].
  destruct (digit_char_ok (y / 1000)) as (_ & _ & ->).
  { split; [apply Z.div_pos; lia | apply Z.lt_succ_r, Z.div_lt_upper_bound; lia]. }
  destruct (digit_char_ok (y / 100 mod 10)) as (_ & _ & ->).
  { pose proof (Z.mod_pos_bound (y / 100) 10 ltac:(lia)). lia. }
  destruct (digit_char_ok (y / 10 mod 10)) as (_ & _ & ->).
  { pose proof (Z.mod_pos_bound (y / 10) 10 ltac:(lia)). lia. }
  destruct (digit_char_ok (y mod 10)) as (_ & _ & ->); [|reflexivity].
  pose proof (Z.mod_pos_bound y 10 ltac:(lia)). lia.
Qed.

(** A stamp of the years 0000 to 9999 has sixteen bytes and no dash. *)
Lemma Format_shape (t : Time) :
  stampable t -> String.length (Format t) = 16%nat /\ has_char "-" (Format t) = false.
Proof.
  intros Ht. destruct (Format_fields t Ht)
    as (y & m & d & H & M & S & -> & Hy & Hm & Hd & HH & HM & HS & _).
  assert (Hd31 : d < 100) by (unfold daysIn in Hd; repeat destruct (_ : bool); lia).
  split; [reflexivity|].
  rewrite !has_char_app, four_digits_no_dash, !two_digits_no_dash by lia.
  reflexivity.
Qed.

Lemma Split_no_sep (s : string) (sep : ascii) :
  has_char sep s = false -> Split s sep = [s].
Proof.
  induction s as [|c s IH]; [reflexivity|]. cbn [has_char Split].
  intros Hno. apply orb_false_iff in Hno. destruct Hno as [-> Hno].
  now rewrite (IH Hno).
Qed.

Lemma Split_at_sep (a b : string) (sep : ascii) :
  has_char sep a = false ->
  Split (a ++ String sep b) sep = a :: Split b sep.
Proof.
  induction a as [|c a IH]; cbn [append has_char Split].
  - intros _. now rewrite Ascii.eqb_refl.
  - intros Hno. apply orb_false_iff in Hno. destruct Hno as [-> Hno].
    now rewrite (IH Hno).
Qed.

(* ================================================================== *)
(** * The copy loop *)
(* ================================================================== *)

Lemma error_eqb_eq (a b : error) : error_eqb a b = true <-> a = b.
Proof.
  destruct a, b; cbn; try (split; [discriminate|congruence]); try tauto.
  - rewrite andb_true_iff, !String.eqb_eq. split.
    + intros [-> ->]. reflexivity.
    + intros [= -> ->]. auto.
  - rewrite String.eqb_eq. split; congruence.
Qed.

Lemma read_failed_false (err : option error) :
  read_failed err = false <-> err = None \/ err = Some EOF.
Proof.
  destruct err as [e|]; cbn; [|tauto].
  rewrite negb_false_iff, error_eqb_eq.
  split; [intros ->; now right | intros [H|H]; congruence].
Qed.

Lemma read_failed_true (err : option error) :
  read_failed err = true <-> exists e, err = Some e /\ e <> EOF.
Proof.
  destruct err as [e|]; cbn.
  - rewrite negb_true_iff. split.
    + intros H. exists e. split; [reflexivity|].
      intros ->. cbn in H. discriminate.
    + intros (e' & [= <-] & Hne). destruct (error_eqb e EOF) eqn:E; [|reflexivity].
      apply error_eqb_eq in E. contradiction.
  - split; [discriminate | intros (e & H & _); discriminate].
Qed.

Lemma length_eqb_0 {A : Type} (l : list A) : (List.length l =? 0)%nat = true <-> l = [].
Proof. destruct l; cbn; split; congruence. Qed.

Section CopyLoop.
Context {R W : Type} `{HR : Reader R} `{HW : Writer W}.

(** One round of the loop, read off the program text. *)
Lemma copyFile_round (fuel : nat) (source : R) (dest : W) :
  copyFile (S fuel) source dest =
  let '(chunk, err, source') := Read source 1024 in
  if read_failed err then Some (err, source', dest)
  else if (List.length chunk =? 0)%nat then Some (None, source', dest)
  else match Write dest chunk with
       | (Some e, dest') => Some (Some e, source', dest')
       | (None, dest') => copyFile fuel source' dest'
       end.
Proof. reflexivity. Qed.

(** More fuel does not change a result. *)
Lemma copyFile_fuel_mono (fuel fuel' : nat) (source : R) (dest : W) r :
  (fuel <= fuel')%nat ->
  copyFile fuel source dest = Some r -> copyFile fuel' source dest = Some r.
Proof.
  revert fuel' source dest. induction fuel as [|fuel IH]; intros fuel' s d Hle Hrun.
  - discriminate.
  - destruct fuel' as [|fuel']; [lia|].
    rewrite copyFile_round in *.
    destruct (Read s 1024) as [[chunk err] s'].
    destruct (read_failed err); [assumption|].
    destruct (List.length chunk =? 0)%nat; [assumption|].
    destruct (Write d chunk) as [[e|] d']; [assumption|].
    apply IH; [lia | assumption].
Qed.

(** Every run of the program is a run of the specified copier, with
    the surfaced error stripped of the name of the operation. *)
Lemma copyFile_sound (fuel : nat) (source : R) (dest : W) err source' dest' :
  copyFile fuel source dest = Some (err, source', dest') ->
  exists o, Copies source dest o source' dest' /\ err = surfaced o.
Proof.
  revert source dest. induction fuel as [|fuel IH]; intros s d Hrun; [discriminate|].
  rewrite copyFile_round in Hrun.
  destruct (Read s 1024) as [[chunk rerr] s1] eqn:HRd.
  destruct (read_failed rerr) eqn:Hf.
  - injection Hrun as <- <- <-.
    apply read_failed_true in Hf. destruct Hf as (e & -> & Hne).
    exists (Some (ReadFailed e)). split; [|reflexivity].
    eapply Copies_read_failed; eassumption.
  - apply read_failed_false in Hf.
    destruct (List.length chunk =? 0)%nat eqn:Hlen.
    + injection Hrun as <- <- <-. apply length_eqb_0 in Hlen. subst chunk.
      exists None. split; [|reflexivity]. eapply Copies_end; eassumption.
    + assert (Hne : chunk <> []).
      { intros ->. cbn in Hlen. discriminate. }
      destruct (Write d chunk) as [[e|] d1] eqn:HWr.
      * injection Hrun as <- <- <-.
        exists (Some (WriteFailed e)). split; [|reflexivity].
        eapply Copies_write_failed; eassumption.
      * destruct (IH _ _ Hrun) as (o & Hc & Ho).
        exists o. split; [|assumption].
        eapply Copies_step; eassumption.
Qed.

(** Every run of the specified copier is produced by the program. *)
Lemma copyFile_complete (source : R) (dest : W) o source' dest' :
  Copies source dest o source' dest' ->
  exists fuel, copyFile fuel source dest = Some (surfaced o, source', dest').
Proof.
  induction 1 as [s d chunk e s' HRd Hne
                 | s d err s' HRd Herr
                 | s d chunk err s' e d' HRd Herr Hne HWr
                 | s d chunk err s' d' o s'' d'' HRd Herr Hne HWr _ IH].
  - exists 1%nat. rewrite copyFile_round, HRd.
    assert (Hf : read_failed (Some e) = true)
      by (apply read_failed_true; eauto).
    now rewrite Hf.
  - exists 1%nat. rewrite copyFile_round, HRd.
    apply read_failed_false in Herr. now rewrite Herr.
  - exists 1%nat. rewrite copyFile_round, HRd.
    apply read_failed_false in Herr. rewrite Herr.
    destruct chunk; [contradiction|]. cbn [List.length Nat.eqb]. now rewrite HWr.
  - destruct IH as [fuel IH]. exists (S fuel). rewrite copyFile_round, HRd.
    apply read_failed_false in Herr. rewrite Herr.
    destruct chunk; [contradiction|]. cbn [List.length Nat.eqb]. now rewrite HWr.
Qed.

(** A property of the destination that successful writes keep holds
    after a copy that ended without error. *)
Lemma copyFile_invariant (P : W -> Prop) :
  (forall d p d', P d -> Write d p = (None, d') -> P d') ->
  forall fuel source dest source' dest',
    P dest -> copyFile fuel source dest = Some (None, source', dest') -> P dest'.
Proof.
  intros Hstep fuel. induction fuel as [|fuel IH]; intros s d s' d' HP Hrun;
    [discriminate|].
  rewrite copyFile_round in Hrun.
  destruct (Read s 1024) as [[chunk rerr] s1].
  destruct (read_failed rerr) eqn:Hf.
  - injection Hrun as -> <- <-. discriminate.
  - destruct (List.length chunk =? 0)%nat.
    + injection Hrun as <- <-. assumption.
    + destruct (Write d chunk) as [[e|] d1] eqn:HWr; [discriminate|].
      eapply IH; [|eassumption]. eapply Hstep; eassumption.
Qed.

(** A property of the destination that every write keeps holds after
    any copy. *)
Lemma copyFile_preserves (P : W -> Prop) :
  (forall d p e d', P d -> Write d p = (e, d') -> P d') ->
  forall fuel source dest err source' dest',
    P dest -> copyFile fuel source dest = Some (err, source', dest') -> P dest'.
Proof.
  intros Hstep fuel. induction fuel as [|fuel IH]; intros s d err s' d' HP Hrun;
    [discriminate|].
  rewrite copyFile_round in Hrun.
  destruct (Read s 1024) as [[chunk rerr] s1].
  destruct (read_failed rerr).
  - injection Hrun as <- <- <-. assumption.
  - destruct (List.length chunk =? 0)%nat.
    + injection Hrun as <- <- <-. assumption.
    + destruct (Write d chunk) as [[e|] d1] eqn:HWr.
      * injection Hrun as <- <- <-. eapply Hstep; eassumption.
      * eapply IH; [|eassumption]. eapply Hstep; eassumption.
Qed.

(** The bytes of a stream and what a destination has taken in, for
    streams that can be looked at this way. *)
Variable rest : R -> list byte.
Variable got : W -> list byte.

(** A read that does not fail hands out the next bytes of the stream,
    and none only when the stream is at its end. *)
Hypothesis Read_rest : forall s chunk err s',
  Read s 1024 = (chunk, err, s') -> read_failed err = false ->
  rest s = chunk ++ rest s' /\ (chunk = [] -> rest s = []).

(** A write that does not fail appends what it was given. *)
Hypothesis Write_got : forall d p d',
  Write d p = (None, d') -> got d' = got d ++ p.

Lemma copyFile_copies_all (fuel : nat) (source : R) (dest : W) source' dest' :
  copyFile fuel source dest = Some (None, source', dest') ->
  got dest' = got dest ++ rest source.
Proof.
  revert source dest. induction fuel as [|fuel IH]; intros s d Hrun; [discriminate|].
  rewrite copyFile_round in Hrun.
  destruct (Read s 1024) as [[chunk rerr] s1] eqn:HRd.
  destruct (read_failed rerr) eqn:Hf.
  - injection Hrun as -> <- <-. discriminate.
  - destruct (Read_rest _ _ _ _ HRd Hf) as [Hrest Hend].
    destruct (List.length chunk =? 0)%nat eqn:Hlen.
    + injection Hrun as <- <-. apply length_eqb_0 in Hlen.
      rewrite (Hend Hlen). now rewrite app_nil_r.
    + destruct (Write d chunk) as [[e|] d1] eqn:HWr; [discriminate|].
      rewrite (IH _ _ Hrun), (Write_got _ _ _ HWr), Hrest.
      now rewrite app_assoc.
Qed.
End CopyLoop.

(** ** Files as sources and destinations *)

Lemma skipn_length_firstn {A : Type} (n : nat) (l : list A) :
  skipn (List.length (firstn n l)) l = skipn n l.
Proof.
  revert l. induction n as [|n IH]; intros [|a l]; cbn; try reflexivity. apply IH.
Qed.

Lemma unread_advance (f : osFile) (k : nat) faults :
  unread (mkFile (f_data f) (f_pos f + k) faults) = skipn k (unread f).
Proof. unfold unread. cbn. now rewrite Nat.add_comm, skipn_skipn. Qed.

Lemma unread_faults (f : osFile) faults :
  unread (mkFile (f_data f) (f_pos f) faults) = unread f.
Proof. reflexivity. Qed.

Lemma firstn_S_nil {A : Type} (n : nat) (l : list A) : firstn (S n) l = [] -> l = [].
Proof. destruct l; cbn; [reflexivity | discriminate]. Qed.

(** What a read of a file that does not fail returns. *)
Lemma file_Read_unread (f : osFile) (n : nat) chunk err f' :
  file_Read f (S n) = (chunk, err, f') -> read_failed err = false ->
  unread f = chunk ++ unread f' /\ (chunk = [] -> unread f = [])
  /\ List.length (unread f') = (List.length (unread f) - List.length chunk)%nat.
Proof.
  unfold file_Read. intros Hrd Hok. revert Hrd.
  assert (Hgo : forall faults,
             match firstn (S n) (unread f) with
             | [] => ([], Some EOF, mkFile (f_data f) (f_pos f) faults)
             | chunk => (chunk, None,
                         mkFile (f_data f) (f_pos f + List.length chunk) faults)
             end = (chunk, err, f') ->
             unread f = chunk ++ unread f' /\ (chunk = [] -> unread f = [])
             /\ List.length (unread f') = (List.length (unread f) - List.length chunk)%nat).
  { intros faults Hm.
    destruct (firstn (S n) (unread f)) as [|b chunk'] eqn:Hch.
    - injection Hm as <- <- <-. rewrite unread_faults.
      rewrite (firstn_S_nil _ _ Hch). cbn. auto.
    - injection Hm as <- <- <-. rewrite unread_advance.
      change (S (List.length chunk')) with (List.length (b :: chunk')).
      rewrite <- Hch, skipn_length_firstn, firstn_skipn.
      split; [reflexivity|]. split; [rewrite Hch; discriminate|].
      rewrite length_skipn, length_firstn. lia. }
  destruct (f_faults f) as [|[msg|] faults]; intros Hrd.
  - eapply Hgo; eassumption.
  - injection Hrd as <- <- <-. cbn in Hok. discriminate.
  - eapply Hgo; eassumption.
Qed.

(** A copy out of a file ends: one round more than the file has unread
    bytes is enough, whatever the destination does. *)
Lemma copyFile_file_ends {W : Type} `{Writer W} (fuel : nat) (s : osFile) (d : W) :
  (List.length (unread s) < fuel)%nat -> exists r, copyFile fuel s d = Some r.
Proof.
  revert s d. induction fuel as [|fuel IH]; intros s d Hfuel; [lia|].
  rewrite copyFile_round.
  destruct (Read s 1024) as [[chunk rerr] s1] eqn:HRd.
  destruct (read_failed rerr) eqn:Hf; [eauto|].
  destruct (List.length chunk =? 0)%nat eqn:Hlen; [eauto|].
  destruct (Write d chunk) as [[e|] d1]; [eauto|].
  apply IH.
  destruct (file_Read_unread s 1023 chunk rerr s1 HRd Hf) as (Hsplit & _ & _).
  apply (f_equal (@List.length byte)) in Hsplit. rewrite length_app in Hsplit.
  apply Nat.eqb_neq in Hlen. lia.
Qed.

Lemma wc_Write_received (G : GzipFormat) (d : WriteCloser) (p : list byte) d' :
  wc_Write G d p = (None, d') -> received d' = received d ++ p.
Proof.
  destruct d as [f|z]; cbn.
  - unfold file_Write. destruct (f_faults f) as [|[msg|] faults];
      intros [= <-]; reflexivity.
  - unfold gzip_Write. destruct (gz_err z); [discriminate|].
    destruct (gz_wroteHeader z).
    + intros [= <-]. reflexivity.
    + destruct (Write (gz_w z) (gz_header G)) as [[e|] w]; intros [= <-]. reflexivity.
Qed.

Lemma gzip_open_Write (G : GzipFormat) (d : WriteCloser) (p : list byte) d' :
  gzip_open G d -> wc_Write G d p = (None, d') -> gzip_open G d'.
Proof.
  destruct d as [f|z]; cbn; [tauto|]. intros (Herr & Hcl & Hdata).
  unfold gzip_Write. rewrite Herr.
  destruct (gz_wroteHeader z) eqn:Hh.
  - intros [= <-]. cbn. auto.
  - cbn. unfold file_Write. rewrite Hdata.
    destruct (f_faults (gz_w z)) as [|[msg|] faults]; intros [= <-]; cbn; auto.
Qed.

(** Closing such a compressor without error leaves the complete gzip
    stream of its input in the file. *)
Lemma gzip_open_Close (G : GzipFormat) (d d' : WriteCloser) :
  gzip_open G d -> wc_Close G d = (None, d') ->
  f_data (file_of d') = compressed G (received d).
Proof.
  destruct d as [f|z]; cbn; [tauto|]. intros (Herr & Hcl & Hdata).
  unfold gzip_Close. rewrite Herr, Hcl.
  destruct (gz_wroteHeader z) eqn:Hh.
  - cbn. rewrite Herr. unfold file_Write at 1.
    destruct (f_faults (gz_w z)) as [|[msg|] faults]; cbn;
      try (intros [= <-]; discriminate);
      unfold file_Write; cbn;
      try (destruct faults as [|[msg'|] faults']; cbn; intros [= <-]; cbn;
           rewrite Hdata; unfold compressed; now rewrite <- app_assoc).
    intros [= <-]. cbn. rewrite Hdata. unfold compressed. now rewrite <- app_assoc.
  - unfold gzip_Write. rewrite Herr, Hh. cbn. unfold file_Write at 1. rewrite Hdata.
    destruct (f_faults (gz_w z)) as [|[msg|] faults]; cbn.
    + unfold file_Write; cbn. intros [= <-]. cbn. unfold compressed.
      now rewrite app_nil_r, <- app_assoc.
    + intros [= <-].
    + unfold file_Write; cbn.
      destruct faults as [|[msg1|] faults1]; cbn; try (intros [= <-]; fail).
      * unfold file_Write; cbn. intros [= <-]. cbn. unfold compressed.
        now rewrite app_nil_r, <- app_assoc.
      * destruct faults1 as [|[msg2|] faults2]; cbn; intros [= <-]; cbn;
          unfold compressed; now rewrite app_nil_r, <- app_assoc.
Qed.

(** ** The Stream Copier *)

(** C2 (as amended).  [copyFile] is the specified copier: it reads with a
    buffer of 1024 bytes and writes every chunk as it is until a read
    returns no byte without an error other than end-of-stream, then
    returns nil; a read error other than end-of-stream or a write error
    ends the copy, and what is returned is that very error of the read or
    the write, with nothing added that names the operation. *)
Theorem copyFile_is_the_copier {R W : Type} `{Reader R} `{Writer W}
    (source : R) (dest : W) (err : option error) (source' : R) (dest' : W) :
  (exists fuel, copyFile fuel source dest = Some (err, source', dest')) <->
  (exists o, Copies source dest o source' dest' /\ err = surfaced o).
Proof.
  split.
  - intros [fuel Hrun]. eapply copyFile_sound; eassumption.
  - intros (o & Hc & ->). apply copyFile_complete; assumption.
Qed.

(** C2, counterexample.  Nothing in the returned error tells a failed
    read from a failed write: copying out of a closed pipe into a file,
    and copying out of a file into a closed pipe, both return
    [io.ErrClosedPipe]; no reading of the returned error gives back the
    [ReadFailed] of the first and the [WriteFailed] of the second. *)
Lemma copyFile_error_names_no_operation :
  let file := mkFile [Byte.x41] 0 [] in
  copyFile 1 ClosedPipe file = Some (Some ErrClosedPipe, ClosedPipe, file)
  /\ Copies ClosedPipe file (Some (ReadFailed ErrClosedPipe)) ClosedPipe file
  /\ copyFile 1 file ClosedPipe = Some (Some ErrClosedPipe, mkFile [Byte.x41] 1 [], ClosedPipe)
  /\ Copies file ClosedPipe (Some (WriteFailed ErrClosedPipe))
       (mkFile [Byte.x41] 1 []) ClosedPipe
  /\ ~ exists recover : option error -> option CopyFailed,
         recover (Some ErrClosedPipe) = Some (ReadFailed ErrClosedPipe)
         /\ recover (Some ErrClosedPipe) = Some (WriteFailed ErrClosedPipe).
Proof.
  cbv zeta. split; [reflexivity|]. split.
  { eapply Copies_read_failed; [reflexivity | discriminate]. }
  split; [reflexivity|]. split.
  { eapply Copies_write_failed with (chunk := [Byte.x41]) (err := None);
      [reflexivity | now left | discriminate | reflexivity]. }
  intros (recover & H1 & H2). rewrite H1 in H2. discriminate.
Qed.

(** The errors of an [*os.File] do name the operation: that is the doing
    of package os, which [copyFile] hands on. *)
Lemma file_errors_name_operation (f : osFile) :
  (forall len chunk e f', file_Read f len = (chunk, Some e, f') ->
                          e = EOF \/ exists msg, e = ErrOp "read" msg)
  /\ (forall p e f', file_Write f p = (Some e, f') -> exists msg, e = ErrOp "write" msg).
Proof.
  split.
  - intros len chunk e f'. unfold file_Read.
    destruct (f_faults f) as [|[msg|] faults].
    + destruct len; [discriminate|].
      destruct (firstn (S len) (unread f)); intros [= <- <- <-]; auto.
    + intros [= <- <- <-]. eauto.
    + destruct len; [discriminate|].
      destruct (firstn (S len) (unread f)); intros [= <- <- <-]; auto.
  - intros p e f'. unfold file_Write.
    destruct (f_faults f) as [|[msg|] faults]; try discriminate.
    intros [= <- <-]. eauto.
Qed.

(** ** Copy and compression keep the bytes *)

(** C3.  When [copyFile] ends without error, the destination has taken
    in what it held before followed by exactly the unread bytes of the
    source file.  Hence, for a sound gzip format and a compressor over a
    newly created file, the gzip stream of what the compressor took in
    decompresses to the source's bytes, and that stream is what the file
    holds once the compressor has been closed without error. *)
Theorem copy_keeps_bytes (G : GzipFormat) (fuel : nat) (s : osFile) (d : WriteCloser)
    (s' : osFile) (d' : WriteCloser) :
  copyFile (H0 := WriteCloser_Writer G) fuel s d = Some (None, s', d') ->
  received d' = received d ++ unread s
  /\ (gzip_sound G ->
      forall faults, d = GzipW (NewWriter (mkFile [] 0 faults)) ->
        gunzip G (compressed G (received d')) = Some (unread s)
        /\ forall d'', wc_Close G d' = (None, d'') ->
             f_data (file_of d'') = compressed G (received d')
             /\ gunzip G (f_data (file_of d'')) = Some (unread s)).
Proof.
  intros Hrun.
  assert (Hall : received d' = received d ++ unread s).
  { apply (copyFile_copies_all (HW := WriteCloser_Writer G) unread received)
      with (fuel := fuel) (source' := s'); [| |assumption].
    - intros f chunk err f' HRd Hok.
      destruct (file_Read_unread f 1023 chunk err f' HRd Hok) as (H1 & H2 & _). auto.
    - intros w p w' HWr. now apply (wc_Write_received G). }
  split; [assumption|].
  intros Hsound faults ->. cbn [received NewWriter gz_input app] in Hall.
  split; [rewrite Hall; apply Hsound|].
  intros d'' Hclose.
  assert (Hopen : gzip_open G d').
  { apply (copyFile_invariant (HW := WriteCloser_Writer G) (gzip_open G))
      with (fuel := fuel) (source := s) (dest := GzipW (NewWriter (mkFile [] 0 faults)))
           (source' := s'); [| |assumption].
    - intros w p w'. apply gzip_open_Write.
    - cbn. auto. }
  rewrite (gzip_open_Close G d' d'' Hopen Hclose).
  split; [reflexivity|]. rewrite Hall. apply Hsound.
Qed.

Lemma stored_format_sound : gzip_sound stored_format.
Proof. intros x. cbn. now rewrite app_nil_r. Qed.

Lemma copy_keeps_bytes_witness :
  let data := [Byte.x6c; Byte.x6f; Byte.x67] in
  exists s' d',
    copyFile (H0 := WriteCloser_Writer stored_format) 4
      (mkFile data 0 []) (GzipW (NewWriter (mkFile [] 0 []))) = Some (None, s', d')
    /\ received d' = data
    /\ gunzip stored_format (f_data (file_of (snd (wc_Close stored_format d')))) = Some data.
Proof.
  intros data. eexists. eexists. split; [reflexivity|].
  pose proof (copy_keeps_bytes stored_format 4 (mkFile data 0 [])
                (GzipW (NewWriter (mkFile [] 0 []))) _ _ eq_refl) as [Hall Hgz].
  split; [exact Hall|].
  destruct (Hgz stored_format_sound [] eq_refl) as [_ Hfile].
  exact (proj2 (Hfile _ eq_refl)).
Defined.

(** C3, counterexample.  A disk that takes the gzip header and then is
    full: [copyFile] returns nil, since the compressor holds the bytes
    until it is closed; the flush of [Close] fails, the program does not
    look at the result of [Close], and the file it leaves holds the
    header alone.  The copy completed without error, nothing is logged,
    and the compressed output does not decompress to the source. *)
Lemma compressed_output_can_be_cut_short :
  let io := mkFileIO (Ok (ex_bytes, [])) (Ok [None; Some "disk full"])
              (Date 2024 1 1 1 5 0 0) None in
  let run := CopyFiles_entry 2 (ex_globals true) "srv1" "//host1/logs" ex_snapshot
               (ex_entry "app.tmp") io in
  (exists s' d',
      copyFile (H0 := WriteCloser_Writer stored_format) 2 (mkFile ex_bytes 0 [])
        (new_dest true (mkFile [] 0 [None; Some "disk full"])) = Some (None, s', d')
      /\ received d' = ex_bytes
      /\ f_data (file_of (snd (wc_Close stored_format d'))) = [Byte.x1f; Byte.x8b])
  /\ In (EvClose (DestFile (join (join ex_snapshot "srv1") "app.tmp.gz")
                    [Byte.x1f; Byte.x8b])) (events run)
  /\ existsb is_error_log (events run) = false
  /\ snd run = inr tt
  /\ gunzip stored_format [Byte.x1f; Byte.x8b] <> Some ex_bytes.
Proof.
  cbv zeta. split; [|split; [|split; [|split]]].
  - eexists. eexists. split; [vm_compute; reflexivity|]. split; vm_compute; reflexivity.
  - vm_compute. auto 10.
  - vm_compute. reflexivity.
  - vm_compute. reflexivity.
  - vm_compute. discriminate.
Qed.

(* ================================================================== *)
(** * The scan of one server *)
(* ================================================================== *)

Lemma bind_emit {A : Type} (ev : Event) (k : M A) :
  (emit ev ;;; k) = (ev :: fst k, snd k).
Proof. unfold bind, emit. destruct k as [evs r]. reflexivity. Qed.

Lemma bind_log {A : Type} (format : string) (args : list Arg) (k : M A) :
  (log_Printf format args ;;; k) = (EvLog format args :: fst k, snd k).
Proof. apply bind_emit. Qed.

Lemma bind_returned {A B : Type} (evs : list Event) (a : A) (k : A -> M B) :
  bind (evs, inr a) k = (evs ++ fst (k a), snd (k a)).
Proof. unfold bind. destruct (k a). reflexivity. Qed.

Lemma wc_Write_kind (G : GzipFormat) (d : WriteCloser) p e d' :
  wc_Write G d p = (e, d') -> is_gzip d' = is_gzip d.
Proof.
  destruct d as [fd|z]; cbn.
  - destruct (file_Write fd p). now intros [= <- <-].
  - destruct (gzip_Write G z p). now intros [= <- <-].
Qed.

Lemma copyFile_kind (G : GzipFormat) (fuel : nat) (s : osFile) (d : WriteCloser)
    err s' d' :
  copyFile (H0 := WriteCloser_Writer G) fuel s d = Some (err, s', d') ->
  is_gzip d' = is_gzip d.
Proof.
  intros Hrun.
  refine (copyFile_preserves (HW := WriteCloser_Writer G)
            (fun w => is_gzip w = is_gzip d) _ fuel s d err s' d' eq_refl Hrun).
  intros w p e w' Hw HWr. rewrite <- Hw. exact (wc_Write_kind G w p e w' HWr).
Qed.

Section Entry.
Variables (fuel : nat) (g : Globals) (server src dst : string).
Variables (f : DirEntry) (io : FileIO).

Let spath := join src (Name f).
Let run := CopyFiles_entry fuel g server src dst f io.

Lemma entry_directory : IsDir f = true -> run = ([], inr tt).
Proof. unfold run, CopyFiles_entry. now intros ->. Qed.

Lemma entry_no_info err :
  IsDir f = false -> Info f = Failed err ->
  run = ([EvLog "[error][%s] cannot read file info for %q: %v"
                [AStr server; AStr (Name f); AErr err]], inr tt).
Proof. unfold run, CopyFiles_entry. now intros -> ->. Qed.

Variable finfo : FileInfo.
Hypothesis Hfile : IsDir f = false.
Hypothesis Hinfo : Info f = Ok finfo.

Let dpath := join (join dst server) (targetName g finfo).

Lemma entry_outside : in_window g finfo = false -> run = ([], inr tt).
Proof. unfold run, CopyFiles_entry. rewrite Hfile, Hinfo. now intros ->. Qed.

Hypothesis Hwin : in_window g finfo = true.

Lemma entry_open_failed err :
  io_open io = Failed err ->
  run = ([EvOpen spath;
          EvLog "[error][%s] cannot open source file %q: %v"
                [AStr server; AStr (Name f); AErr err]], inr tt).
Proof.
  unfold run, CopyFiles_entry. rewrite Hfile, Hinfo, Hwin. now intros ->.
Qed.

Variables (data : list byte) (faults : list (option string)).
Hypothesis Hopen : io_open io = Ok (data, faults).

Lemma entry_create_failed err :
  io_create io = Failed err ->
  run = ([EvOpen spath; EvCreate dpath;
          EvLog "[error][%s] cannot open destination file %q: %v"
                [AStr server; AStr (targetName g finfo); AErr err];
          EvClose (SourceFile spath)], inr tt).
Proof.
  unfold run, CopyFiles_entry, transfer.
  rewrite Hfile, Hinfo, Hwin, Hopen. now intros ->.
Qed.

Variable faults' : list (option string).
Hypothesis Hcreate : io_create io = Ok faults'.

Let copy :=
  copyFile (H0 := WriteCloser_Writer (gzip g)) fuel (mkFile data 0 faults)
    (new_dest (compress g) (mkFile [] 0 faults')).

Lemma entry_hangs :
  copy = None -> run = ([EvOpen spath; EvCreate dpath], inl Hang).
Proof.
  unfold copy, run, CopyFiles_entry, transfer.
  rewrite Hfile, Hinfo, Hwin, Hopen, Hcreate. now intros ->.
Qed.

Lemma copy_kind err s' d' :
  copy = Some (err, s', d') -> compress g = is_gzip d'.
Proof.
  unfold copy. intros Hrun. apply copyFile_kind in Hrun. rewrite Hrun.
  unfold new_dest. now destruct (compress g).
Qed.

Lemma entry_copy_failed err s' d' :
  copy = Some (Some err, s', d') ->
  run = ([EvOpen spath; EvCreate dpath;
          EvLog "[error][%s] cannot copy source to destination %q: %v"
                [AStr server; AStr (targetName g finfo); AErr err];
          EvClose (SourceFile spath)] ++ closing_events (gzip g) dpath d', inr tt).
Proof.
  intros Hcopy. pose proof (copy_kind _ _ _ Hcopy) as Hkind. revert Hcopy.
  unfold copy, run, CopyFiles_entry, transfer.
  rewrite Hfile, Hinfo, Hwin, Hopen, Hcreate. intros ->.
  destruct d' as [fd|z]; cbn in Hkind; rewrite Hkind; [reflexivity|].
  cbn. destruct (gzip_Close (gzip g) z). reflexivity.
Qed.

Lemma entry_copied s' d' :
  copy = Some (None, s', d') ->
  run = ([EvOpen spath; EvCreate dpath; EvClose (SourceFile spath)]
         ++ closing_events (gzip g) dpath d'
         ++ EvChtimes dpath (io_now io) (ModTime finfo)
         :: match io_chtimes io with
            | Some err =>
                [EvLog "[error][%s] error setting last modified date on %s: %v"
                       [AStr server; AStr (targetName g finfo); AErr err]]
            | None => []
            end, inr tt).
Proof.
  intros Hcopy. pose proof (copy_kind _ _ _ Hcopy) as Hkind. revert Hcopy.
  unfold copy, run, CopyFiles_entry, transfer.
  rewrite Hfile, Hinfo, Hwin, Hopen, Hcreate. intros ->.
  destruct d' as [fd|z]; cbn in Hkind; rewrite Hkind.
  - destruct (io_chtimes io); reflexivity.
  - cbn. destruct (gzip_Close (gzip g) z). destruct (io_chtimes io); reflexivity.
Qed.
End Entry.

Lemma events_bind {A B : Type} (m : M A) (k : A -> M B) (ev : Event) :
  In ev (events (bind m k)) <->
  In ev (events m) \/ exists a, snd m = inr a /\ In ev (events (k a)).
Proof.
  destruct m as [evs [s|a]]; cbn.
  - split; [auto | intros [H|(a & Ha & _)]; [assumption | discriminate]].
  - destruct (k a) as [evs' r] eqn:Hk. cbn. rewrite in_app_iff. split.
    + intros [H|H]; [now left | right]. exists a. rewrite Hk. auto.
    + intros [H|(a' & [= <-] & H)]; [now left | right]. now rewrite Hk in H.
Qed.

Lemma In_created (p : string) (evs : list Event) :
  In p (created evs) <-> In (EvCreate p) evs.
Proof.
  induction evs as [|ev evs IH]; cbn; [tauto|].
  destruct ev; cbn; rewrite IH; split; intros H;
    try (now right); try (destruct H as [H|H]; [discriminate H | exact H]);
    try (destruct H as [H|H]; [left; congruence | now right]).
Qed.

Lemma closes_app (evs evs' : list Event) :
  closes (evs ++ evs') = closes evs ++ closes evs'.
Proof.
  induction evs as [|ev evs IH]; [reflexivity|].
  destruct ev as [| | | | | |h| | |]; cbn; try exact IH.
  destruct h; cbn; now rewrite IH.
Qed.

Lemma closes_closing (G : GzipFormat) (dpath : string) (d : WriteCloser) :
  closes (closing_events G dpath d) =
  if is_gzip d then [TheCompressor; TheDestination] else [TheDestination].
Proof. destruct d; reflexivity. Qed.

(** ** Which entries are transferred *)

(** C1.  A directory is never transferred.  An entry whose file info can
    be read, and whose creation instant fits an [int64] of nanoseconds
    since 1970 (1677-09-21 to 2262-04-11), is transferred (its source
    file is opened) exactly when it is not a directory, its name ends
    with [.tmp], its modification time is after the start of the window
    and its creation instant is before the end of the window; an entry
    whose file info cannot be read is not transferred. *)
Theorem selection_rule (fuel : nat) (g : Globals) (server src dst : string)
    (f : DirEntry) (io : FileIO) :
  let run := CopyFiles_entry fuel g server src dst f io in
  (IsDir f = true -> run = ([], inr tt))
  /\ (forall finfo, Info f = Ok finfo ->
        normal (ModTime finfo) -> normal (startTime g) -> normal (endTime g) ->
        filetime_ok (CreationTime (Sys finfo)) ->
        min_int64 <= created_at finfo <= max_int64 ->
        (In (EvOpen (join src (Name f))) (events run) <->
         IsDir f = false
         /\ HasSuffix (fi_Name finfo) ".tmp" = true
         /\ UnixNano (startTime g) < UnixNano (ModTime finfo)
         /\ created_at finfo < UnixNano (endTime g)))
  /\ (forall err p, Info f = Failed err -> ~ In (EvOpen p) (events run)).
Proof.
  cbv zeta. split; [apply entry_directory|]. split.
  - intros finfo Hinfo Hmod Hstart Hend Hft Hrange.
    rewrite <- (fCreate_UnixNano finfo Hft Hrange).
    rewrite <- (After_UnixNano (ModTime finfo) (startTime g) Hmod Hstart).
    rewrite <- (Before_UnixNano (fCreate finfo) (endTime g) (Unix_normal _ _) Hend).
    destruct (IsDir f) eqn:Hdir.
    { rewrite (entry_directory fuel g server src dst f io Hdir). cbn.
      split; [tauto | intros [H _]; discriminate]. }
    destruct (in_window g finfo) eqn:Hwin.
    + split.
      * intros _. unfold in_window in Hwin.
        apply andb_true_iff in Hwin. destruct Hwin as [Hwin Hsuf].
        apply andb_true_iff in Hwin. destruct Hwin as [Hm Hcre]. auto.
      * intros _. unfold CopyFiles_entry. rewrite Hdir, Hinfo, Hwin, bind_emit.
        now left.
    + rewrite (entry_outside fuel g server src dst f io finfo Hdir Hinfo Hwin). cbn.
      split; [tauto|]. intros (_ & Hsuf & Hm & Hcre).
      unfold in_window in Hwin. rewrite Hsuf, Hm, Hcre in Hwin. discriminate.
  - intros err p Hinfo. destruct (IsDir f) eqn:Hdir.
    + rewrite (entry_directory fuel g server src dst f io Hdir). cbn. tauto.
    + rewrite (entry_no_info fuel g server src dst f io err Hdir Hinfo). cbn.
      intros [H|[]]. discriminate.
Qed.

(** C1, counterexample.  A file created in 1601 (a [Filetime] of zero),
    called [app.tmp] and modified within the window: its creation lies
    before the end of the window, and yet it is not transferred, because
    the nanoseconds of so early an instant do not fit the [int64] the
    scan converts them to. *)
Lemma selection_skips_early_creation :
  let finfo := mkFileInfo "app.tmp" (Date 2024 1 1 0 30 0 0) (mkWin32 (mkFiletime 0 0)) in
  let f := mkDirEntry "app.tmp" false (Ok finfo) in
  (IsDir f = false
   /\ HasSuffix (fi_Name finfo) ".tmp" = true
   /\ UnixNano ex_start < UnixNano (ModTime finfo)
   /\ created_at finfo < UnixNano ex_end)
  /\ ~ In (EvOpen "//host1/logs/app.tmp")
         (events (CopyFiles_entry 2 (ex_globals false) "srv1" "//host1/logs" ex_snapshot
                    f ex_io)).
Proof.
  cbv zeta. split.
  - repeat split; vm_compute; reflexivity.
  - vm_compute. intros [].
Qed.

(** The condition in numbers: the modification time lies strictly after
    the start of the window, the creation time strictly before its end,
    and the name is some stem followed by [.tmp]. *)
Lemma in_window_spec (g : Globals) (finfo : FileInfo) :
  normal (ModTime finfo) -> normal (startTime g) -> normal (endTime g) ->
  (in_window g finfo = true <->
   UnixNano (startTime g) < UnixNano (ModTime finfo)
   /\ UnixNano (fCreate finfo) < UnixNano (endTime g)
   /\ exists stem, fi_Name finfo = (stem ++ ".tmp")%string).
Proof.
  intros Hmod Hstart Hend. unfold in_window.
  rewrite !andb_true_iff, After_UnixNano, Before_UnixNano, HasSuffix_spec
    by (try assumption; apply Unix_normal).
  tauto.
Qed.

(** ** The order in which the streams are closed *)

(** C4 (as amended).  Once the destination of a qualifying entry has been
    created, and whether [copyFile] returns nil or an error, the streams
    are closed in this order: the source file first, then the compressor
    (when compression is on), then the destination file. *)
Theorem close_order (fuel : nat) (g : Globals) (server src dst : string)
    (f : DirEntry) (io : FileIO) (finfo : FileInfo)
    (data : list byte) (faults faults' : list (option string))
    (err : option error) (s' : osFile) (d' : WriteCloser) :
  IsDir f = false -> Info f = Ok finfo -> in_window g finfo = true ->
  io_open io = Ok (data, faults) -> io_create io = Ok faults' ->
  copyFile (H0 := WriteCloser_Writer (gzip g)) fuel (mkFile data 0 faults)
    (new_dest (compress g) (mkFile [] 0 faults')) = Some (err, s', d') ->
  closes (events (CopyFiles_entry fuel g server src dst f io)) =
  if compress g then [TheSource; TheCompressor; TheDestination]
  else [TheSource; TheDestination].
Proof.
  intros Hdir Hinfo Hwin Hopen Hcreate Hcopy.
  rewrite (copy_kind fuel g data faults faults' err s' d' Hcopy).
  destruct err as [e|].
  - rewrite (entry_copy_failed fuel g server src dst f io finfo Hdir Hinfo Hwin
               data faults Hopen faults' Hcreate e s' d' Hcopy).
    unfold events. cbn [fst]. rewrite closes_app, closes_closing.
    now destruct (is_gzip d').
  - rewrite (entry_copied fuel g server src dst f io finfo Hdir Hinfo Hwin
               data faults Hopen faults' Hcreate s' d' Hcopy).
    unfold events. cbn [fst]. rewrite !closes_app, closes_closing.
    destruct (is_gzip d'), (io_chtimes io); reflexivity.
Qed.

(** ** The modification time of the copy *)


(** ** One entry after the other *)

Section Loop.
Variables (fuel : nat) (g : Globals) (server src dst : string).

Let entry := CopyFiles_entry fuel g server src dst.
Let loop := CopyFiles_loop fuel g server src dst.

(** The body of the loop returns, or it hangs in a copy. *)
Lemma entry_outcome (f : DirEntry) (io : FileIO) :
  snd (entry f io) = inr tt \/ snd (entry f io) = inl Hang.
Proof.
  unfold entry.
  destruct (IsDir f) eqn:Hdir.
  { rewrite entry_directory by assumption. now left. }
  destruct (Info f) as [finfo|e] eqn:Hinfo.
  2:{ rewrite (entry_no_info _ _ _ _ _ _ _ e) by assumption. now left. }
  destruct (in_window g finfo) eqn:Hwin.
  2:{ rewrite (entry_outside _ _ _ _ _ _ _ finfo) by assumption. now left. }
  destruct (io_open io) as [[data faults]|e] eqn:Hopen.
  2:{ rewrite (entry_open_failed _ _ _ _ _ _ _ finfo Hdir Hinfo Hwin e) by assumption.
      now left. }
  destruct (io_create io) as [faults'|e] eqn:Hcreate.
  2:{ rewrite (entry_create_failed _ _ _ _ _ _ _ finfo Hdir Hinfo Hwin data faults
                 Hopen e) by assumption. now left. }
  destruct (copyFile (H0 := WriteCloser_Writer (gzip g)) fuel (mkFile data 0 faults)
              (new_dest (compress g) (mkFile [] 0 faults')))
    as [[[[e|] s'] d']|] eqn:Hcopy.
  - rewrite (entry_copy_failed _ _ _ _ _ _ _ finfo Hdir Hinfo Hwin data faults
               Hopen faults' Hcreate e s' d' Hcopy). now left.
  - rewrite (entry_copied _ _ _ _ _ _ _ finfo Hdir Hinfo Hwin data faults
               Hopen faults' Hcreate s' d' Hcopy). now left.
  - rewrite (entry_hangs _ _ _ _ _ _ _ finfo Hdir Hinfo Hwin data faults
               Hopen faults' Hcreate Hcopy). now right.
Qed.

(** With fuel beyond the length of the source file it returns. *)
Lemma entry_returns (f : DirEntry) (io : FileIO) :
  (forall data faults, io_open io = Ok (data, faults) -> (List.length data < fuel)%nat) ->
  snd (entry f io) = inr tt.
Proof.
  intros Hfuel. destruct (entry_outcome f io) as [H|H]; [assumption|exfalso].
  revert H. unfold entry.
  destruct (IsDir f) eqn:Hdir.
  { rewrite entry_directory by assumption. discriminate. }
  destruct (Info f) as [finfo|e] eqn:Hinfo.
  2:{ rewrite (entry_no_info _ _ _ _ _ _ _ e) by assumption. discriminate. }
  destruct (in_window g finfo) eqn:Hwin.
  2:{ rewrite (entry_outside _ _ _ _ _ _ _ finfo) by assumption. discriminate. }
  destruct (io_open io) as [[data faults]|e] eqn:Hopen.
  2:{ rewrite (entry_open_failed _ _ _ _ _ _ _ finfo Hdir Hinfo Hwin e) by assumption.
      discriminate. }
  destruct (io_create io) as [faults'|e] eqn:Hcreate.
  2:{ rewrite (entry_create_failed _ _ _ _ _ _ _ finfo Hdir Hinfo Hwin data faults
                 Hopen e) by assumption. discriminate. }
  destruct (copyFile_file_ends (H := WriteCloser_Writer (gzip g)) fuel
              (mkFile data 0 faults) (new_dest (compress g) (mkFile [] 0 faults'))
              (Hfuel data faults eq_refl)) as [[[[e|] s'] d'] Hcopy].
  - rewrite (entry_copy_failed _ _ _ _ _ _ _ finfo Hdir Hinfo Hwin data faults
               Hopen faults' Hcreate e s' d' Hcopy). discriminate.
  - rewrite (entry_copied _ _ _ _ _ _ _ finfo Hdir Hinfo Hwin data faults
               Hopen faults' Hcreate s' d' Hcopy). discriminate.
Qed.

(** After an entry whose body returns, the loop goes on with the rest
    of the listing. *)
Lemma loop_goes_on (f : DirEntry) (io : FileIO) (rest : list (DirEntry * FileIO)) :
  snd (entry f io) = inr tt ->
  loop ((f, io) :: rest) = (events (entry f io) ++ events (loop rest), snd (loop rest)).
Proof.
  intros Hret. unfold loop, entry in *. cbn [CopyFiles_loop].
  destruct (CopyFiles_entry fuel g server src dst f io) as [evs r]. cbn in Hret.
  subst r. rewrite bind_returned. reflexivity.
Qed.

Lemma loop_returns (sdir : list (DirEntry * FileIO)) :
  enough_fuel fuel sdir -> snd (loop sdir) = inr tt.
Proof.
  induction sdir as [|[f io] rest IH]; intros Hfuel; [reflexivity|].
  rewrite loop_goes_on.
  - cbn [snd]. apply IH. intros f' io' data faults Hin Hopen.
    apply (Hfuel f' io' data faults); [now right | assumption].
  - apply entry_returns. intros data faults Hopen.
    apply (Hfuel f io data faults); [now left | assumption].
Qed.

(** Every event of the loop is an event of the body on one entry. *)
Lemma loop_events_from_entry (sdir : list (DirEntry * FileIO)) (ev : Event) :
  In ev (events (loop sdir)) ->
  exists f io, In (f, io) sdir /\ In ev (events (entry f io)).
Proof.
  induction sdir as [|[f io] rest IH]; cbn; [tauto|].
  unfold loop. cbn [CopyFiles_loop]. rewrite events_bind.
  intros [H|(a & _ & H)].
  - exists f, io. auto.
  - destruct (IH H) as (f' & io' & Hin & Hev). exists f', io'. auto.
Qed.

(** With enough fuel, every event of the body on an entry is an event
    of the loop. *)
Lemma entry_events_in_loop (sdir : list (DirEntry * FileIO)) f io (ev : Event) :
  enough_fuel fuel sdir -> In (f, io) sdir -> In ev (events (entry f io)) ->
  In ev (events (loop sdir)).
Proof.
  induction sdir as [|[f0 io0] rest IH]; intros Hfuel Hin Hev; [contradiction|].
  rewrite loop_goes_on.
  - unfold events at 1. cbn [fst]. rewrite in_app_iff.
    destruct Hin as [[= <- <-]|Hin]; [now left | right].
    apply IH; auto. intros f' io' data faults Hin' Hopen.
    apply (Hfuel f' io' data faults); [now right | assumption].
  - apply entry_returns. intros data faults Hopen.
    apply (Hfuel f0 io0 data faults); [now left | assumption].
Qed.

(** The file the body creates for an entry. *)
Lemma entry_creates (f : DirEntry) (io : FileIO) (p : string) :
  In (EvCreate p) (events (entry f io)) ->
  exists finfo, IsDir f = false /\ Info f = Ok finfo /\ in_window g finfo = true
                /\ p = join (join dst server) (targetName g finfo).
Proof.
  unfold entry.
  destruct (IsDir f) eqn:Hdir.
  { rewrite entry_directory by assumption. intros []. }
  destruct (Info f) as [finfo|e] eqn:Hinfo.
  2:{ rewrite (entry_no_info _ _ _ _ _ _ _ e) by assumption.
      intros [H|[]]. discriminate. }
  destruct (in_window g finfo) eqn:Hwin.
  2:{ rewrite (entry_outside _ _ _ _ _ _ _ finfo) by assumption. intros []. }
  intros Hin. exists finfo. repeat split; try reflexivity; try assumption. revert Hin.
  destruct (io_open io) as [[data faults]|e] eqn:Hopen.
  2:{ rewrite (entry_open_failed _ _ _ _ _ _ _ finfo Hdir Hinfo Hwin e) by assumption.
      cbn. intuition discriminate. }
  destruct (io_create io) as [faults'|e] eqn:Hcreate.
  2:{ rewrite (entry_create_failed _ _ _ _ _ _ _ finfo Hdir Hinfo Hwin data faults
                 Hopen e) by assumption. cbn. intuition congruence. }
  destruct (copyFile (H0 := WriteCloser_Writer (gzip g)) fuel (mkFile data 0 faults)
              (new_dest (compress g) (mkFile [] 0 faults')))
    as [[[[e|] s'] d']|] eqn:Hcopy.
  - rewrite (entry_copy_failed _ _ _ _ _ _ _ finfo Hdir Hinfo Hwin data faults
               Hopen faults' Hcreate e s' d' Hcopy).
    unfold events. cbn [fst]. rewrite in_app_iff. cbn [In].
    intros [H|H]; [intuition congruence|]. destruct d'; cbn in H; intuition discriminate.
  - rewrite (entry_copied _ _ _ _ _ _ _ finfo Hdir Hinfo Hwin data faults
               Hopen faults' Hcreate s' d' Hcopy).
    unfold events. cbn [fst]. rewrite !in_app_iff. cbn [In].
    intros [H|[H|[H|H]]]; [intuition congruence | | discriminate |].
    + destruct d'; cbn in H; intuition discriminate.
    + destruct (io_chtimes io); cbn in H; intuition discriminate.
  - rewrite (entry_hangs _ _ _ _ _ _ _ finfo Hdir Hinfo Hwin data faults
               Hopen faults' Hcreate Hcopy). cbn. intuition congruence.
Qed.

(** A failure met by the transfer of an entry is logged with its
    error, and the body returns. *)
Lemma entry_failure_logged (f : DirEntry) (io : FileIO) (step : Step) (e : error) :
  FailsAt fuel g f io step e ->
  snd (entry f io) = inr tt
  /\ exists ev, In ev (events (entry f io)) /\ logs_error e ev.
Proof.
  unfold entry.
  intros [e' Hdir Hinfo
         | finfo e' Hdir Hinfo Hwin Hopen
         | finfo data faults e' Hdir Hinfo Hwin Hopen Hcreate
         | finfo data faults faults' e' s' d' Hdir Hinfo Hwin Hopen Hcreate Hcopy
         | finfo data faults faults' e' s' d' Hdir Hinfo Hwin Hopen Hcreate Hcopy Hch].
  - rewrite (entry_no_info _ _ _ _ _ _ _ e' Hdir Hinfo). split; [reflexivity|].
    eexists. split; [now left|]. eexists. eexists. split; [reflexivity|]. cbn. auto.
  - rewrite (entry_open_failed _ _ _ _ _ _ _ finfo Hdir Hinfo Hwin e' Hopen).
    split; [reflexivity|].
    eexists. split; [right; now left|]. eexists. eexists.
    split; [reflexivity|]. cbn. auto.
  - rewrite (entry_create_failed _ _ _ _ _ _ _ finfo Hdir Hinfo Hwin data faults
               Hopen e' Hcreate). split; [reflexivity|].
    eexists. split; [right; right; now left|]. eexists. eexists.
    split; [reflexivity|]. cbn. auto.
  - rewrite (entry_copy_failed _ _ _ _ _ _ _ finfo Hdir Hinfo Hwin data faults
               Hopen faults' Hcreate e' s' d' Hcopy). split; [reflexivity|].
    eexists. split; [right; right; now left|]. eexists. eexists.
    split; [reflexivity|]. cbn. auto.
  - rewrite (entry_copied _ _ _ _ _ _ _ finfo Hdir Hinfo Hwin data faults
               Hopen faults' Hcreate s' d' Hcopy). split; [reflexivity|].
    rewrite Hch. eexists. split.
    + unfold events. cbn [fst]. rewrite !in_app_iff. right. right. right. now left.
    + eexists. eexists. split; [reflexivity|]. cbn. auto.
Qed.

End Loop.

(** ** The whole scan *)

Lemma string_app_assoc (a b c : string) : ((a ++ b) ++ c = a ++ b ++ c)%string.
Proof. induction a as [|x a IH]; cbn; [reflexivity | now rewrite IH]. Qed.

Lemma events_defer {A : Type} (body : M A) (deferred : M unit) (ev : Event) :
  In ev (events (defer body deferred)) ->
  In ev (events body) \/ In ev (events deferred).
Proof.
  destruct body as [evs [s|a]]; cbn; [auto|]. rewrite in_app_iff. tauto.
Qed.

Section Scan.
Variables (fuel : nat) (g : Globals) (server src dst : string) (io : ScanIO).

Let scan := CopyFiles fuel g server src dst io.
Let folder := join dst server.

(** What the scan does about the destination folder before it lists
    the share. *)
Let preamble : list Event :=
  EvLog "[info] scanning %s" [AStr src] :: EvStat folder
  :: match io_stat io with Some _ => [EvMkdirAll folder] | None => [] end.

Lemma scan_stat_fatal pe :
  io_stat io = Some pe -> is_ErrNotExist (Err pe) = false ->
  scan = ([EvLog "[info] scanning %s" [AStr src]; EvStat folder;
           EvLog "[fatal] error opening destination folder: %v (%v)"
                 [APathErr pe; ABool false]], inl (Exit 1)).
Proof. unfold scan, CopyFiles. intros -> ->. reflexivity. Qed.

Lemma scan_mkdir_fatal pe e :
  io_stat io = Some pe -> is_ErrNotExist (Err pe) = true -> io_mkdir io = Some e ->
  scan = ([EvLog "[info] scanning %s" [AStr src]; EvStat folder; EvMkdirAll folder;
           EvLog "[fatal] error creating destination folder: %v" [AErr e]],
          inl (Exit 1)).
Proof. unfold scan, CopyFiles. intros -> -> ->. reflexivity. Qed.

Lemma scan_unlisted e :
  folder_ready io = true -> io_readdir io = Failed e ->
  scan = (preamble ++
          [EvReadDir src;
           EvLog "[error][%s] unable to open %q: %v" [AStr server; AStr src; AErr e];
           EvDone], inr tt).
Proof.
  unfold scan, CopyFiles, folder_ready, preamble. intros Hready ->.
  destruct (io_stat io) as [pe|]; [|reflexivity].
  apply andb_true_iff in Hready. destruct Hready as [-> Hmk].
  destruct (io_mkdir io); [discriminate | reflexivity].
Qed.

Lemma scan_listed sdir :
  folder_ready io = true -> io_readdir io = Ok sdir ->
  snd (CopyFiles_loop fuel g server src dst sdir) = inr tt ->
  scan = (preamble ++ EvReadDir src
            :: events (CopyFiles_loop fuel g server src dst sdir)
            ++ [EvLog "[info] done scanning %s" [AStr server]; EvDone], inr tt).
Proof.
  unfold scan, CopyFiles, folder_ready, preamble. intros Hready -> Hloop.
  destruct (CopyFiles_loop fuel g server src dst sdir) as [evs r]. cbn in Hloop.
  subst r. rewrite bind_returned.
  destruct (io_stat io) as [pe|].
  - apply andb_true_iff in Hready. destruct Hready as [-> Hmk].
    destruct (io_mkdir io); [discriminate|]. cbn.
    now rewrite <- app_assoc.
  - cbn. now rewrite <- app_assoc.
Qed.

(** The scan creates files in its loop only. *)
Lemma scan_creates p :
  In (EvCreate p) (events scan) ->
  exists sdir, io_readdir io = Ok sdir
               /\ In (EvCreate p) (events (CopyFiles_loop fuel g server src dst sdir)).
Proof.
  unfold scan, CopyFiles. intros Hin.
  apply events_defer in Hin. destruct Hin as [Hin|[Hin|[]]]; [|discriminate].
  rewrite bind_log in Hin. destruct Hin as [Hin|Hin]; [discriminate|].
  cbn [fst] in Hin. rewrite bind_emit in Hin. destruct Hin as [Hin|Hin]; [discriminate|].
  cbn [fst] in Hin. apply events_bind in Hin. destruct Hin as [Hin|(_ & _ & Hin)].
  - exfalso. destruct (io_stat io) as [pe|]; [|destruct Hin].
    destruct (is_ErrNotExist (Err pe)).
    + rewrite bind_emit in Hin. destruct Hin as [Hin|Hin]; [discriminate|].
      destruct (io_mkdir io); cbn in Hin; intuition discriminate.
    + cbn in Hin. intuition discriminate.
  - rewrite bind_emit in Hin. destruct Hin as [Hin|Hin]; [discriminate|].
    cbn [fst] in Hin. destruct (io_readdir io) as [sdir|e].
    + exists sdir. split; [reflexivity|].
      apply events_bind in Hin. destruct Hin as [Hin|(_ & _ & Hin)]; [assumption|].
      cbn in Hin. intuition discriminate.
    + cbn in Hin. intuition discriminate.
Qed.
End Scan.

(** ** Where the copies are written *)

(** C5 (as amended).  Every file a scan creates is at
    [<root>/<cluster>/<start>-<end>/<server>/<filename>] followed by
    [.gz] exactly when compression is on, where [<filename>] is the name
    of an entry of the listing and [<start>] and [<end>] are the two ends
    of the run's window in the layout [20060102T150405Z], joined by a
    dash.  For a window within the years 0000 to 9999 each stamp has
    sixteen bytes and is read back by [time.Parse] as the end of the
    window it was written for, to the second. *)
Theorem output_path (fuel : nat) (g : Globals) (server src root cluster : string)
    (io : ScanIO) :
  (forall p,
      In p (created (events (CopyFiles fuel g server src
                               (destination root cluster (startTime g) (endTime g)) io))) ->
      exists sdir f fio finfo,
        io_readdir io = Ok sdir /\ In (f, fio) sdir /\ Info f = Ok finfo
        /\ p = (root ++ "/" ++ cluster ++ "/"
                ++ Format (startTime g) ++ "-" ++ Format (endTime g)
                ++ "/" ++ server ++ "/" ++ fi_Name finfo
                ++ (if compress g then ".gz" else ""))%string)
  /\ (stampable (startTime g) -> stampable (endTime g) ->
      String.length (Format (startTime g)) = 16%nat
      /\ String.length (Format (endTime g)) = 16%nat
      /\ Parse (Format (startTime g)) = Some (mkTime (t_sec (startTime g)) 0)
      /\ Parse (Format (endTime g)) = Some (mkTime (t_sec (endTime g)) 0)).
Proof.
  split.
  - intros p Hin. apply In_created in Hin.
    apply scan_creates in Hin. destruct Hin as (sdir & Hdir & Hin).
    apply loop_events_from_entry in Hin. destruct Hin as (f & fio & Hmem & Hin).
    apply entry_creates in Hin. destruct Hin as (finfo & _ & Hinfo & _ & ->).
    exists sdir, f, fio, finfo. repeat split; try assumption.
    unfold join, destination, targetName.
    generalize (Format (startTime g)) (Format (endTime g)). intros a b.
    assert (Hnil : forall x : string, (x ++ "")%string = x).
    { induction x as [|c x IH]; cbn; [reflexivity | now rewrite IH]. }
    destruct (compress g); rewrite ?Hnil; repeat rewrite string_app_assoc;
      cbn [append]; repeat rewrite string_app_assoc; cbn [append];
      repeat rewrite string_app_assoc; reflexivity.
  - intros Hs He. repeat split.
    + apply Format_shape; assumption.
    + apply Format_shape; assumption.
    + apply Parse_Format; assumption.
    + apply Parse_Format; assumption.
Qed.

(** C5, counterexample.  In the example run with compression the one
    file created is
    [D:/collect/prod/20240101T000000Z-20240101T010000Z/srv1/app.tmp.gz];
    the path of the specification's layout, with a [T] between the two
    stamps and a [Z] after them, is not created. *)
Lemma output_path_is_not_the_specified :
  let run := CopyFiles 2 (ex_globals true) "srv1" "//host1/logs" ex_snapshot
               (mkScanIO None None (Ok [(ex_entry "app.tmp", ex_io)])) in
  created (events run)
    = ["D:/collect/prod/20240101T000000Z-20240101T010000Z/srv1/app.tmp.gz"]
  /\ ~ In (spec_path "D:/collect" "prod" ex_start ex_end "srv1" "app.tmp" true)
          (created (events run)).
Proof.
  cbv zeta. split; [vm_compute; reflexivity|].
  vm_compute. intros [H|[]]. discriminate.
Qed.

Lemma output_path_witness :
  exists sdir f fio finfo,
    Ok [(ex_entry "app.tmp", ex_io)] = Ok sdir /\ In (f, fio) sdir
    /\ Info f = Ok finfo
    /\ "D:/collect/prod/20240101T000000Z-20240101T010000Z/srv1/app.tmp.gz"
       = ("D:/collect" ++ "/" ++ "prod" ++ "/"
          ++ Format ex_start ++ "-" ++ Format ex_end
          ++ "/" ++ "srv1" ++ "/" ++ fi_Name finfo ++ ".gz")%string.
Proof.
  apply (proj1 (output_path 2 (ex_globals true) "srv1" "//host1/logs" "D:/collect" "prod"
                  (mkScanIO None None (Ok [(ex_entry "app.tmp", ex_io)])))).
  vm_compute. now left.
Defined.

(** C4, counterexample.  In the example run with compression the source
    is closed first, not last. *)
Lemma close_order_is_not_the_specified :
  closes (events (CopyFiles_entry 2 (ex_globals true) "srv1" "//host1/logs" ex_snapshot
                    (ex_entry "app.tmp") ex_io))
  <> [TheCompressor; TheDestination; TheSource].
Proof. vm_compute. discriminate. Qed.

Lemma close_order_witness :
  closes (events (CopyFiles_entry 2 (ex_globals true) "srv1" "//host1/logs" ex_snapshot
                    (ex_entry "app.tmp") ex_io))
  = [TheSource; TheCompressor; TheDestination].
Proof.
  refine (close_order 2 (ex_globals true) "srv1" "//host1/logs" ex_snapshot
            (ex_entry "app.tmp") ex_io (ex_info "app.tmp") ex_bytes [] []
            None _ _ eq_refl eq_refl _ eq_refl eq_refl _).
  - vm_compute. reflexivity.
  - vm_compute. reflexivity.
Defined.

(** The example of the specification: [app.tmp] is transferred,
    [app.log] is not. *)
Lemma selection_rule_witness :
  In (EvOpen "//host1/logs/app.tmp")
     (events (CopyFiles_entry 2 (ex_globals false) "srv1" "//host1/logs" ex_snapshot
                (ex_entry "app.tmp") ex_io))
  /\ ~ In (EvOpen "//host1/logs/app.log")
          (events (CopyFiles_entry 2 (ex_globals false) "srv1" "//host1/logs" ex_snapshot
                     (ex_entry "app.log") ex_io)).
Proof.
  pose proof (selection_rule 2 (ex_globals false) "srv1" "//host1/logs" ex_snapshot
                (ex_entry "app.tmp") ex_io) as (_ & Htmp & _).
  pose proof (selection_rule 2 (ex_globals false) "srv1" "//host1/logs" ex_snapshot
                (ex_entry "app.log") ex_io) as (_ & Hlog & _).
  assert (Hmod : forall name, normal (ModTime (ex_info name)))
    by (intros name; vm_compute; split; [discriminate | reflexivity]).
  assert (Hstart : normal (startTime (ex_globals false)))
    by (vm_compute; split; [discriminate | reflexivity]).
  assert (Hend : normal (endTime (ex_globals false)))
    by (vm_compute; split; [discriminate | reflexivity]).
  assert (Hft : filetime_ok (CreationTime ex_created))
    by (vm_compute; repeat split; discriminate).
  assert (Hrange : forall name, min_int64 <= created_at (ex_info name) <= max_int64)
    by (intros name; vm_compute; split; discriminate).
  specialize (Htmp (ex_info "app.tmp") eq_refl (Hmod _) Hstart Hend Hft (Hrange _)).
  specialize (Hlog (ex_info "app.log") eq_refl (Hmod _) Hstart Hend Hft (Hrange _)).
  cbv zeta in Htmp, Hlog. split.
  - apply Htmp. vm_compute. auto.
  - intros Hin. destruct Hlog as [Hlog _].
    destruct (Hlog Hin) as (_ & Hsuffix & _). vm_compute in Hsuffix. discriminate.
Defined.


(** ** Failures *)



Lemma snoc_split {A : Type} (a : list A) (x : A) (b : list A) (y z : A) :
  a ++ x :: b ++ [y; z] = (a ++ x :: b ++ [y]) ++ [z].
Proof. rewrite <- app_assoc. cbn. now rewrite <- app_assoc. Qed.

(** C8 (as amended).  When the destination folder of the server exists
    or can be created, and every source file ends, the scan returns to
    its caller, its last act being [w.Done()]; otherwise it logs a fatal
    line and ends the process with status 1.  A listing that fails, and
    every failure met by a transfer (file info, open, create, copy, set
    time), is logged with its error. *)
Theorem scan_returns_or_exits (fuel : nat) (g : Globals) (server src dst : string)
    (io : ScanIO) :
  let scan := CopyFiles fuel g server src dst io in
  (folder_ready io = true ->
   (forall sdir, io_readdir io = Ok sdir -> enough_fuel fuel sdir) ->
   snd scan = inr tt /\ exists evs, events scan = evs ++ [EvDone])
  /\ (folder_ready io = false ->
      snd scan = inl (Exit 1)
      /\ exists evs ev, events scan = evs ++ [ev] /\ is_fatal_log ev = true)
  /\ (folder_ready io = true ->
      forall e, io_readdir io = Failed e ->
        exists ev, In ev (events scan) /\ logs_error e ev)
  /\ (folder_ready io = true ->
      forall sdir f fio step e,
        io_readdir io = Ok sdir -> enough_fuel fuel sdir ->
        In (f, fio) sdir -> FailsAt fuel g f fio step e ->
        exists ev, In ev (events scan) /\ logs_error e ev).
Proof.
  cbv zeta. split; [|split; [|split]].
  - intros Hready Hfuel. destruct (io_readdir io) as [sdir|e] eqn:Hlist.
    + rewrite (scan_listed fuel g server src dst io sdir Hready Hlist
                 (loop_returns fuel g server src dst sdir (Hfuel sdir eq_refl))).
      cbv zeta. unfold events. cbn [fst snd]. split; [reflexivity|].
      eexists. apply snoc_split.
    + rewrite (scan_unlisted fuel g server src dst io e Hready Hlist).
      cbv zeta. unfold events. cbn [fst snd]. split; [reflexivity|].
      eexists. apply (snoc_split _ _ []).
  - unfold folder_ready. intros Hready.
    destruct (io_stat io) as [pe|] eqn:Hstat; [|discriminate].
    destruct (is_ErrNotExist (Err pe)) eqn:Hne.
    + destruct (io_mkdir io) as [e|] eqn:Hmk; [|discriminate].
      rewrite (scan_mkdir_fatal fuel g server src dst io pe e Hstat Hne Hmk).
      split; [reflexivity|]. eexists [_; _; _]. eexists. split; reflexivity.
    + rewrite (scan_stat_fatal fuel g server src dst io pe Hstat Hne).
      split; [reflexivity|]. eexists [_; _]. eexists. split; reflexivity.
  - intros Hready e Hlist.
    rewrite (scan_unlisted fuel g server src dst io e Hready Hlist).
    cbv zeta. unfold events. cbn [fst]. eexists. split.
    + rewrite in_app_iff. right. right. now left.
    + eexists. eexists. split; [reflexivity|]. cbn. auto.
  - intros Hready sdir f fio step e Hlist Hfuel Hmem Hfail.
    destruct (entry_failure_logged fuel g server src dst f fio step e Hfail)
      as [_ (ev & Hin & Hlog)].
    exists ev. split; [|assumption].
    rewrite (scan_listed fuel g server src dst io sdir Hready Hlist
               (loop_returns fuel g server src dst sdir Hfuel)).
    cbv zeta. unfold events at 1. cbn [fst].
    rewrite in_app_iff. right. right. rewrite in_app_iff. left.
    eapply entry_events_in_loop; eassumption.
Qed.

(** C8, counterexample.  With a destination folder whose [os.Stat] fails
    for another reason than absence, the scan does not return: it ends
    the process.  And a failure of the compressor's [Close] leaves no
    line in the log. *)
Lemma scan_can_exit_and_close_is_silent :
  ~ returned (CopyFiles 2 (ex_globals false) "srv1" "//host1/logs" ex_snapshot
                (mkScanIO (Some (mkPathError "CreateFile" (join ex_snapshot "srv1")
                                   (ErrOther "Access is denied.")))
                          None (Ok [])))
  /\ let io := mkFileIO (Ok (ex_bytes, [])) (Ok [None; Some "disk full"])
                 (Date 2024 1 1 1 5 0 0) None in
     let run := CopyFiles 2 (ex_globals true) "srv1" "//host1/logs" ex_snapshot
                  (mkScanIO None None (Ok [(ex_entry "app.tmp", io)])) in
     (exists s' d',
         copyFile (H0 := WriteCloser_Writer stored_format) 2 (mkFile ex_bytes 0 [])
           (new_dest true (mkFile [] 0 [None; Some "disk full"])) = Some (None, s', d')
         /\ fst (wc_Close stored_format d') = Some (ErrOp "write" "disk full"))
     /\ returned run
     /\ existsb is_error_log (events run) = false.
Proof.
  split.
  - intros [a Ha]. vm_compute in Ha. discriminate.
  - cbv zeta. split; [|split].
    + eexists. eexists. split; vm_compute; reflexivity.
    + exists tt. vm_compute. reflexivity.
    + vm_compute. reflexivity.
Qed.

Lemma scan_returns_or_exits_witness :
  snd (CopyFiles 11 (ex_globals true) "srv1" "//host1/logs" ex_snapshot
         (mkScanIO None None (Ok [(ex_entry "app.tmp", ex_io)]))) = inr tt.
Proof.
  refine (proj1 (proj1 (scan_returns_or_exits 11 (ex_globals true) "srv1" "//host1/logs"
                          ex_snapshot
                          (mkScanIO None None (Ok [(ex_entry "app.tmp", ex_io)])))
                   eq_refl _)).
  intros sdir [= <-] f io data faults [[= <- <-]|[]] [= <- <-].
  vm_compute. reflexivity.
Defined.

(* ================================================================== *)
(** * The start of the scans *)
(* ================================================================== *)

Lemma launches_app (before after : list Key) (share dst : string) :
  launches (before ++ after) share dst
  = launches before share dst ++ launches after (share_after before share) dst.
Proof.
  revert share. induction before as [|k before IH]; intros share; [reflexivity|].
  cbn [app launches share_after fold_left].
  destruct (String.eqb (k_Name k) "logshare").
  - apply IH.
  - cbn [app]. f_equal. apply IH.
Qed.

Lemma share_after_no_logshare (before : list Key) (share : string) :
  (forall k, In k before -> k_Name k <> "logshare") -> share_after before share = share.
Proof.
  revert share. induction before as [|k before IH]; intros share Hno; [reflexivity|].
  cbn [share_after fold_left].
  destruct (String.eqb (k_Name k) "logshare") eqn:E.
  - apply String.eqb_eq in E. exfalso. apply (Hno k); [now left | assumption].
  - apply IH. intros k' Hin. apply Hno. now right.
Qed.

(** C10.  The loop of [main] starts one scan per key other than
    [logshare], in the order of the keys; the scan for a key gets the
    source path [//<value of the key>/<share>] with the value [share] has
    when the loop reaches the key; a key that no [logshare] key precedes
    gets [//<value>/], with an empty share; and so the same keys in
    another order can give other paths. *)
Theorem launch_paths (keys : list Key) (dst : string) :
  map l_server (main_launches keys dst) = map k_Name (filter is_server_key keys)
  /\ (forall before k after,
        keys = before ++ k :: after -> k_Name k <> "logshare" ->
        main_launches keys dst
        = main_launches before dst
          ++ mkLaunch (k_Name k) ("//" ++ k_Value k ++ "/" ++ share_after before "") dst
          :: launches after (share_after before "") dst)
  /\ (forall before k after,
        keys = before ++ k :: after -> k_Name k <> "logshare" ->
        (forall k', In k' before -> k_Name k' <> "logshare") ->
        In (mkLaunch (k_Name k) ("//" ++ k_Value k ++ "/") dst) (main_launches keys dst))
  /\ (exists keys1 keys2,
        Permutation keys1 keys2 /\ main_launches keys1 dst <> main_launches keys2 dst).
Proof.
  assert (Hstep : forall before k after,
             keys = before ++ k :: after -> k_Name k <> "logshare" ->
             main_launches keys dst
             = main_launches before dst
               ++ mkLaunch (k_Name k) ("//" ++ k_Value k ++ "/" ++ share_after before "") dst
               :: launches after (share_after before "") dst).
  { intros before k after -> Hk. unfold main_launches. rewrite launches_app.
    f_equal. cbn [launches]. apply String.eqb_neq in Hk. now rewrite Hk. }
  split; [|split; [exact Hstep|split]].
  - clear Hstep. unfold main_launches. generalize "" as share.
    induction keys as [|k keys' IH]; intros share; [reflexivity|].
    cbn [launches filter]. unfold is_server_key at 1.
    destruct (String.eqb (k_Name k) "logshare"); cbn [negb map]; [apply IH|].
    f_equal. apply IH.
  - intros before k after Hkeys Hk Hno.
    rewrite (Hstep before k after Hkeys Hk), (share_after_no_logshare before "" Hno).
    rewrite in_app_iff. right. now left.
  - exists [mkKey "srv1" "host1"; mkKey "logshare" "logs"],
           [mkKey "logshare" "logs"; mkKey "srv1" "host1"].
    split; [apply perm_swap | vm_compute; discriminate].
Qed.

Lemma launch_paths_witness :
  In (mkLaunch "srv1" "//host1/" "D:/snap")
     (main_launches [mkKey "srv1" "host1"; mkKey "logshare" "logs"; mkKey "srv2" "host2"]
        "D:/snap")
  /\ In (mkLaunch "srv2" "//host2/logs" "D:/snap")
        (main_launches [mkKey "srv1" "host1"; mkKey "logshare" "logs"; mkKey "srv2" "host2"]
           "D:/snap").
Proof.
  pose proof (launch_paths [mkKey "srv1" "host1"; mkKey "logshare" "logs";
                            mkKey "srv2" "host2"] "D:/snap") as (_ & Hat & Hempty & _).
  split.
  - apply (Hempty [] (mkKey "srv1" "host1") [mkKey "logshare" "logs"; mkKey "srv2" "host2"]
             eq_refl).
    + discriminate.
    + intros k' [].
  - rewrite (Hat [mkKey "srv1" "host1"; mkKey "logshare" "logs"] (mkKey "srv2" "host2") []
               eq_refl); [|discriminate].
    vm_compute. auto.
Defined.

(* ================================================================== *)
(** * Pruning *)
(* ================================================================== *)

Lemma snapshot_end_spec (entry : DirEntry) (endT : Time) :
  snapshot_end entry = Some endT <->
  IsDir entry = true /\ String.length (Name entry) = 33%nat
  /\ exists startStamp endStamp,
       Split (Name entry) "-" = [startStamp; endStamp] /\ Parse endStamp = Some endT.
Proof.
  unfold snapshot_end. split.
  - destruct (IsDir entry); [|discriminate].
    destruct (Split (Name entry) "-") as [|a [|b [|c l]]]; try discriminate.
    destruct (String.length (Name entry) =? 33)%nat eqn:Hlen; [|discriminate].
    apply Nat.eqb_eq in Hlen. intros Hp. eauto 6.
  - intros (-> & Hlen & a & b & -> & Hp).
    apply Nat.eqb_eq in Hlen. now rewrite Hlen.
Qed.

Section Prune.
Variables (dur : Duration) (dst : string) (entry : DirEntry) (io : PruneIO).

Let run := cleanup_entry dur dst entry io.
Let path := join dst (Name entry).

Lemma prune_foreign : snapshot_end entry = None -> run = ([], inr tt).
Proof. unfold run, cleanup_entry. now intros ->. Qed.

Lemma prune_recent endT :
  snapshot_end entry = Some endT -> Before endT (horizon (p_now io) dur) = false ->
  run = ([], inr tt).
Proof. unfold run, cleanup_entry. now intros -> ->. Qed.

Lemma prune_old endT :
  snapshot_end entry = Some endT -> Before endT (horizon (p_now io) dur) = true ->
  run = (EvLog "cleaning up %s..." [AStr path] :: EvRemoveAll path
         :: match p_remove io with
            | Some err => [EvLog "cannot delete folder %q: %v" [AStr path; AErr err]]
            | None => []
            end, inr tt).
Proof.
  unfold run, cleanup_entry. intros -> ->. now destruct (p_remove io).
Qed.

Lemma prune_returns : snd run = inr tt.
Proof.
  destruct (snapshot_end entry) as [endT|] eqn:Hend.
  - destruct (Before endT (horizon (p_now io) dur)) eqn:Hold.
    + now rewrite (prune_old endT Hend Hold).
    + now rewrite (prune_recent endT Hend Hold).
  - now rewrite (prune_foreign Hend).
Qed.
End Prune.

(** ** The age of a snapshot in nanoseconds *)

Lemma horizon_normal (now : Time) (dur : Duration) : normal now -> normal (horizon now dur).
Proof. apply Add_normal. Qed.

(** For every duration but the least [int64], [horizon] is the instant
    [dur] nanoseconds before [now]. *)
Lemma horizon_UnixNano (now : Time) (dur : Duration) :
  min_int64 < dur <= max_int64 -> UnixNano (horizon now dur) = UnixNano now - dur.
Proof.
  intros Hdur. unfold horizon, mul64. rewrite Add_UnixNano, wrap64_small.
  - lia.
  - unfold min_int64, max_int64 in *. lia.
Qed.

Lemma digit_val_range (c : ascii) : isDigit c = true -> 0 <= digit_val c <= 9.
Proof.
  unfold isDigit, digit_val. rewrite andb_true_iff, !Nat.leb_le. lia.
Qed.

Lemma digits_val_range (s : string) (acc v : Z) :
  digits_val s acc = Some v ->
  acc * 10 ^ Z.of_nat (String.length s) <= v
  < (acc + 1) * 10 ^ Z.of_nat (String.length s).
Proof.
  revert acc. induction s as [|c s IH]; intros acc; cbn [digits_val String.length].
  - intros [= <-]. cbn. lia.
  - destruct (isDigit c) eqn:Hc; [|discriminate]. intros Hv.
    apply IH in Hv. apply digit_val_range in Hc.
    rewrite Nat2Z.inj_succ, Z.pow_succ_r by lia.
    assert (0 < 10 ^ Z.of_nat (String.length s)) by (apply Z.pow_pos_nonneg; lia).
    nia.
Qed.

Lemma substring_length_le (n m : nat) (s : string) :
  (String.length (substring n m s) <= m)%nat.
Proof.
  revert n m. induction s as [|c s IH]; intros [|n] [|m]; cbn; try lia.
  - specialize (IH 0%nat m). lia.
  - apply IH.
  - apply IH.
Qed.

Lemma parse_fraction_range (value : string) (nsec : Z) (value' : string) :
  parse_fraction value = Some (nsec, value') -> 0 <= nsec < 1000000000.
Proof.
  unfold parse_fraction.
  destruct value as [|c0 [|c1 rest]]; try (intros [= <- _]; lia).
  destruct (commaOrPeriod c0 && isDigit c1); [|intros [= <- _]; lia].
  destruct (span_digits (String c1 rest)) as [ds value1].
  destruct (digits_val (substring 0 9 ds) 0) as [ns|] eqn:Hns; [|discriminate].
  intros Heq. assert (Hn : nsec = ns * 10 ^ (9 - Z.of_nat (String.length (substring 0 9 ds))))
    by congruence.
  subst nsec. clear Heq. apply digits_val_range in Hns.
  pose proof (substring_length_le 0 9 ds) as Hlen.
  set (k := Z.of_nat (String.length (substring 0 9 ds))) in *.
  assert (Hk : 0 <= k <= 9) by lia.
  assert (Hpow : 10 ^ k * 10 ^ (9 - k) = 1000000000).
  { rewrite <- Z.pow_add_r by lia. now replace (k + (9 - k)) with 9 by lia. }
  assert (HY : 0 < 10 ^ (9 - k)) by (apply Z.pow_pos_nonneg; lia).
  assert (HX : 0 < 10 ^ k) by (apply Z.pow_pos_nonneg; lia).
  rewrite Z.mul_0_l, Z.add_0_l, Z.mul_1_l in Hns.
  revert Hns Hpow HY HX. generalize (10 ^ k) (10 ^ (9 - k)). intros X Y Hns Hpow HY HX.
  split; [nia|]. rewrite <- Hpow. apply Z.mul_lt_mono_pos_r; lia.
Qed.

(** A parsed time has its nanoseconds within the second. *)
Lemma Parse_normal (value : string) (t : Time) : Parse value = Some t -> normal t.
Proof.
  unfold Parse. destruct (getyear value) as [[year v0]|]; [|discriminate].
  destruct (getnum v0 true) as [[month v1]|]; [|discriminate].
  destruct ((month <=? 0) || (12 <? month)); [discriminate|].
  destruct (getnum v1 true) as [[day v2]|]; [|discriminate].
  destruct (skip_char v2 "T") as [v3|]; [|discriminate].
  destruct (getnum v3 false) as [[hour v4]|]; [|discriminate].
  destruct ((hour <? 0) || (24 <=? hour)); [discriminate|].
  destruct (getnum v4 true) as [[min v5]|]; [|discriminate].
  destruct ((min <? 0) || (60 <=? min)); [discriminate|].
  destruct (getnum v5 true) as [[sec v6]|]; [|discriminate].
  destruct ((sec <? 0) || (60 <=? sec)); [discriminate|].
  destruct (parse_fraction v6) as [[nsec v7]|] eqn:Hfrac; [|discriminate].
  destruct (skip_char v7 "Z") as [[|c v8]|]; try discriminate.
  destruct ((day <? 1) || (daysIn month year <? day)); [discriminate|].
  intros [= <-]. unfold normal, Date. cbn [t_nsec].
  eapply parse_fraction_range; eassumption.
Qed.

(** The test of [cleanup] on the age of a snapshot, in nanoseconds: the
    end of the snapshot lies more than [dur] before [now]. *)
Lemma pruning_by_age (now : Time) (dur : Duration) (endStamp : string) (endT : Time) :
  normal now -> min_int64 < dur <= max_int64 -> Parse endStamp = Some endT ->
  (Before endT (horizon now dur) = true <-> UnixNano endT < UnixNano now - dur).
Proof.
  intros Hnow Hdur Hparse.
  rewrite Before_UnixNano, horizon_UnixNano by
    (try assumption; try (eapply Parse_normal; eassumption); now apply horizon_normal).
  reflexivity.
Qed.

(** C6.  [cleanup] removes a child of the cluster's folder exactly when
    it is a directory, its name has 33 bytes and two dash-separated
    parts, the second part parses with the layout [20060102T150405Z], and
    the parsed time lies more than [dur] before the clock, for every
    duration but the least [int64] (whose negation wraps).  A child
    that is no directory, or whose name has another length, another
    number of parts, or an end stamp that does not parse, is left alone
    without a word.  When the removal fails the error is logged, and in
    every case the loop goes on with the remaining children. *)
Theorem pruning_rule (dur : Duration) (dst : string) (entry : DirEntry) (io : PruneIO) :
  let run := cleanup_entry dur dst entry io in
  (normal (p_now io) -> min_int64 < dur <= max_int64 ->
   (In (EvRemoveAll (join dst (Name entry))) (events run) <->
    IsDir entry = true /\ String.length (Name entry) = 33%nat
    /\ exists startStamp endStamp endT,
         Split (Name entry) "-" = [startStamp; endStamp]
         /\ Parse endStamp = Some endT
         /\ UnixNano endT < UnixNano (p_now io) - dur))
  /\ (IsDir entry = false \/ String.length (Name entry) <> 33%nat
      \/ List.length (Split (Name entry) "-") <> 2%nat
      \/ (forall a b, Split (Name entry) "-" = [a; b] -> Parse b = None) ->
      run = ([], inr tt))
  /\ (forall p, In (EvRemoveAll p) (events run) -> p = join dst (Name entry))
  /\ (forall e, In (EvRemoveAll (join dst (Name entry))) (events run) ->
                p_remove io = Some e ->
                exists ev, In ev (events run) /\ logs_error e ev)
  /\ forall rest,
       cleanup_loop dur dst ((entry, io) :: rest)
       = (events run ++ events (cleanup_loop dur dst rest),
          snd (cleanup_loop dur dst rest)).
Proof.
  cbv zeta. split; [|split; [|split; [|split]]].
  - intros Hnow Hdur. split.
    + intros Hin. destruct (snapshot_end entry) as [endT|] eqn:Hend.
      * destruct (Before endT (horizon (p_now io) dur)) eqn:Hold.
        -- apply snapshot_end_spec in Hend.
           destruct Hend as (Hdir & Hlen & a & b & Hsplit & Hparse).
           apply (pruning_by_age (p_now io) dur b endT Hnow Hdur Hparse) in Hold.
           eauto 10.
        -- rewrite (prune_recent dur dst entry io endT Hend Hold) in Hin. destruct Hin.
      * rewrite (prune_foreign dur dst entry io Hend) in Hin. destruct Hin.
    + intros (Hdir & Hlen & a & b & endT & Hsplit & Hparse & Hold).
      apply (pruning_by_age (p_now io) dur b endT Hnow Hdur Hparse) in Hold.
      assert (Hend : snapshot_end entry = Some endT)
        by (apply snapshot_end_spec; eauto 6).
      rewrite (prune_old dur dst entry io endT Hend Hold). right. now left.
  - intros Hforeign. apply prune_foreign.
    destruct (snapshot_end entry) as [endT|] eqn:Hend; [exfalso|reflexivity].
    apply snapshot_end_spec in Hend.
    destruct Hend as (Hdir & Hlen & a & b & Hsplit & Hparse).
    destruct Hforeign as [H|[H|[H|H]]].
    + congruence.
    + contradiction.
    + rewrite Hsplit in H. now apply H.
    + rewrite (H a b Hsplit) in Hparse. discriminate.
  - intros p Hin. destruct (snapshot_end entry) as [endT|] eqn:Hend.
    + destruct (Before endT (horizon (p_now io) dur)) eqn:Hold.
      * rewrite (prune_old dur dst entry io endT Hend Hold) in Hin.
        destruct Hin as [H|[H|H]]; [discriminate | congruence |].
        destruct (p_remove io); cbn in H; intuition discriminate.
      * rewrite (prune_recent dur dst entry io endT Hend Hold) in Hin. destruct Hin.
    + rewrite (prune_foreign dur dst entry io Hend) in Hin. destruct Hin.
  - intros e Hin Hfail. destruct (snapshot_end entry) as [endT|] eqn:Hend.
    + destruct (Before endT (horizon (p_now io) dur)) eqn:Hold.
      * rewrite (prune_old dur dst entry io endT Hend Hold), Hfail.
        eexists. split; [right; right; now left|].
        eexists. eexists. split; [reflexivity|]. cbn. auto.
      * rewrite (prune_recent dur dst entry io endT Hend Hold) in Hin. destruct Hin.
    + rewrite (prune_foreign dur dst entry io Hend) in Hin. destruct Hin.
  - intros rest. cbn [cleanup_loop].
    pose proof (prune_returns dur dst entry io) as Hret.
    destruct (cleanup_entry dur dst entry io) as [evs r]. cbn in Hret. subst r.
    now rewrite bind_returned.
Qed.

(** The example: a snapshot of the first hour of 2024 is removed two
    hours after its window ended when an hour is to be kept. *)
Lemma pruning_rule_witness :
  In (EvRemoveAll "D:/collect/prod/20240101T000000Z-20240101T010000Z")
     (events (cleanup_entry ex_hour "D:/collect/prod"
                (ex_folder "20240101T000000Z-20240101T010000Z")
                (mkPruneIO (Date 2024 1 1 3 0 0 0) None))).
Proof.
  apply (proj1 (pruning_rule ex_hour "D:/collect/prod"
                  (ex_folder "20240101T000000Z-20240101T010000Z")
                  (mkPruneIO (Date 2024 1 1 3 0 0 0) None))
           ltac:(vm_compute; split; [discriminate | reflexivity])
           ltac:(vm_compute; split; [reflexivity | discriminate])).
  split; [reflexivity|]. split; [reflexivity|].
  exists "20240101T000000Z", "20240101T010000Z", (Date 2024 1 1 1 0 0 0).
  split; [reflexivity|]. split; vm_compute; reflexivity.
Defined.

(** C6, counterexample.  With the least [int64] as the duration the
    product [-1 * dur] wraps to [dur] itself, so the pruner compares with
    an instant some 292 years before the clock, not after it: a snapshot
    whose end lies before the clock minus the duration stays. *)
Lemma pruning_wraps_at_least_duration :
  let entry := ex_folder "20240101T000000Z-20240101T010000Z" in
  let now := Date 2024 1 1 3 0 0 0 in
  (IsDir entry = true /\ String.length (Name entry) = 33%nat
   /\ Split (Name entry) "-" = ["20240101T000000Z"; "20240101T010000Z"]
   /\ Parse "20240101T010000Z" = Some (Date 2024 1 1 1 0 0 0)
   /\ UnixNano (Date 2024 1 1 1 0 0 0) < UnixNano now - min_int64)
  /\ cleanup_entry min_int64 "D:/collect/prod" entry (mkPruneIO now None) = ([], inr tt).
Proof.
  cbv zeta. split; [repeat split|]; vm_compute; reflexivity.
Qed.

(** The folder a run names after its window is one the pruner of a later
    run takes for a snapshot, and the end it reads from the name is the
    end of the window, to the second. *)
Lemma snapshot_name_decodes (startTime endTime : Time) (info : result FileInfo) :
  stampable startTime -> stampable endTime ->
  snapshot_end (mkDirEntry (Format startTime ++ "-" ++ Format endTime) true info)
  = Some (mkTime (t_sec endTime) 0).
Proof.
  intros Hs He. apply snapshot_end_spec. cbn [IsDir Name].
  destruct (Format_shape startTime Hs) as [Hls Hns].
  destruct (Format_shape endTime He) as [Hle Hne].
  split; [reflexivity|]. split.
  - rewrite string_length_app. cbn [append String.length]. rewrite Hls, Hle. reflexivity.
  - exists (Format startTime), (Format endTime). split.
    + cbn [append]. rewrite Split_at_sep, Split_no_sep by assumption. reflexivity.
    + now apply Parse_Format.
Qed.

(* ================================================================== *)
(** * More about the copy loop *)
(* ================================================================== *)

(** A read of a file that does not fail returns the next bytes, as many
    as the buffer holds. *)
Lemma file_Read_chunk (f : osFile) (n : nat) chunk err f' :
  file_Read f (S n) = (chunk, err, f') -> read_failed err = false ->
  chunk = firstn (S n) (unread f).
Proof.
  unfold file_Read. intros Hrd Hok.
  destruct (f_faults f) as [|[msg|] faults].
  - destruct (firstn (S n) (unread f)); now injection Hrd as <- _ _.
  - injection Hrd as <- <- <-. discriminate.
  - destruct (firstn (S n) (unread f)); now injection Hrd as <- _ _.
Qed.

(** X1.  Copying a file (whose reads fill the buffer while bytes are
    left) into a destination that records the calls of [Write]: when
    [copyFile] returns nil, the chunks written, in order, make up the
    unread bytes of the file; no chunk is empty or longer than 1024
    bytes, and every chunk but the last has exactly 1024. *)
Theorem copyFile_chunks (fuel : nat) (s : osFile) (l : chunkLog) (s' : osFile)
    (l' : chunkLog) :
  copyFile fuel s l = Some (None, s', l') ->
  exists chunks,
    l' = l ++ chunks
    /\ List.concat chunks = unread s
    /\ Forall (fun c => (1 <= List.length c <= 1024)%nat) chunks
    /\ Forall (fun c => List.length c = 1024%nat) (removelast chunks).
Proof.
  revert s l. induction fuel as [|fuel IH]; intros s l Hrun; [discriminate|].
  rewrite copyFile_round in Hrun.
  destruct (Read s 1024) as [[chunk rerr] s1] eqn:HRd.
  destruct (read_failed rerr) eqn:Hf.
  { injection Hrun as -> _ _. discriminate. }
  destruct (file_Read_unread s 1023 chunk rerr s1 HRd Hf) as (Hsplit & Hend & _).
  pose proof (file_Read_chunk s 1023 chunk rerr s1 HRd Hf) as Hchunk.
  destruct (List.length chunk =? 0)%nat eqn:Hlen.
  - injection Hrun as _ <-. apply length_eqb_0 in Hlen.
    exists []. rewrite app_nil_r, (Hend Hlen). repeat split; constructor.
  - apply Nat.eqb_neq in Hlen. cbn [Write chunkLog_Writer] in Hrun.
    destruct (IH _ _ Hrun) as (chunks & -> & Hcat & Hsize & Hfull).
    exists (chunk :: chunks). rewrite <- app_assoc. split; [reflexivity|].
    split; [cbn; now rewrite Hcat|].
    assert (Hle : (List.length chunk <= 1024)%nat).
    { rewrite Hchunk. apply firstn_le_length. }
    split; [constructor; [lia | assumption]|].
    destruct chunks as [|c chunks]; [constructor|].
    change (removelast (chunk :: c :: chunks)) with (chunk :: removelast (c :: chunks)).
    constructor; [|assumption].
    assert (Hmore : (List.length (unread s) > List.length chunk)%nat).
    { rewrite Hsplit at 1. rewrite length_app, <- Hcat. cbn [List.concat].
      rewrite length_app. inversion Hsize; subst. lia. }
    rewrite Hchunk in *. rewrite length_firstn in *. lia.
Qed.

(** X2.  A file with at most [1024 * k] unread bytes, whose reads fill
    the buffer while bytes are left, is copied in at most [k + 1] rounds
    of the loop, whatever the destination does: [copyFile] returns. *)
Theorem copyFile_rounds {W : Type} `{Writer W} (k : nat) (s : osFile) (d : W) :
  (List.length (unread s) <= 1024 * k)%nat ->
  exists r, copyFile (S k) s d = Some r.
Proof.
  revert s d. induction k as [|k IH]; intros s d Hlen; rewrite copyFile_round;
    destruct (Read s 1024) as [[chunk rerr] s1] eqn:HRd;
    destruct (read_failed rerr) eqn:Hf; eauto;
    destruct (file_Read_unread s 1023 chunk rerr s1 HRd Hf) as (Hsplit & _ & Hrest);
    pose proof (file_Read_chunk s 1023 chunk rerr s1 HRd Hf) as Hchunk;
    destruct (List.length chunk =? 0)%nat eqn:Hzero; eauto;
    apply Nat.eqb_neq in Hzero.
  - exfalso. apply (f_equal (@List.length byte)) in Hsplit.
    rewrite length_app in Hsplit. lia.
  - destruct (Write d chunk) as [[e|] d1]; eauto.
    apply IH. rewrite Hrest, Hchunk, length_firstn. lia.
Qed.

Lemma copyFile_rounds_witness :
  exists r, copyFile 2 (mkFile ex_bytes 0 []) (mkFile [] 0 []) = Some r.
Proof.
  apply (copyFile_rounds 1 (mkFile ex_bytes 0 []) (mkFile [] 0 [])).
  apply Nat.leb_le. vm_compute. reflexivity.
Defined.

Lemma wc_Write_failed (G : GzipFormat) (d : WriteCloser) (p : list byte) e d' :
  wc_Write G d p = (Some e, d') -> received d' = received d.
Proof.
  destruct d as [f|z]; cbn.
  - unfold file_Write. destruct (f_faults f) as [|[msg|] faults];
      try discriminate. now intros [= _ <-].
  - unfold gzip_Write. destruct (gz_err z) as [e0|].
    + now intros [= _ <-].
    + destruct (gz_wroteHeader z); [discriminate|].
      destruct (Write (gz_w z) (gz_header G)) as [[e1|] w]; [|discriminate].
      now intros [= _ <-].
Qed.

(** X3.  However a copy of a file ends, with nil or with an error, the
    destination has taken in what it held before followed by a prefix of
    the unread bytes of the source: nothing else, and nothing out of
    order. *)
Theorem copyFile_leaves_prefix (G : GzipFormat) (fuel : nat) (s : osFile)
    (d : WriteCloser) (err : option error) (s' : osFile) (d' : WriteCloser) :
  copyFile (H0 := WriteCloser_Writer G) fuel s d = Some (err, s', d') ->
  exists k, received d' = received d ++ firstn k (unread s).
Proof.
  revert s d. induction fuel as [|fuel IH]; intros s d Hrun; [discriminate|].
  rewrite copyFile_round in Hrun.
  destruct (Read s 1024) as [[chunk rerr] s1] eqn:HRd.
  destruct (read_failed rerr) eqn:Hf.
  { injection Hrun as _ _ <-. exists 0%nat. cbn. now rewrite app_nil_r. }
  destruct (file_Read_unread s 1023 chunk rerr s1 HRd Hf) as (Hsplit & _ & _).
  destruct (List.length chunk =? 0)%nat.
  { injection Hrun as _ _ <-. exists 0%nat. cbn. now rewrite app_nil_r. }
  destruct (Write d chunk) as [[e|] d1] eqn:HWr.
  - injection Hrun as _ _ <-. exists 0%nat. cbn [firstn]. rewrite app_nil_r.
    exact (wc_Write_failed G d chunk e d1 HWr).
  - destruct (IH _ _ Hrun) as [k Hk]. exists (List.length chunk + k)%nat.
    rewrite Hk, (wc_Write_received G d chunk d1 HWr), Hsplit, <- app_assoc.
    now rewrite firstn_app_2.
Qed.

Lemma copyFile_chunks_witness :
  let s := mkFile (repeat Byte.x41 1030) 0 [] in
  exists s' l' chunks,
    copyFile 3 s ([] : chunkLog) = Some (None, s', l')
    /\ l' = [] ++ chunks
    /\ List.concat chunks = unread s
    /\ Forall (fun c => (1 <= List.length c <= 1024)%nat) chunks
    /\ Forall (fun c => List.length c = 1024%nat) (removelast chunks).
Proof.
  intros s. eexists. eexists.
  assert (Hrun : copyFile 3 s ([] : chunkLog)
                 = Some (None, mkFile (repeat Byte.x41 1030) 1030 [],
                         [repeat Byte.x41 1024; repeat Byte.x41 6]))
    by (vm_compute; reflexivity).
  destruct (copyFile_chunks 3 s [] _ _ Hrun) as (chunks & H1 & H2 & H3 & H4).
  exists chunks. split; [exact Hrun|]. repeat split; assumption.
Defined.

Lemma copyFile_leaves_prefix_witness :
  exists k,
    received (FileW (mkFile [] 0 []))
    = received (FileW (mkFile [] 0 [Some "disk full"]))
      ++ firstn k (unread (mkFile ex_bytes 0 [])).
Proof.
  refine (copyFile_leaves_prefix stored_format 2 (mkFile ex_bytes 0 [])
            (FileW (mkFile [] 0 [Some "disk full"]))
            (Some (ErrOp "write" "disk full")) (mkFile ex_bytes 10 [])
            (FileW (mkFile [] 0 [])) _).
  vm_compute. reflexivity.
Defined.

(* ================================================================== *)
(** * More about the scan *)
(* ================================================================== *)

Lemma healthy_Write (G : GzipFormat) (d : WriteCloser) (p : list byte) e d' :
  healthy d -> wc_Write G d p = (e, d') -> e = None /\ healthy d'.
Proof.
  destruct d as [f|z]; cbn; unfold healthy; cbn; intros [Hf Herr].
  - unfold file_Write. rewrite Hf. intros [= <- <-]. cbn. auto.
  - unfold gzip_Write. rewrite Herr. destruct (gz_wroteHeader z).
    + intros [= <- <-]. cbn. auto.
    + cbn. unfold file_Write. rewrite Hf. intros [= <- <-]. cbn. auto.
Qed.

(** A file of which no read will fail, copied into a healthy
    destination: the copy returns nil. *)
Lemma copyFile_healthy (G : GzipFormat) (fuel : nat) (s : osFile) (d : WriteCloser)
    err s' d' :
  f_faults s = [] -> healthy d ->
  copyFile (H0 := WriteCloser_Writer G) fuel s d = Some (err, s', d') ->
  err = None /\ healthy d'.
Proof.
  revert s d. induction fuel as [|fuel IH]; intros s d Hs Hd Hrun; [discriminate|].
  rewrite copyFile_round in Hrun.
  assert (Hread : exists chunk rerr,
             Read s 1024 = (chunk, rerr, mkFile (f_data s) (f_pos s + List.length chunk) [])
             /\ read_failed rerr = false).
  { cbn [Read osFile_Reader]. unfold file_Read. rewrite Hs. cbn [tl].
    destruct (firstn 1024 (unread s)) as [|b chunk].
    - exists [], (Some EOF). rewrite Nat.add_0_r. auto.
    - exists (b :: chunk), None. auto. }
  destruct Hread as (chunk & rerr & HRd & Hf). rewrite HRd, Hf in Hrun.
  destruct (List.length chunk =? 0)%nat.
  { injection Hrun as <- _ <-. auto. }
  destruct (Write d chunk) as [e d1] eqn:HWr.
  destruct (healthy_Write G d chunk e d1 Hd HWr) as [-> Hd1].
  eapply IH; [| exact Hd1 | exact Hrun]. reflexivity.
Qed.

(** Closing a healthy compressor that is open works. *)
Lemma healthy_Close (G : GzipFormat) (d : WriteCloser) :
  healthy d -> gzip_open G d -> fst (wc_Close G d) = None.
Proof.
  destruct d as [f|z]; cbn; [tauto|]. unfold healthy. cbn.
  intros [Hf _] (Herr & Hcl & _).
  unfold gzip_Close. rewrite Herr, Hcl.
  destruct (gz_wroteHeader z) eqn:Hh.
  - cbn. rewrite Herr. unfold file_Write. rewrite Hf. reflexivity.
  - unfold gzip_Write. rewrite Herr, Hh. cbn. unfold file_Write. rewrite Hf. reflexivity.
Qed.

(** A selected entry without faults, with enough fuel: the events of the
    body of the loop. *)
Lemma entry_delivered (fuel : nat) (g : Globals) (server src dst : string)
    (f : DirEntry) (io : FileIO) (finfo : FileInfo) (data : list byte) :
  IsDir f = false -> Info f = Ok finfo -> in_window g finfo = true ->
  io_open io = Ok (data, []) -> io_create io = Ok [] ->
  (List.length data < fuel)%nat ->
  let spath := join src (Name f) in
  let dpath := join (join dst server) (targetName g finfo) in
  CopyFiles_entry fuel g server src dst f io
  = ([EvOpen spath; EvCreate dpath; EvClose (SourceFile spath)]
     ++ (if compress g
         then [EvClose (Compressor dpath);
               EvClose (DestFile dpath (compressed (gzip g) data))]
         else [EvClose (DestFile dpath data)])
     ++ EvChtimes dpath (io_now io) (ModTime finfo)
     :: match io_chtimes io with
        | Some err =>
            [EvLog "[error][%s] error setting last modified date on %s: %v"
                   [AStr server; AStr (targetName g finfo); AErr err]]
        | None => []
        end, inr tt).
Proof.
  intros Hdir Hinfo Hwin Hopen Hcreate Hfuel. cbv zeta.
  set (s := mkFile data 0 []). set (d := new_dest (compress g) (mkFile [] 0 [])).
  assert (Hd : healthy d)
    by (subst d; unfold new_dest, healthy; destruct (compress g); cbn; auto).
  destruct (copyFile_file_ends (H := WriteCloser_Writer (gzip g)) fuel s d Hfuel)
    as [[[err s'] d'] Hcopy].
  destruct (copyFile_healthy (gzip g) fuel s d err s' d' eq_refl Hd Hcopy) as [-> Hd'].
  rewrite (entry_copied fuel g server src dst f io finfo Hdir Hinfo Hwin
             data [] Hopen [] Hcreate s' d' Hcopy).
  f_equal. f_equal. f_equal.
  assert (Hall : received d' = received d ++ unread s).
  { apply (copyFile_copies_all (HW := WriteCloser_Writer (gzip g)) unread received)
      with (fuel := fuel) (source' := s'); [| |assumption].
    - intros f0 chunk err f' HRd Hok.
      destruct (file_Read_unread f0 1023 chunk err f' HRd Hok) as (H1 & H2 & _). auto.
    - intros w p w' HWr. now apply (wc_Write_received (gzip g)). }
  pose proof (copy_kind fuel g data [] [] None s' d' Hcopy) as Hkind.
  subst d. unfold new_dest in *. destruct (compress g) eqn:Hc.
  - destruct d' as [fd|z]; [discriminate|]. cbn [closing_events].
    assert (Hopen' : gzip_open (gzip g) (GzipW z)).
    { apply (copyFile_invariant (HW := WriteCloser_Writer (gzip g)) (gzip_open (gzip g)))
        with (fuel := fuel) (source := s) (dest := GzipW (NewWriter (mkFile [] 0 [])))
             (source' := s'); [| |assumption].
      - intros w p w'. apply gzip_open_Write.
      - cbn. auto. }
    pose proof (healthy_Close (gzip g) (GzipW z) Hd' Hopen') as Hclose.
    pose proof (gzip_open_Close (gzip g) (GzipW z)
                  (snd (wc_Close (gzip g) (GzipW z))) Hopen') as Hdata.
    cbn [wc_Close] in Hclose, Hdata. destruct (gzip_Close (gzip g) z) as [e z'].
    cbn [fst snd file_of] in *. subst e. rewrite (Hdata eq_refl).
    cbn [received] in *. rewrite Hall. reflexivity.
  - destruct d' as [fd|z]; [|discriminate]. cbn [closing_events received] in *.
    rewrite Hall. reflexivity.
Qed.


(** X5.  Whenever the body of the loop returns, it has closed exactly the
    streams it opened, each once and in the order source, compressor,
    destination: nothing when the entry is passed over or its source
    cannot be opened, the source alone when the destination cannot be
    created, all of them after a copy, failed or not. *)
Theorem streams_closed_once (fuel : nat) (g : Globals) (server src dst : string)
    (f : DirEntry) (io : FileIO) :
  snd (CopyFiles_entry fuel g server src dst f io) = inr tt ->
  closes (events (CopyFiles_entry fuel g server src dst f io)) = opened_streams g f io.
Proof.
  unfold opened_streams.
  destruct (IsDir f) eqn:Hdir.
  { now rewrite entry_directory by assumption. }
  destruct (Info f) as [finfo|e] eqn:Hinfo.
  2:{ now rewrite (entry_no_info _ _ _ _ _ _ _ e) by assumption. }
  destruct (in_window g finfo) eqn:Hwin.
  2:{ now rewrite (entry_outside _ _ _ _ _ _ _ finfo) by assumption. }
  destruct (io_open io) as [[data faults]|e] eqn:Hopen.
  2:{ now rewrite (entry_open_failed _ _ _ _ _ _ _ finfo Hdir Hinfo Hwin e) by assumption. }
  destruct (io_create io) as [faults'|e] eqn:Hcreate.
  2:{ now rewrite (entry_create_failed _ _ _ _ _ _ _ finfo Hdir Hinfo Hwin data faults
                     Hopen e) by assumption. }
  destruct (copyFile (H0 := WriteCloser_Writer (gzip g)) fuel (mkFile data 0 faults)
              (new_dest (compress g) (mkFile [] 0 faults')))
    as [[[[e|] s'] d']|] eqn:Hcopy.
  - rewrite (entry_copy_failed _ _ _ _ _ _ _ finfo Hdir Hinfo Hwin data faults
               Hopen faults' Hcreate e s' d' Hcopy). intros _.
    rewrite (copy_kind fuel g data faults faults' _ s' d' Hcopy).
    unfold events. cbn [fst]. rewrite closes_app, closes_closing.
    now destruct (is_gzip d').
  - rewrite (entry_copied _ _ _ _ _ _ _ finfo Hdir Hinfo Hwin data faults
               Hopen faults' Hcreate s' d' Hcopy). intros _.
    rewrite (copy_kind fuel g data faults faults' _ s' d' Hcopy).
    unfold events. cbn [fst]. rewrite !closes_app, closes_closing.
    destruct (is_gzip d'), (io_chtimes io); reflexivity.
  - rewrite (entry_hangs _ _ _ _ _ _ _ finfo Hdir Hinfo Hwin data faults
               Hopen faults' Hcreate Hcopy). discriminate.
Qed.

Lemma streams_closed_once_witness :
  closes (events (CopyFiles_entry 2 (ex_globals false) "srv1" "//host1/logs" ex_snapshot
                    (ex_entry "app.tmp")
                    (mkFileIO (Ok (ex_bytes, [])) (Failed (ErrOther "Access is denied."))
                       ex_end None)))
  = [TheSource].
Proof.
  refine (streams_closed_once 2 (ex_globals false) "srv1" "//host1/logs" ex_snapshot
            (ex_entry "app.tmp")
            (mkFileIO (Ok (ex_bytes, [])) (Failed (ErrOther "Access is denied."))
               ex_end None) _).
  vm_compute. reflexivity.
Defined.

Lemma existsb_false_forall {A : Type} (p : A -> bool) (l : list A) :
  existsb p l = false <-> forall x, In x l -> p x = false.
Proof.
  induction l as [|a l IH]; cbn; [tauto|].
  rewrite orb_false_iff, IH. split.
  - intros [Ha Hl] x [<-|Hx]; auto.
  - intros H. split; [apply H; now left | intros x Hx; apply H; now right].
Qed.

(** What the body of the loop does for one entry: it removes nothing,
    opens nothing but the entry under the share, and sets the time of
    nothing but the file it created. *)
Lemma entry_footprint (fuel : nat) (g : Globals) (server src dst : string)
    (f : DirEntry) (io : FileIO) (ev : Event) :
  In ev (events (CopyFiles_entry fuel g server src dst f io)) ->
  match ev with
  | EvRemoveAll _ | EvStat _ | EvMkdirAll _ | EvReadDir _ | EvDone => False
  | EvOpen p => p = join src (Name f)
  | EvChtimes p _ _ =>
      In (EvCreate p) (events (CopyFiles_entry fuel g server src dst f io))
  | _ => True
  end.
Proof.
  destruct (IsDir f) eqn:Hdir.
  { rewrite entry_directory by assumption. intros []. }
  destruct (Info f) as [finfo|e] eqn:Hinfo.
  2:{ rewrite (entry_no_info _ _ _ _ _ _ _ e) by assumption.
      intros [<-|[]]. exact I. }
  destruct (in_window g finfo) eqn:Hwin.
  2:{ rewrite (entry_outside _ _ _ _ _ _ _ finfo) by assumption. intros []. }
  destruct (io_open io) as [[data faults]|e] eqn:Hopen.
  2:{ rewrite (entry_open_failed _ _ _ _ _ _ _ finfo Hdir Hinfo Hwin e) by assumption.
      intros [<-|[<-|[]]]; [reflexivity | exact I]. }
  destruct (io_create io) as [faults'|e] eqn:Hcreate.
  2:{ rewrite (entry_create_failed _ _ _ _ _ _ _ finfo Hdir Hinfo Hwin data faults
                 Hopen e) by assumption.
      intros [<-|[<-|[<-|[<-|[]]]]]; try exact I. reflexivity. }
  destruct (copyFile (H0 := WriteCloser_Writer (gzip g)) fuel (mkFile data 0 faults)
              (new_dest (compress g) (mkFile [] 0 faults')))
    as [[[[e|] s'] d']|] eqn:Hcopy.
  - rewrite (entry_copy_failed _ _ _ _ _ _ _ finfo Hdir Hinfo Hwin data faults
               Hopen faults' Hcreate e s' d' Hcopy).
    unfold events. cbn [fst]. rewrite in_app_iff.
    intros [[<-|[<-|[<-|[<-|[]]]]]|Hin]; try exact I; try reflexivity.
    destruct d'; cbn in Hin; intuition (subst; exact I).
  - rewrite (entry_copied _ _ _ _ _ _ _ finfo Hdir Hinfo Hwin data faults
               Hopen faults' Hcreate s' d' Hcopy).
    unfold events. cbn [fst]. rewrite !in_app_iff. cbn [In].
    intros [[<-|[<-|[<-|[]]]]|[Hin|[<-|Hin]]]; try exact I; try reflexivity.
    + destruct d'; cbn in Hin; intuition (subst; exact I).
    + cbv beta iota. rewrite in_app_iff. left. right. now left.
    + destruct (io_chtimes io); cbn in Hin; intuition (subst; exact I).
  - rewrite (entry_hangs _ _ _ _ _ _ _ finfo Hdir Hinfo Hwin data faults
               Hopen faults' Hcreate Hcopy).
    intros [<-|[<-|[]]]; [reflexivity | exact I].
Qed.

(** The events of a scan, but for those of its loop. *)
Lemma scan_events (fuel : nat) (g : Globals) (server src dst : string) (io : ScanIO)
    (ev : Event) :
  In ev (events (CopyFiles fuel g server src dst io)) ->
  (exists format args, ev = EvLog format args)
  \/ ev = EvStat (join dst server)
  \/ (ev = EvMkdirAll (join dst server)
      /\ exists pe, io_stat io = Some pe /\ is_ErrNotExist (Err pe) = true)
  \/ (ev = EvReadDir src /\ folder_ready io = true)
  \/ ev = EvDone
  \/ exists sdir, io_readdir io = Ok sdir /\ folder_ready io = true
                  /\ In ev (events (CopyFiles_loop fuel g server src dst sdir)).
Proof.
  unfold CopyFiles, folder_ready. intros Hin.
  apply events_defer in Hin. destruct Hin as [Hin|[<-|[]]]; [|tauto].
  rewrite bind_log in Hin. destruct Hin as [<-|Hin]; [eauto|].
  cbn [fst] in Hin. rewrite bind_emit in Hin. destruct Hin as [<-|Hin]; [tauto|].
  cbn [fst] in Hin. apply events_bind in Hin. destruct Hin as [Hin|(a & Hret & Hin)].
  - destruct (io_stat io) as [pe|]; [|destruct Hin].
    destruct (is_ErrNotExist (Err pe)) eqn:Hne.
    + rewrite bind_emit in Hin. destruct Hin as [<-|Hin]; [eauto 10|].
      destruct (io_mkdir io); cbn in Hin; [|tauto].
      destruct Hin as [<-|[]]. eauto.
    + cbn in Hin. destruct Hin as [<-|[]]. eauto.
  - assert (Hready : match io_stat io with
                     | Some err => is_ErrNotExist (Err err) &&
                                   match io_mkdir io with None => true | Some _ => false end
                     | None => true
                     end = true).
    { destruct (io_stat io) as [pe|]; [|reflexivity].
      destruct (is_ErrNotExist (Err pe)); [|discriminate Hret].
      rewrite bind_emit in Hret. destruct (io_mkdir io); [discriminate Hret|reflexivity]. }
    rewrite bind_emit in Hin. destruct Hin as [<-|Hin]; [tauto|].
    cbn [fst] in Hin. destruct (io_readdir io) as [sdir|e].
    + apply events_bind in Hin. destruct Hin as [Hin|(_ & _ & Hin)]; [eauto 10|].
      destruct Hin as [<-|[]]. eauto.
    + destruct Hin as [<-|[]]. eauto.
Qed.

(** An event of the loop comes from the body on an entry all of whose
    events are events of the loop. *)
Lemma loop_events_whole (fuel : nat) (g : Globals) (server src dst : string)
    (sdir : list (DirEntry * FileIO)) (ev : Event) :
  In ev (events (CopyFiles_loop fuel g server src dst sdir)) ->
  exists f io,
    In (f, io) sdir /\ In ev (events (CopyFiles_entry fuel g server src dst f io))
    /\ forall ev', In ev' (events (CopyFiles_entry fuel g server src dst f io)) ->
                   In ev' (events (CopyFiles_loop fuel g server src dst sdir)).
Proof.
  induction sdir as [|[f io] rest IH]; cbn [CopyFiles_loop]; [intros []|].
  rewrite events_bind. intros [H|(a & Hret & H)].
  - exists f, io. split; [now left|]. split; [assumption|].
    intros ev' Hev'. apply events_bind. now left.
  - destruct (IH H) as (f' & io' & Hin & Hev & Hwhole).
    exists f', io'. split; [now right|]. split; [assumption|].
    intros ev' Hev'. apply events_bind. right. exists a. auto.
Qed.

(** Once the destination folder is ready and the share is listed, the
    events of the loop are events of the scan. *)
Lemma scan_loop_events (fuel : nat) (g : Globals) (server src dst : string) (io : ScanIO)
    (sdir : list (DirEntry * FileIO)) :
  folder_ready io = true -> io_readdir io = Ok sdir ->
  forall ev, In ev (events (CopyFiles_loop fuel g server src dst sdir)) ->
             In ev (events (CopyFiles fuel g server src dst io)).
Proof.
  unfold CopyFiles, folder_ready. intros Hready Hl ev Hin. rewrite Hl.
  assert (Hbody : forall (A : Type) (body : M A) (deferred : M unit),
             In ev (events body) -> In ev (events (defer body deferred))).
  { intros A [evs [st|a]] deferred; cbn; [auto|]. rewrite in_app_iff. auto. }
  apply Hbody. rewrite bind_log. right. cbn [fst]. rewrite bind_emit. right. cbn [fst].
  apply events_bind. right. exists tt. split.
  - destruct (io_stat io) as [pe|]; [|reflexivity].
    apply andb_true_iff in Hready. destruct Hready as [-> Hmk].
    rewrite bind_emit. destruct (io_mkdir io); [discriminate | reflexivity].
  - rewrite bind_emit. right. cbn [fst]. apply events_bind. now left.
Qed.

(** X6.  A scan removes nothing; it opens only entries of the listing,
    under the share; and it sets the modification time of no file but
    one it has created itself. *)
Theorem scan_footprint (fuel : nat) (g : Globals) (server src dst : string) (io : ScanIO) :
  let evs := events (CopyFiles fuel g server src dst io) in
  existsb is_remove evs = false
  /\ (forall p, In (EvOpen p) evs ->
        exists sdir f fio, io_readdir io = Ok sdir /\ In (f, fio) sdir
                           /\ p = join src (Name f))
  /\ (forall p a m, In (EvChtimes p a m) evs -> In (EvCreate p) evs).
Proof.
  cbv zeta. split; [|split].
  - apply existsb_false_forall. intros ev Hin.
    destruct ev; try reflexivity. exfalso.
    apply scan_events in Hin.
    destruct Hin as [(fm & args & H)|[H|[[H _]|[[H _]|[H|(sdir & _ & _ & Hin)]]]]];
      try discriminate.
    apply loop_events_from_entry in Hin. destruct Hin as (f & fio & _ & Hin).
    exact (entry_footprint _ _ _ _ _ _ _ _ Hin).
  - intros p Hin. apply scan_events in Hin.
    destruct Hin as [(fm & args & H)|[H|[[H _]|[[H _]|[H|(sdir & Hl & _ & Hin)]]]]];
      try discriminate.
    apply loop_events_from_entry in Hin. destruct Hin as (f & fio & Hmem & Hin).
    exists sdir, f, fio. repeat split; try assumption.
    exact (entry_footprint _ _ _ _ _ _ _ _ Hin).
  - intros p a m Hin. pose proof Hin as Hin0. apply scan_events in Hin.
    destruct Hin as [(fm & args & H)|[H|[[H _]|[[H _]|[H|(sdir & Hl & Hready & Hin)]]]]];
      try discriminate.
    apply loop_events_whole in Hin. destruct Hin as (f & fio & _ & Hin & Hwhole).
    apply (scan_loop_events fuel g server src dst io sdir Hready Hl).
    apply Hwhole. exact (entry_footprint _ _ _ _ _ _ _ _ Hin).
Qed.

(** X7.  With fuel enough for every copy, the loop handles the entries
    one by one in the order of the listing, and what it does for an entry
    does not depend on the others: its events are those of the body on
    each entry, one after the other, and it returns. *)
Theorem scan_in_listing_order (fuel : nat) (g : Globals) (server src dst : string)
    (sdir : list (DirEntry * FileIO)) :
  enough_fuel fuel sdir ->
  CopyFiles_loop fuel g server src dst sdir
  = (flat_map (fun e => events (CopyFiles_entry fuel g server src dst (fst e) (snd e)))
       sdir, inr tt).
Proof.
  induction sdir as [|[f io] rest IH]; intros Hfuel; [reflexivity|].
  rewrite loop_goes_on.
  - rewrite IH; [reflexivity|].
    intros f' io' data faults Hin Hopen.
    apply (Hfuel f' io' data faults); [now right | assumption].
  - apply entry_returns. intros data faults Hopen.
    apply (Hfuel f io data faults); [now left | assumption].
Qed.

Lemma scan_in_listing_order_witness :
  CopyFiles_loop 11 (ex_globals false) "srv1" "//host1/logs" ex_snapshot
    [(ex_entry "app.log", ex_io); (ex_entry "app.tmp", ex_io)]
  = (events (CopyFiles_entry 11 (ex_globals false) "srv1" "//host1/logs" ex_snapshot
               (ex_entry "app.log") ex_io)
     ++ events (CopyFiles_entry 11 (ex_globals false) "srv1" "//host1/logs" ex_snapshot
                  (ex_entry "app.tmp") ex_io) ++ [], inr tt).
Proof.
  apply (scan_in_listing_order 11 (ex_globals false) "srv1" "//host1/logs" ex_snapshot
           [(ex_entry "app.log", ex_io); (ex_entry "app.tmp", ex_io)]).
  intros f io data faults [[= <- <-]|[[= <- <-]|[]]] [= <- <-];
    apply Nat.ltb_lt; vm_compute; reflexivity.
Defined.

Lemma defer_keeps {A : Type} (body : M A) (deferred : M unit) (ev : Event) :
  In ev (events body) -> In ev (events (defer body deferred)).
Proof.
  destruct body as [evs [st|a]]; cbn; [auto|]. rewrite in_app_iff. auto.
Qed.

(** X8.  A scan calls [os.MkdirAll], on the folder of the server, exactly
    when [os.Stat] reports that the folder does not exist; it lists the
    share exactly when the folder exists or has been created. *)
Theorem folder_made_when_absent (fuel : nat) (g : Globals) (server src dst : string)
    (io : ScanIO) (p : string) :
  let evs := events (CopyFiles fuel g server src dst io) in
  (In (EvMkdirAll p) evs <->
   p = join dst server
   /\ exists pe, io_stat io = Some pe /\ is_ErrNotExist (Err pe) = true)
  /\ (In (EvReadDir p) evs <-> p = src /\ folder_ready io = true).
Proof.
  cbv zeta. split; split.
  - intros Hin. apply scan_events in Hin.
    destruct Hin as [(fm & args & H)|[H|[[H Hpe]|[[H _]|[H|(sdir & _ & _ & Hin)]]]]];
      try discriminate.
    + injection H as ->. auto.
    + apply loop_events_from_entry in Hin. destruct Hin as (f & fio & _ & Hin).
      destruct (entry_footprint _ _ _ _ _ _ _ _ Hin).
  - intros (-> & pe & Hstat & Hne). unfold CopyFiles. apply defer_keeps.
    rewrite bind_log. right. cbn [fst]. rewrite bind_emit. right. cbn [fst].
    apply events_bind. left. rewrite Hstat, Hne, bind_emit. now left.
  - intros Hin. apply scan_events in Hin.
    destruct Hin as [(fm & args & H)|[H|[[H _]|[[H Hready]|[H|(sdir & _ & _ & Hin)]]]]];
      try discriminate.
    + injection H as ->. auto.
    + apply loop_events_from_entry in Hin. destruct Hin as (f & fio & _ & Hin).
      destruct (entry_footprint _ _ _ _ _ _ _ _ Hin).
  - intros (-> & Hready). unfold CopyFiles, folder_ready in *. apply defer_keeps.
    rewrite bind_log. right. cbn [fst]. rewrite bind_emit. right. cbn [fst].
    apply events_bind. right. exists tt. split.
    + destruct (io_stat io) as [pe|]; [|reflexivity].
      apply andb_true_iff in Hready. destruct Hready as [-> Hmk].
      rewrite bind_emit. destruct (io_mkdir io); [discriminate | reflexivity].
    + rewrite bind_emit. now left.
Qed.

(** X9.  The creation time the scan computes is exact, to 100 ns, for
    every [Filetime] between 1677-09-21 and 2262-04-11 (the times whose
    nanoseconds since 1970 fit an [int64]): it lies
    [(ticks - 116444736000000000) * 100] nanoseconds after the epoch. *)
Theorem creation_time_exact (finfo : FileInfo) :
  filetime_ok (CreationTime (Sys finfo)) ->
  116444736000000000 - 92233720368547758 <= ticks (CreationTime (Sys finfo))
    <= 116444736000000000 + 92233720368547758 ->
  UnixNano (fCreate finfo) = (ticks (CreationTime (Sys finfo)) - 116444736000000000) * 100
  /\ normal (fCreate finfo).
Proof.
  unfold filetime_ok, ticks, fCreate. intros [Hlow Hhigh] Hrange.
  split; [|apply Unix_normal].
  rewrite Unix_UnixNano. unfold Nanoseconds, mul64, sub64, add64.
  rewrite Z.shiftl_mul_pow2 by lia.
  rewrite (wrap64_small (HighDateTime _ * 2 ^ 32))
    by (unfold min_int64, max_int64; lia).
  rewrite (wrap64_small (_ + LowDateTime _)) by (unfold min_int64, max_int64; lia).
  rewrite (wrap64_small (_ - 116444736000000000))
    by (unfold min_int64, max_int64; lia).
  rewrite wrap64_small by (unfold min_int64, max_int64; lia).
  lia.
Qed.

Lemma creation_time_exact_witness :
  UnixNano (fCreate (ex_info "app.tmp")) = 1704063600 * 1000000000.
Proof.
  refine (eq_trans (proj1 (creation_time_exact (ex_info "app.tmp") _ _)) _).
  - vm_compute. repeat split; discriminate.
  - vm_compute. split; discriminate.
  - vm_compute. reflexivity.
Defined.

(* ================================================================== *)
(** * More about pruning *)
(* ================================================================== *)

Lemma snd_unit_bind {B : Type} (m : M unit) (k : M B) :
  snd m = inr tt -> snd (m ;;; k) = snd k.
Proof.
  destruct m as [evs [st|[]]]; cbn; [discriminate|]. intros _. now destruct k.
Qed.

Lemma events_unit_bind {B : Type} (m : M unit) (k : M B) :
  snd m = inr tt -> events (m ;;; k) = events m ++ events k.
Proof.
  destruct m as [evs [st|[]]]; cbn; [discriminate|]. intros _. now destruct k.
Qed.

Lemma cleanup_loop_returns (dur : Duration) (dst : string)
    (entries : list (DirEntry * PruneIO)) :
  snd (cleanup_loop dur dst entries) = inr tt.
Proof.
  induction entries as [|[entry io] rest IH]; [reflexivity|].
  cbn [cleanup_loop]. rewrite (snd_unit_bind _ _ (prune_returns dur dst entry io)).
  exact IH.
Qed.

Lemma cleanup_loop_events (dur : Duration) (dst : string)
    (entries : list (DirEntry * PruneIO)) :
  events (cleanup_loop dur dst entries)
  = flat_map (fun e => events (cleanup_entry dur dst (fst e) (snd e))) entries.
Proof.
  induction entries as [|[entry io] rest IH]; [reflexivity|].
  cbn [cleanup_loop flat_map fst snd].
  rewrite (events_unit_bind _ _ (prune_returns dur dst entry io)). now rewrite IH.
Qed.

Lemma prune_removal (dur : Duration) (dst : string) (entry : DirEntry) (io : PruneIO)
    (p : string) :
  In (EvRemoveAll p) (events (cleanup_entry dur dst entry io)) <->
  exists endT, snapshot_end entry = Some endT
               /\ Before endT (horizon (p_now io) dur) = true
               /\ p = join dst (Name entry).
Proof.
  split.
  - intros Hin. destruct (snapshot_end entry) as [endT|] eqn:Hend.
    + destruct (Before endT (horizon (p_now io) dur)) eqn:Hold.
      * rewrite (prune_old dur dst entry io endT Hend Hold) in Hin.
        exists endT. split; [reflexivity|]. split; [exact Hold|].
        cbn in Hin. destruct Hin as [Hin|[Hin|Hin]]; try discriminate.
        -- now injection Hin as <-.
        -- destruct (p_remove io); cbn in Hin; [destruct Hin as [Hin|[]]; discriminate|].
           destruct Hin.
      * rewrite (prune_recent dur dst entry io endT Hend Hold) in Hin. destruct Hin.
    + rewrite (prune_foreign dur dst entry io Hend) in Hin. destruct Hin.
  - intros (endT & Hend & Hold & ->).
    rewrite (prune_old dur dst entry io endT Hend Hold). right. now left.
Qed.

Lemma prune_event_kinds (dur : Duration) (dst : string) (entry : DirEntry) (io : PruneIO)
    (ev : Event) :
  In ev (events (cleanup_entry dur dst entry io)) ->
  match ev with EvLog _ _ | EvRemoveAll _ => True | _ => False end.
Proof.
  intros Hin. destruct (snapshot_end entry) as [endT|] eqn:Hend.
  - destruct (Before endT (horizon (p_now io) dur)) eqn:Hold.
    + rewrite (prune_old dur dst entry io endT Hend Hold) in Hin.
      cbn in Hin. destruct Hin as [<-|[<-|Hin]]; try exact I.
      destruct (p_remove io); cbn in Hin; [destruct Hin as [<-|[]]; exact I|destruct Hin].
    + rewrite (prune_recent dur dst entry io endT Hend Hold) in Hin. destruct Hin.
  - rewrite (prune_foreign dur dst entry io Hend) in Hin. destruct Hin.
Qed.

(** X10.  What [cleanup] reaches.  It lists the folder of the cluster and
    nothing else; when the listing fails it logs and exits with status 1
    before anything is removed; otherwise it returns, after the steps of
    the entries in the order of the listing.  What it removes is always a
    direct child of the cluster's folder that the listing gave as a
    directory with a name of 33 bytes, and besides listing, logging and
    removing it does nothing to the file system. *)
Theorem cleanup_scope (dur : Duration) (root cluster : string)
    (readdir : result (list (DirEntry * PruneIO))) :
  let dst := join root cluster in
  let run := cleanup dur root cluster readdir in
  (forall err, readdir = Failed err ->
     run = ([EvReadDir dst; EvLog "cannot read from folder %q: %v" [AStr dst; AErr err]],
            inl (Exit 1)))
  /\ (forall entries, readdir = Ok entries ->
        run = (EvReadDir dst
                 :: flat_map (fun e => events (cleanup_entry dur dst (fst e) (snd e))) entries,
               inr tt))
  /\ (forall p, In (EvRemoveAll p) (events run) ->
        exists entries entry io,
          readdir = Ok entries /\ In (entry, io) entries /\ IsDir entry = true
          /\ String.length (Name entry) = 33%nat /\ p = join dst (Name entry))
  /\ (forall ev, In ev (events run) ->
        match ev with
        | EvLog _ _ | EvRemoveAll _ => True
        | EvReadDir p => p = dst
        | _ => False
        end).
Proof.
  cbv zeta.
  assert (Hok : forall entries, readdir = Ok entries ->
            cleanup dur root cluster readdir
            = (EvReadDir (join root cluster)
                 :: flat_map (fun e => events (cleanup_entry dur (join root cluster)
                                                 (fst e) (snd e))) entries,
               inr tt)).
  { intros entries ->. unfold cleanup. cbv zeta.
    pose proof (cleanup_loop_returns dur (join root cluster) entries) as Hret.
    pose proof (cleanup_loop_events dur (join root cluster) entries) as Hev.
    destruct (cleanup_loop dur (join root cluster) entries) as [evs r].
    cbn in Hret, Hev. subst r evs. reflexivity. }
  split; [|split; [exact Hok|split]].
  - intros err ->. reflexivity.
  - intros p Hin. destruct readdir as [entries|err].
    + rewrite (Hok entries eq_refl) in Hin. cbn [events fst] in Hin.
      destruct Hin as [Hin|Hin]; [discriminate|].
      apply in_flat_map in Hin. destruct Hin as ([entry io] & Hmem & Hin).
      cbn [fst snd] in Hin. apply prune_removal in Hin.
      destruct Hin as (endT & Hend & _ & ->).
      apply snapshot_end_spec in Hend. destruct Hend as (Hdir & Hlen & _).
      exists entries, entry, io. repeat split; assumption.
    + cbn in Hin. destruct Hin as [Hin|[Hin|[]]]; discriminate.
  - intros ev Hin. destruct readdir as [entries|err].
    + rewrite (Hok entries eq_refl) in Hin. cbn [events fst] in Hin.
      destruct Hin as [<-|Hin]; [reflexivity|].
      apply in_flat_map in Hin. destruct Hin as ([entry io] & _ & Hin).
      cbn [fst snd] in Hin. apply prune_event_kinds in Hin.
      destruct ev; try exact Hin; destruct Hin.
    + cbn in Hin. destruct Hin as [<-|[<-|[]]]; [reflexivity|exact I].
Qed.

(** X11.  Pruning is monotone: a folder that is removed at some instant
    with some retention is also removed at any later instant and with any
    shorter retention (whatever [os.RemoveAll] answers). *)
Theorem pruning_monotone (dur dur' : Duration) (dst : string) (entry : DirEntry)
    (now now' : Time) (r r' : option error) (p : string) :
  normal now -> normal now' -> UnixNano now <= UnixNano now' ->
  min_int64 < dur' -> dur' <= dur -> dur <= max_int64 ->
  In (EvRemoveAll p) (events (cleanup_entry dur dst entry (mkPruneIO now r))) ->
  In (EvRemoveAll p) (events (cleanup_entry dur' dst entry (mkPruneIO now' r'))).
Proof.
  intros Hnow Hnow' Hle Hmin Hdd Hmax Hin.
  apply prune_removal in Hin. destruct Hin as (endT & Hend & Hold & ->).
  apply prune_removal. exists endT. split; [assumption|]. split; [|reflexivity].
  cbn [p_now] in *.
  pose proof (proj1 (snapshot_end_spec entry endT) Hend) as (_ & _ & a & b & _ & Hparse).
  apply (pruning_by_age now dur b endT Hnow ltac:(lia) Hparse) in Hold.
  apply (pruning_by_age now' dur' b endT Hnow' ltac:(lia) Hparse). lia.
Qed.

Lemma pruning_monotone_witness :
  In (EvRemoveAll "D:/collect/prod/20240101T000000Z-20240101T010000Z")
     (events (cleanup_entry 60000000000 "D:/collect/prod"
                (ex_folder "20240101T000000Z-20240101T010000Z")
                (mkPruneIO (Date 2024 1 2 0 0 0 0) (Some (ErrOther "in use"))))).
Proof.
  apply (pruning_monotone ex_hour 60000000000 "D:/collect/prod"
           (ex_folder "20240101T000000Z-20240101T010000Z")
           (Date 2024 1 1 3 0 0 0) (Date 2024 1 2 0 0 0 0) None (Some (ErrOther "in use"))).
  - vm_compute. split; [discriminate|reflexivity].
  - vm_compute. split; [discriminate|reflexivity].
  - vm_compute. discriminate.
  - vm_compute. reflexivity.
  - vm_compute. discriminate.
  - vm_compute. discriminate.
  - vm_compute. auto.
Defined.

(** X12.  The snapshot folder a run writes (line 85 of [main]) and the
    pruning of a later run fit together: when the pruner meets the folder
    named after the window [startTime .. endTime] under the same root and
    cluster, it removes exactly that folder, and it does so if and only
    if the end of the window, cut to the whole second, lies more than
    [dur] before the pruner's clock. *)
Theorem snapshot_pruned_by_age (root cluster : string) (startTime endTime now : Time)
    (dur : Duration) (info : result FileInfo) (r : option error) :
  stampable startTime -> stampable endTime -> normal now ->
  min_int64 < dur <= max_int64 ->
  let entry := mkDirEntry (Format startTime ++ "-" ++ Format endTime) true info in
  let run := cleanup_entry dur (join root cluster) entry (mkPruneIO now r) in
  (forall p, In (EvRemoveAll p) (events run) ->
             p = destination root cluster startTime endTime)
  /\ (In (EvRemoveAll (destination root cluster startTime endTime)) (events run)
      <-> t_sec endTime * 1000000000 < UnixNano now - dur).
Proof.
  intros Hs He Hnow Hdur. cbv zeta.
  pose proof (snapshot_name_decodes startTime endTime info Hs He) as Hend.
  assert (Hpath : join (join root cluster) (Format startTime ++ "-" ++ Format endTime)
                  = destination root cluster startTime endTime).
  { unfold join, destination. now rewrite !string_app_assoc. }
  assert (Hage : Before (mkTime (t_sec endTime) 0) (horizon now dur) = true
                 <-> t_sec endTime * 1000000000 < UnixNano now - dur).
  { rewrite Before_UnixNano, horizon_UnixNano by
      (try assumption; try (now apply horizon_normal); unfold normal; cbn; lia).
    unfold UnixNano at 1. cbn [t_sec t_nsec]. lia. }
  split.
  - intros p Hin. apply prune_removal in Hin. destruct Hin as (endT & _ & _ & ->).
    exact Hpath.
  - rewrite prune_removal. cbn [Name p_now]. split.
    + intros (endT & HendT & Hold & _). rewrite Hend in HendT.
      injection HendT as <-. now apply Hage.
    + intros Hlt. exists (mkTime (t_sec endTime) 0).
      split; [exact Hend|]. split; [now apply Hage | now rewrite Hpath].
Qed.

Lemma snapshot_pruned_by_age_witness :
  In (EvRemoveAll ex_snapshot)
     (events (cleanup_entry ex_hour (join "D:/collect" "prod")
                (mkDirEntry (Format ex_start ++ "-" ++ Format ex_end) true
                   (Failed ErrNotExist))
                (mkPruneIO (Date 2024 1 1 3 0 0 0) None))).
Proof.
  apply (proj2 (snapshot_pruned_by_age "D:/collect" "prod" ex_start ex_end
                  (Date 2024 1 1 3 0 0 0) ex_hour (Failed ErrNotExist) None
                  ltac:(vm_compute; split; discriminate)
                  ltac:(vm_compute; split; discriminate)
                  ltac:(vm_compute; split; [discriminate|reflexivity])
                  ltac:(vm_compute; split; [reflexivity|discriminate]))).
  vm_compute. reflexivity.
Defined.

(* ================================================================== *)
(** * More about [main] *)
(* ================================================================== *)

Lemma normal_UnixNano_inj (t u : Time) :
  normal t -> normal u -> UnixNano t = UnixNano u -> t = u.
Proof.
  destruct t as [s n], u as [s' n']. unfold normal, UnixNano. cbn [t_sec t_nsec].
  intros Ht Hu Heq. assert (s = s') by lia. subst s'. f_equal. lia.
Qed.

Lemma digit_char_not_space (a : Z) :
  0 <= a <= 9 -> Ascii.eqb (digit_char a) " " = false.
Proof.
  intros Ha.
  assert (Hcases : a = 0 \/ a = 1 \/ a = 2 \/ a = 3 \/ a = 4 \/ a = 5 \/ a = 6
                   \/ a = 7 \/ a = 8 \/ a = 9) by lia.
  repeat (destruct Hcases as [->|Hcases]; [reflexivity|]).
  subst a. reflexivity.
Qed.

Lemma cutspace_two_digits (n : Z) (rest : string) :
  0 <= n < 100 -> cutspace (two_digits n ++ rest) = (two_digits n ++ rest)%string.
Proof.
  intros Hn. unfold two_digits. cbn [append cutspace].
  rewrite digit_char_not_space; [reflexivity|].
  split; [apply Z.div_pos; lia | apply Z.lt_succ_r, Z.div_lt_upper_bound; lia].
Qed.

Lemma string_app_nil_r (s : string) : (s ++ "")%string = s.
Proof. induction s as [|c s IH]; cbn; [reflexivity | now rewrite IH]. Qed.

(** The start flag in its usual form parses, to the date and time it
    spells, exactly when the day exists in the month. *)
Lemma ParseStart_fields (y m d H M S : Z) :
  0 <= y <= 9999 -> 1 <= m <= 12 -> 0 <= d < 100 ->
  0 <= H < 24 -> 0 <= M < 60 -> 0 <= S < 60 ->
  ParseStart (start_text y m d H M S)
  = if (d <? 1) || (daysIn m y <? d) then None else Some (Date y m d H M S 0).
Proof.
  intros Hy Hm Hd HH HM HS. unfold ParseStart, start_text.
  rewrite getyear_four by assumption. cbn [append skip_char Ascii.eqb Bool.eqb].
  rewrite getnum_two by lia.
  replace ((m <=? 0) || (12 <? m)) with false by lia.
  cbn [append skip_char Ascii.eqb Bool.eqb].
  rewrite getnum_two by lia.
  cbn [append skip_space Ascii.eqb Bool.eqb cutspace].
  rewrite cutspace_two_digits by lia.
  rewrite getnum_two by lia.
  replace ((H <? 0) || (24 <=? H)) with false by lia.
  cbn [append skip_char Ascii.eqb Bool.eqb].
  rewrite getnum_two by lia.
  replace ((M <? 0) || (60 <=? M)) with false by lia.
  cbn [append skip_char Ascii.eqb Bool.eqb].
  rewrite <- (string_app_nil_r (two_digits S)).
  rewrite getnum_two by lia.
  replace ((S <? 0) || (60 <=? S)) with false by lia.
  reflexivity.
Qed.

(** X13.  A run without [-start] (and without [-clean]) looks at the
    last [dur] nanoseconds: its window starts [dur] before the clock and
    ends at the clock exactly, it logs nothing before the scans, every
    scan gets the snapshot folder named after this window, and a scan
    selects a file whose creation instant fits an [int64] of nanoseconds
    since 1970 exactly when the file was modified less than [dur] ago,
    created before now, and is called [*.tmp]. *)
Theorem main_default_window (IsAbs : string -> bool) (wd configured : string)
    (keys : list Key) (fl : Flags) (now : Time)
    (readdir : result (list (DirEntry * PruneIO))) :
  fl_clean fl = false -> fl_start fl = "" -> normal now ->
  min_int64 < fl_dur fl -> fl_dur fl <= max_int64 ->
  exists startTime,
    main IsAbs wd configured keys fl now readdir
    = ([], inr (mkPlan startTime now
                  (main_launches keys
                     (destination (destination_root IsAbs wd configured) (fl_cluster fl)
                        startTime now))))
    /\ normal startTime
    /\ UnixNano startTime = UnixNano now - fl_dur fl
    /\ forall (gz : GzipFormat) (finfo : FileInfo),
         normal (ModTime finfo) ->
         filetime_ok (CreationTime (Sys finfo)) ->
         min_int64 <= created_at finfo <= max_int64 ->
         (in_window (mkGlobals (fl_compress fl) startTime now gz) finfo = true <->
          UnixNano now - fl_dur fl < UnixNano (ModTime finfo)
          /\ created_at finfo < UnixNano now
          /\ exists stem, fi_Name finfo = (stem ++ ".tmp")%string).
Proof.
  intros Hclean Hstart Hnow Hmin Hmax.
  exists (horizon now (fl_dur fl)).
  pose proof (horizon_normal now (fl_dur fl) Hnow) as Hn.
  pose proof (horizon_UnixNano now (fl_dur fl) (conj Hmin Hmax)) as Hu.
  assert (Hend : Add (horizon now (fl_dur fl)) (fl_dur fl) = now).
  { apply normal_UnixNano_inj; [now apply Add_normal | assumption|].
    rewrite Add_UnixNano, Hu. lia. }
  split; [|split; [exact Hn|split; [exact Hu|]]].
  - unfold main. rewrite Hclean, Hstart. cbn [String.length Nat.eqb].
    unfold ret, bind. fold (horizon now (fl_dur fl)). rewrite Hend. reflexivity.
  - intros gz finfo Hmod Hft Hrange.
    rewrite in_window_spec by assumption. cbn [startTime endTime].
    now rewrite Hu, (fCreate_UnixNano finfo Hft Hrange).
Qed.

Lemma main_default_window_witness :
  exists startTime,
    main (fun _ => true) "C:\tools" "D:/collect" [mkKey "srv1" "host1"]
      (mkFlags "" ex_hour "prod" false false) (Date 2024 1 1 1 0 0 0) (Ok [])
    = ([], inr (mkPlan startTime (Date 2024 1 1 1 0 0 0)
                  (main_launches [mkKey "srv1" "host1"]
                     (destination (destination_root (fun _ => true) "C:\tools" "D:/collect")
                        "prod" startTime (Date 2024 1 1 1 0 0 0)))))
    /\ UnixNano startTime = UnixNano (Date 2024 1 1 1 0 0 0) - ex_hour
    /\ in_window (mkGlobals false startTime (Date 2024 1 1 1 0 0 0) stored_format)
         (ex_info "app.tmp") = true.
Proof.
  destruct (main_default_window (fun _ => true) "C:\tools" "D:/collect"
              [mkKey "srv1" "host1"] (mkFlags "" ex_hour "prod" false false)
              (Date 2024 1 1 1 0 0 0) (Ok []) eq_refl eq_refl
              ltac:(vm_compute; split; [discriminate|reflexivity])
              ltac:(vm_compute; reflexivity) ltac:(vm_compute; discriminate))
    as (startTime & Hrun & _ & Hu & Hsel).
  exists startTime. split; [assumption|]. split; [assumption|].
  apply (Hsel stored_format (ex_info "app.tmp")
           ltac:(vm_compute; split; [discriminate|reflexivity])
           ltac:(vm_compute; repeat split; discriminate)
           ltac:(vm_compute; split; discriminate)).
  split; [vm_compute; reflexivity|]. split; [vm_compute; reflexivity|].
  exists "app". reflexivity.
Defined.

(** X14.  A [-start] flag in the form [yyyy-MM-dd HH:mm:ss]: when the day
    exists in the month, the window of the run starts at that date and
    time, UTC, and is [dur] nanoseconds long, and the scans get the
    snapshot folder named after it; when the day does not exist (the 30th
    of February, the 31st of April, day 00) the run logs that the start
    date cannot be parsed and exits with status 1 before any scan. *)
Theorem main_start_flag (IsAbs : string -> bool) (wd configured : string)
    (keys : list Key) (fl : Flags) (now : Time)
    (readdir : result (list (DirEntry * PruneIO))) (y m d H M S : Z) :
  fl_clean fl = false -> fl_start fl = start_text y m d H M S ->
  0 <= y <= 9999 -> 1 <= m <= 12 -> 0 <= d < 100 ->
  0 <= H < 24 -> 0 <= M < 60 -> 0 <= S < 60 ->
  let run := main IsAbs wd configured keys fl now readdir in
  let startTime := Date y m d H M S 0 in
  let endTime := Add startTime (fl_dur fl) in
  (1 <= d <= daysIn m y ->
     run = ([], inr (mkPlan startTime endTime
                       (main_launches keys
                          (destination (destination_root IsAbs wd configured)
                             (fl_cluster fl) startTime endTime))))
     /\ UnixNano endTime = UnixNano startTime + fl_dur fl)
  /\ (~ 1 <= d <= daysIn m y ->
        run = ([EvLog "[fatal] cannot parse start date: %v"
                  [AErr (start_error (fl_start fl))]], inl (Exit 1))).
Proof.
  intros Hclean Hstart Hy Hm Hd HH HM HS. cbv zeta.
  assert (Hlen : (String.length (fl_start fl) =? 0)%nat = false).
  { rewrite Hstart. unfold start_text, four_digits. reflexivity. }
  pose proof (ParseStart_fields y m d H M S Hy Hm Hd HH HM HS) as Hparse.
  rewrite <- Hstart in Hparse.
  split.
  - intros Hday. split; [|apply Add_UnixNano].
    unfold main. rewrite Hclean, Hlen, Hparse.
    replace ((d <? 1) || (daysIn m y <? d)) with false by lia. reflexivity.
  - intros Hday. unfold main. rewrite Hclean, Hlen, Hparse.
    replace ((d <? 1) || (daysIn m y <? d)) with true by lia. reflexivity.
Qed.

Lemma main_start_flag_witness :
  main (fun _ => true) "C:\tools" "D:/collect" [mkKey "srv1" "host1"]
    (mkFlags "2024-02-29 23:30:00" ex_hour "prod" false false) (Date 2024 5 1 0 0 0 0) (Ok [])
  = ([], inr (mkPlan (Date 2024 2 29 23 30 0 0) (Date 2024 3 1 0 30 0 0)
                [mkLaunch "srv1" "//host1/"
                   "D:/collect/prod/20240229T233000Z-20240301T003000Z"])).
Proof.
  refine (eq_trans (proj1 (proj1 (main_start_flag (fun _ => true) "C:\tools" "D:/collect"
                     [mkKey "srv1" "host1"]
                     (mkFlags "2024-02-29 23:30:00" ex_hour "prod" false false)
                     (Date 2024 5 1 0 0 0 0) (Ok []) 2024 2 29 23 30 0
                     eq_refl eq_refl _ _ _ _ _ _) _)) _).
  1-6: vm_compute; split; (discriminate || reflexivity).
  - vm_compute. split; discriminate.
  - vm_compute. reflexivity.
Defined.

(** X15.  With [-clean] the program only prunes: it logs the start, runs
    [cleanup], and when the folder of the cluster could be listed logs
    [finished] and exits with status 0, when not exits with status 1
    without [finished].  No scan is started, and neither the [-start]
    flag (which is not even parsed), nor [-compress], nor the keys of the
    cluster's section, nor the clock of [main] matter. *)
Theorem main_clean_mode (IsAbs : string -> bool) (wd configured : string)
    (keys : list Key) (fl : Flags) (now : Time)
    (readdir : result (list (DirEntry * PruneIO))) :
  fl_clean fl = true ->
  let dst := join (destination_root IsAbs wd configured) (fl_cluster fl) in
  let run := main IsAbs wd configured keys fl now readdir in
  (forall entries, readdir = Ok entries ->
     run = (EvLog "starting clean-up of logs" [] :: EvReadDir dst
              :: flat_map (fun e => events (cleanup_entry (fl_dur fl) dst (fst e) (snd e)))
                   entries
              ++ [EvLog "finished" []],
            inl (Exit 0)))
  /\ (forall err, readdir = Failed err ->
        run = ([EvLog "starting clean-up of logs" []; EvReadDir dst;
                EvLog "cannot read from folder %q: %v" [AStr dst; AErr err]],
               inl (Exit 1)))
  /\ (forall start' compress' keys' now',
        main IsAbs wd configured keys'
          (mkFlags start' (fl_dur fl) (fl_cluster fl) compress' true) now' readdir = run).
Proof.
  intros Hclean. cbv zeta. split; [|split].
  - intros entries ->. unfold main, cleanup. rewrite Hclean. cbv zeta.
    pose proof (cleanup_loop_returns (fl_dur fl)
                  (join (destination_root IsAbs wd configured) (fl_cluster fl)) entries)
      as Hret.
    pose proof (cleanup_loop_events (fl_dur fl)
                  (join (destination_root IsAbs wd configured) (fl_cluster fl)) entries)
      as Hev.
    destruct (cleanup_loop (fl_dur fl)
                (join (destination_root IsAbs wd configured) (fl_cluster fl)) entries)
      as [evs r].
    cbn in Hret, Hev. subst r evs. reflexivity.
  - intros err ->. unfold main, cleanup. rewrite Hclean. reflexivity.
  - intros start' compress' keys' now'. unfold main. cbn [fl_clean fl_dur fl_cluster].
    now rewrite Hclean.
Qed.

Lemma main_clean_mode_witness :
  main (fun _ => true) "C:\tools" "D:/collect" []
    (mkFlags "not a date" ex_hour "prod" false true) (Date 2024 1 1 3 0 0 0)
    (Ok [(ex_folder "20240101T000000Z-20240101T010000Z",
          mkPruneIO (Date 2024 1 1 3 0 0 0) None)])
  = ([EvLog "starting clean-up of logs" []; EvReadDir "D:/collect/prod";
      EvLog "cleaning up %s..."
        [AStr "D:/collect/prod/20240101T000000Z-20240101T010000Z"];
      EvRemoveAll "D:/collect/prod/20240101T000000Z-20240101T010000Z";
      EvLog "finished" []],
     inl (Exit 0)).
Proof.
  refine (eq_trans (proj1 (main_clean_mode (fun _ => true) "C:\tools" "D:/collect" []
                     (mkFlags "not a date" ex_hour "prod" false true)
                     (Date 2024 1 1 3 0 0 0)
                     (Ok [(ex_folder "20240101T000000Z-20240101T010000Z",
                           mkPruneIO (Date 2024 1 1 3 0 0 0) None)]) eq_refl) _ eq_refl) _).
  vm_compute. reflexivity.
Defined.

Lemma share_after_app (before after : list Key) (share : string) :
  share_after (before ++ after) share = share_after after (share_after before share).
Proof. unfold share_after. apply fold_left_app. Qed.

(** X16.  The share a scan reads is the one of the last [logshare] key
    above the key of its server: the value of that key or, when the value
    is empty, [SPSS_DIMENSIONS_LOGS]; earlier [logshare] keys do not
    count. *)
Theorem launch_share_from_last_logshare (keys before mid after : list Key) (ls k : Key)
    (dst : string) :
  keys = before ++ ls :: mid ++ k :: after ->
  k_Name ls = "logshare" -> k_Name k <> "logshare" ->
  (forall k', In k' mid -> k_Name k' <> "logshare") ->
  In (mkLaunch (k_Name k)
        ("//" ++ k_Value k ++ "/"
         ++ (if (String.length (k_Value ls) =? 0)%nat then "SPSS_DIMENSIONS_LOGS"
             else k_Value ls)) dst)
     (main_launches keys dst).
Proof.
  intros -> Hls Hk Hmid. unfold main_launches.
  replace (before ++ ls :: mid ++ k :: after)
    with ((before ++ ls :: mid) ++ k :: after)
    by (rewrite <- app_assoc; reflexivity).
  rewrite launches_app, in_app_iff. right.
  cbn [launches]. apply String.eqb_neq in Hk. rewrite Hk. left.
  do 2 f_equal.
  rewrite share_after_app. cbn [share_after fold_left].
  apply String.eqb_eq in Hls. rewrite Hls.
  fold (share_after mid (MustString ls "SPSS_DIMENSIONS_LOGS")).
  rewrite (share_after_no_logshare mid _ Hmid). reflexivity.
Qed.

Lemma launch_share_from_last_logshare_witness :
  In (mkLaunch "srv2" "//host2/SPSS_DIMENSIONS_LOGS" "D:/snap")
     (main_launches [mkKey "logshare" "old"; mkKey "srv1" "host1"; mkKey "logshare" "";
                     mkKey "srv2" "host2"] "D:/snap").
Proof.
  apply (launch_share_from_last_logshare
           [mkKey "logshare" "old"; mkKey "srv1" "host1"; mkKey "logshare" "";
            mkKey "srv2" "host2"]
           [mkKey "logshare" "old"; mkKey "srv1" "host1"] [] [] (mkKey "logshare" "")
           (mkKey "srv2" "host2") "D:/snap" eq_refl eq_refl).
  - discriminate.
  - intros k' [].
Defined.

Lemma ReplaceAll_length (s : string) (old new : ascii) :
  String.length (ReplaceAll s old new) = String.length s.
Proof. induction s as [|c s IH]; cbn; [reflexivity | now rewrite IH]. Qed.

Lemma ReplaceAll_clean (s : string) (old new : ascii) :
  Ascii.eqb new old = false -> has_char old (ReplaceAll s old new) = false.
Proof.
  intros Hne. induction s as [|c s IH]; cbn; [reflexivity|].
  rewrite IH, orb_false_r. destruct (Ascii.eqb c old) eqn:E; assumption.
Qed.

Lemma ReplaceAll_absent (s : string) (old new : ascii) :
  has_char old s = false -> ReplaceAll s old new = s.
Proof.
  induction s as [|c s IH]; cbn; [reflexivity|].
  intros H. apply orb_false_iff in H. destruct H as [-> H]. now rewrite IH.
Qed.

Lemma ReplaceAll_get (s : string) (old new : ascii) (n : nat) :
  String.get n (ReplaceAll s old new)
  = option_map (fun c => if Ascii.eqb c old then new else c) (String.get n s).
Proof.
  revert n. induction s as [|c s IH]; intros [|n]; cbn; auto.
Qed.

(** X17.  The root of the snapshot folders (lines 79-84 and 212-216): an
    absolute configured destination is taken as it is; a relative one is
    put under the folder of the executable, of which every backslash has
    become a slash and every other byte has stayed in its place, while
    the configured part keeps its own backslashes. *)
Theorem destination_root_shape (IsAbs : string -> bool) (wd configured : string) :
  (IsAbs configured = true -> destination_root IsAbs wd configured = configured)
  /\ (IsAbs configured = false ->
      exists base,
        destination_root IsAbs wd configured = (base ++ "/" ++ configured)%string
        /\ String.length base = String.length wd
        /\ (forall n,
              String.get n base
              = option_map (fun c => if Ascii.eqb c "\" then "/"%char else c)
                  (String.get n wd))
        /\ has_char "\" base = false
        /\ (has_char "\" wd = false -> base = wd)).
Proof.
  unfold destination_root. split; intros ->; [reflexivity|].
  exists (ReplaceAll wd "\" "/"). split; [reflexivity|].
  split; [apply ReplaceAll_length|].
  split; [intros n; apply ReplaceAll_get|].
  split; [now apply ReplaceAll_clean | apply ReplaceAll_absent].
Qed.

Lemma launches_In (keys : list Key) (share dst : string) (l : Launch) :
  In l (launches keys share dst) ->
  exists k share', In k keys /\ k_Name k <> "logshare"
                   /\ l = mkLaunch (k_Name k) ("//" ++ k_Value k ++ "/" ++ share') dst.
Proof.
  revert share. induction keys as [|k keys IH]; intros share; cbn [launches]; [intros []|].
  destruct (String.eqb (k_Name k) "logshare") eqn:E.
  - intros Hin. destruct (IH _ Hin) as (k' & sh & Hk' & Hn & ->).
    exists k', sh. repeat split; [now right | assumption].
  - intros [<-|Hin].
    + exists k, share. apply String.eqb_neq in E. repeat split; [now left | assumption].
    + destruct (IH _ Hin) as (k' & sh & Hk' & Hn & ->).
      exists k', sh. repeat split; [now right | assumption].
Qed.

Lemma main_plan (IsAbs : string -> bool) (wd configured : string) (keys : list Key)
    (fl : Flags) (now : Time) (readdir : result (list (DirEntry * PruneIO)))
    (plan : Plan) :
  snd (main IsAbs wd configured keys fl now readdir) = inr plan ->
  fl_clean fl = false
  /\ events (main IsAbs wd configured keys fl now readdir) = []
  /\ plan_end plan = Add (plan_start plan) (fl_dur fl)
  /\ plan_launches plan
     = main_launches keys
         (destination (destination_root IsAbs wd configured) (fl_cluster fl)
            (plan_start plan) (plan_end plan)).
Proof.
  unfold main. destruct (fl_clean fl).
  - unfold cleanup. cbv zeta. destruct readdir as [entries|err]; [|discriminate].
    rewrite bind_log, bind_emit. cbn [fst snd].
    destruct (cleanup_loop _ _ entries) as [evs [s|[]]]; cbn; discriminate.
  - destruct (String.length (fl_start fl) =? 0)%nat.
    + cbn. intros [= <-]. repeat split; reflexivity.
    + destruct (ParseStart (fl_start fl)); [|discriminate].
      cbn. intros [= <-]. repeat split; reflexivity.
Qed.

(** X18.  A whole run, scan by scan.  Every scan that [main] starts is
    the scan of a key of the cluster's section other than [logshare], and
    whatever the file system answers, that scan creates files and sets
    file times only in the folder of its server inside the snapshot
    folder named after the window of the run, makes no other folder than
    that one, opens only files directly inside the share of its server,
    and removes nothing. *)
Theorem run_stays_in_snapshot (IsAbs : string -> bool) (wd configured : string)
    (keys : list Key) (fl : Flags) (now : Time)
    (readdir : result (list (DirEntry * PruneIO))) (plan : Plan) (l : Launch) :
  snd (main IsAbs wd configured keys fl now readdir) = inr plan ->
  In l (plan_launches plan) ->
  let snapshot := destination (destination_root IsAbs wd configured) (fl_cluster fl)
                    (plan_start plan) (plan_end plan) in
  exists k share,
    In k keys /\ k_Name k <> "logshare"
    /\ l = mkLaunch (k_Name k) ("//" ++ k_Value k ++ "/" ++ share) snapshot
    /\ forall (fuel : nat) (gz : GzipFormat) (io : ScanIO) (ev : Event),
         In ev (events (CopyFiles fuel
                          (mkGlobals (fl_compress fl) (plan_start plan) (plan_end plan) gz)
                          (l_server l) (l_src l) (l_dst l) io)) ->
         match ev with
         | EvCreate p | EvChtimes p _ _ =>
             exists name, p = join (join snapshot (k_Name k)) name
         | EvStat p | EvMkdirAll p => p = join snapshot (k_Name k)
         | EvReadDir p => p = ("//" ++ k_Value k ++ "/" ++ share)%string
         | EvOpen p => exists name, p = join ("//" ++ k_Value k ++ "/" ++ share) name
         | EvRemoveAll _ => False
         | EvLog _ _ | EvClose _ | EvDone => True
         end.
Proof.
  intros Hrun Hl. cbv zeta.
  destruct (main_plan _ _ _ _ _ _ _ _ Hrun) as (_ & _ & _ & Hlaunches).
  rewrite Hlaunches in Hl. unfold main_launches in Hl.
  destruct (launches_In _ _ _ _ Hl) as (k & share & Hk & Hname & ->).
  exists k, share. split; [assumption|]. split; [assumption|]. split; [reflexivity|].
  cbn [l_server l_src l_dst]. intros fuel gz io ev Hin.
  apply scan_events in Hin.
  destruct Hin as [(fm & args & ->)|[->|[[-> _]|[[-> _]|[->|(sdir & _ & _ & Hin)]]]]];
    try exact I; try reflexivity.
  apply loop_events_from_entry in Hin. destruct Hin as (f & fio & _ & Hin).
  pose proof (entry_footprint _ _ _ _ _ _ _ _ Hin) as Hfoot.
  destruct ev as [fm args|p|p|p|p|p|h|p a m|p|]; try exact I; try contradiction.
  - exists (Name f). exact Hfoot.
  - apply entry_creates in Hin. destruct Hin as (finfo & _ & _ & _ & ->). eauto.
  - apply entry_creates in Hfoot. destruct Hfoot as (finfo & _ & _ & _ & ->). eauto.
Qed.

Lemma run_stays_in_snapshot_witness :
  exists k share,
    In k [mkKey "logshare" "logs"; mkKey "srv1" "host1"]
    /\ k_Name k <> "logshare"
    /\ mkLaunch "srv1" "//host1/logs" "D:/collect/prod/20240101T000000Z-20240101T010000Z"
       = mkLaunch (k_Name k) ("//" ++ k_Value k ++ "/" ++ share)
           "D:/collect/prod/20240101T000000Z-20240101T010000Z".
Proof.
  destruct (run_stays_in_snapshot (fun _ => true) "C:\tools" "D:/collect"
              [mkKey "logshare" "logs"; mkKey "srv1" "host1"]
              (mkFlags "2024-01-01 00:00:00" ex_hour "prod" false false)
              (Date 2024 5 1 0 0 0 0) (Ok [])
              (mkPlan (Date 2024 1 1 0 0 0 0) (Date 2024 1 1 1 0 0 0)
                 [mkLaunch "srv1" "//host1/logs"
                    "D:/collect/prod/20240101T000000Z-20240101T010000Z"])
              (mkLaunch "srv1" "//host1/logs"
                 "D:/collect/prod/20240101T000000Z-20240101T010000Z")
              ltac:(vm_compute; reflexivity) ltac:(now left))
    as (k & share & Hk & Hname & Hl & _).
  exists k, share. repeat split; assumption.
Defined.

(* ================================================================== *)
(** * A whole scan, and the names of the snapshot folders *)
(* ================================================================== *)

(** X4.  A scan delivers every selected file it can read, whatever
    happens to the other entries of the share.  When the folder of the
    server is there (or could be made), the share could be listed and the
    copies end, then for every listed file of the window whose source and
    destination show no fault, the body of the loop opens the source,
    creates the destination, closes the streams and sets the times, in
    this order and doing nothing else; so the scan leaves the destination
    holding the bytes of the source (their gzip stream with [-compress]),
    sets its modification time to the one of the source, and the scan
    returns and signals the wait group. *)
Theorem scan_delivers_selected (fuel : nat) (g : Globals) (server src dst : string)
    (io : ScanIO) (sdir : list (DirEntry * FileIO)) (f : DirEntry) (fio : FileIO)
    (finfo : FileInfo) (data : list byte) :
  folder_ready io = true -> io_readdir io = Ok sdir -> enough_fuel fuel sdir ->
  In (f, fio) sdir ->
  IsDir f = false -> Info f = Ok finfo -> in_window g finfo = true ->
  io_open fio = Ok (data, []) -> io_create fio = Ok [] ->
  let spath := join src (Name f) in
  let dpath := join (join dst server) (targetName g finfo) in
  let run := CopyFiles fuel g server src dst io in
  CopyFiles_entry fuel g server src dst f fio
  = ([EvOpen spath; EvCreate dpath; EvClose (SourceFile spath)]
     ++ (if compress g
         then [EvClose (Compressor dpath);
               EvClose (DestFile dpath (compressed (gzip g) data))]
         else [EvClose (DestFile dpath data)])
     ++ EvChtimes dpath (io_now fio) (ModTime finfo)
     :: match io_chtimes fio with
        | Some err =>
            [EvLog "[error][%s] error setting last modified date on %s: %v"
                   [AStr server; AStr (targetName g finfo); AErr err]]
        | None => []
        end, inr tt)
  /\ In (EvClose (DestFile dpath (if compress g then compressed (gzip g) data else data)))
        (events run)
  /\ In (EvChtimes dpath (io_now fio) (ModTime finfo)) (events run)
  /\ In EvDone (events run)
  /\ snd run = inr tt.
Proof.
  intros Hready Hlist Hfuel Hin Hdir Hinfo Hwin Hopen Hcreate. cbv zeta.
  pose proof (entry_delivered fuel g server src dst f fio finfo data Hdir Hinfo Hwin
                Hopen Hcreate (Hfuel f fio data [] Hin Hopen)) as Hentry.
  cbv zeta in Hentry.
  assert (Hev : forall ev,
             In ev (events (CopyFiles_entry fuel g server src dst f fio)) ->
             In ev (events (CopyFiles fuel g server src dst io))).
  { intros ev Hev. apply (scan_loop_events fuel g server src dst io sdir Hready Hlist).
    now apply (entry_events_in_loop fuel g server src dst sdir f fio). }
  pose proof (scan_listed fuel g server src dst io sdir Hready Hlist
                (loop_returns fuel g server src dst sdir Hfuel)) as Hscan.
  split; [exact Hentry|split; [|split; [|split]]].
  - apply Hev. rewrite Hentry. cbn [events fst]. rewrite !in_app_iff. right. left.
    destruct (compress g); cbn; auto.
  - apply Hev. rewrite Hentry. cbn [events fst]. rewrite !in_app_iff. right. right.
    now left.
  - rewrite Hscan. cbn [events fst]. rewrite in_app_iff. right. right.
    rewrite in_app_iff. right. right. now left.
  - now rewrite Hscan.
Qed.

Lemma scan_delivers_selected_witness :
  In (EvClose (DestFile (join (join ex_snapshot "srv1") "app.tmp") ex_bytes))
     (events (CopyFiles 11 (ex_globals false) "srv1" "//host1/logs" ex_snapshot
                (mkScanIO None None
                   (Ok [(ex_entry "old.log", ex_io); (ex_entry "app.tmp", ex_io)])))).
Proof.
  refine (proj1 (proj2 (scan_delivers_selected 11 (ex_globals false) "srv1" "//host1/logs"
                   ex_snapshot
                   (mkScanIO None None
                      (Ok [(ex_entry "old.log", ex_io); (ex_entry "app.tmp", ex_io)]))
                   [(ex_entry "old.log", ex_io); (ex_entry "app.tmp", ex_io)]
                   (ex_entry "app.tmp") ex_io (ex_info "app.tmp") ex_bytes
                   eq_refl eq_refl _ _ eq_refl eq_refl _ eq_refl eq_refl))).
  - intros f0 io0 data faults [[= <- <-]|[[= <- <-]|[]]] [= <- <-];
      apply Nat.ltb_lt; vm_compute; reflexivity.
  - right. now left.
  - vm_compute. reflexivity.
Defined.

Lemma string_app_inv_head (a b c : string) : (a ++ b = a ++ c)%string -> b = c.
Proof. induction a as [|x a IH]; cbn; [auto|]. intros [= H]. auto. Qed.

Lemma string_app_same_length (a a' b b' : string) :
  String.length a = String.length a' -> (a ++ b = a' ++ b')%string -> a = a' /\ b = b'.
Proof.
  revert a'. induction a as [|x a IH]; intros [|x' a']; cbn; try discriminate.
  - auto.
  - intros [= Hlen] [= -> Heq]. destruct (IH a' Hlen Heq) as [-> ->]. auto.
Qed.

Lemma Format_sec (t u : Time) : t_sec t = t_sec u -> Format t = Format u.
Proof. unfold Format. now intros ->. Qed.

Lemma Format_inj (t u : Time) :
  stampable t -> stampable u -> Format t = Format u -> t_sec t = t_sec u.
Proof.
  intros Ht Hu Heq. pose proof (Parse_Format t Ht) as Hpt.
  rewrite Heq, (Parse_Format u Hu) in Hpt. now injection Hpt.
Qed.

(** X19.  Two runs for the same root and cluster write to the same
    snapshot folder exactly when their windows start in the same second
    and end in the same second: the folder name keeps the window to the
    second and drops the rest. *)
Theorem snapshot_folder_per_window (root cluster : string) (s e s' e' : Time) :
  stampable s -> stampable e -> stampable s' -> stampable e' ->
  (destination root cluster s e = destination root cluster s' e'
   <-> t_sec s = t_sec s' /\ t_sec e = t_sec e').
Proof.
  intros Hs He Hs' He'. unfold destination. split.
  - intros Heq.
    do 4 apply string_app_inv_head in Heq.
    apply string_app_same_length in Heq.
    + destruct Heq as [Hfs Hrest]. apply string_app_inv_head in Hrest.
      split; now apply Format_inj.
    + destruct (Format_shape s Hs) as [-> _]. now destruct (Format_shape s' Hs') as [-> _].
  - intros [H1 H2]. now rewrite (Format_sec s s' H1), (Format_sec e e' H2).
Qed.

Lemma snapshot_folder_per_window_witness :
  destination "D:/collect" "prod" (mkTime 1704067200 999999999) (mkTime 1704070800 5)
  = destination "D:/collect" "prod" ex_start ex_end.
Proof.
  apply (proj2 (snapshot_folder_per_window "D:/collect" "prod"
                  (mkTime 1704067200 999999999) (mkTime 1704070800 5) ex_start ex_end
                  ltac:(vm_compute; split; discriminate)
                  ltac:(vm_compute; split; discriminate)
                  ltac:(vm_compute; split; discriminate)
                  ltac:(vm_compute; split; discriminate))).
  vm_compute. split; reflexivity.
Defined.
